(** * Clarity expense tracker: the ledger engine of [src/app/layout.tsx]

    The page component [HomePage] keeps a list of expenses, validates and
    applies a draft form, derives a filtered and sorted view, per-category
    totals and a top category, and exports the view as CSV.  This file embeds
    those functions, together with the parts of the JavaScript language they
    call ([String.prototype.trim], [toLowerCase], [includes], the relational
    operators on strings, [Number], [Number.prototype.toFixed],
    [Array.prototype.sort]), and proves or refutes the properties the
    specification states about them.

    Numbers are IEEE 754 binary64 values, as in JavaScript: Rocq's primitive
    [float].  A string is a sequence of UTF-16 code units.  The component is
    embedded on strings of code units below 256, one [ascii] each: text in
    Basic Latin and Latin-1, where white space is the seven characters of
    [JS.isWhiteSpace] and [toLowerCase] maps every letter on its own.  The
    one place where text beyond Latin-1 behaves otherwise, the search of the
    filter, is embedded a second time on 16-bit code units in [Wide]; on
    text in Latin-1 the two embeddings are the same function
    ([matchesFilters_is_wide]). *)

From Stdlib Require Import ZArith NArith Lia List Bool Ascii String Floats.
From Stdlib Require Import Permutation Sorted RelationClasses Setoid Morphisms.
Import ListNotations.

Set Warnings "-inexact-float".

Local Open Scope string_scope.
Local Open Scope list_scope.
Local Open Scope Z_scope.

(* ================================================================== *)
(** * The JavaScript built-ins the component calls *)
(* ================================================================== *)

Module JS.

(** ** Strings *)

(** WhiteSpace and LineTerminator code units below 256: TAB, LF, VT, FF, CR,
    SP and NBSP. *)
Definition isWhiteSpace (c : ascii) : bool :=
  let n := N_of_ascii c in
  ((9 <=? n) && (n <=? 13) || (n =? 32) || (n =? 160))%N.

Fixpoint trimStart (s : string) : string :=
  match s with
  | EmptyString => EmptyString
  | String c s' => if isWhiteSpace c then trimStart s' else s
  end.

Fixpoint trimEnd (s : string) : string :=
  match s with
  | EmptyString => EmptyString
  | String c s' =>
      match trimEnd s' with
      | EmptyString => if isWhiteSpace c then EmptyString else String c EmptyString
      | t => String c t
      end
  end.

(** [s.trim()] *)
Definition trim (s : string) : string := trimEnd (trimStart s).

(** Lower-case mapping of one code unit below 256: A-Z, and the Latin-1
    capitals U+00C0..U+00DE except the multiplication sign U+00D7. *)
Definition lowerChar (c : ascii) : ascii :=
  let n := N_of_ascii c in
  if ((65 <=? n) && (n <=? 90) || (192 <=? n) && (n <=? 222) && negb (n =? 215))%N
  then ascii_of_N (n + 32)
  else c.

(** [s.toLowerCase()] on text in Latin-1, where the mapping has no
    condition and keeps the length; [Wide.toLowerCase] is the function on
    16-bit code units. *)
Fixpoint toLowerCase (s : string) : string :=
  match s with
  | EmptyString => EmptyString
  | String c s' => String (lowerChar c) (toLowerCase s')
  end.

(** [s.includes(t)] *)
Fixpoint includes (s t : string) : bool :=
  String.prefix t s ||
  match s with
  | EmptyString => false
  | String _ s' => includes s' t
  end.

(** Truthiness of a string: every string but the empty one. *)
Definition truthy (s : string) : bool :=
  match s with
  | EmptyString => false
  | String _ _ => true
  end.

(** The relational operators on two strings compare code units
    lexicographically. *)
Definition lt (a b : string) : bool := String.ltb a b.   (* a <  b *)
Definition ge (a b : string) : bool := negb (lt a b).    (* a >= b *)
Definition le (a b : string) : bool := negb (lt b a).    (* a <= b *)

(** [parts.join(sep)] *)
Definition join (sep : string) (parts : list string) : string :=
  String.concat sep parts.

(** ** Numbers

    A Number is a binary64 value.  [roundRational] is the Number value for a
    mathematical value: the rational [num / den] (with [0 <= num], [0 < den])
    rounded to nearest, ties to even, with the given sign. *)

Definition roundRational (negative : bool) (num den : Z) : float :=
  if num =? 0 then (if negative then neg_zero else zero)
  else
    (* scale the quotient to at least 64 bits, more than the 53 kept *)
    let scale := Z.max 0 (64 + Z.log2 den - Z.log2 num) in
    let '(q, r) := Z.div_eucl (num * 2 ^ scale) den in
    let location :=
      if r =? 0 then loc_Exact else loc_Inexact (2 * r ?= den) in
    SF2Prim (binary_round_aux prec emax negative q (- scale) location).

(** The mathematical value [num / den] of a finite Number. *)
Definition exactValue (mantissa : positive) (exponent : Z) : Z * Z :=
  if 0 <=? exponent
  then (Zpos mantissa * 2 ^ exponent, 1)
  else (Zpos mantissa, 2 ^ (- exponent)).

Definition isNaN (x : float) : bool := PrimFloat.is_nan x.

(** *** Number(string): StringToNumber *)

Definition isDigit (c : ascii) : bool :=
  let n := N_of_ascii c in ((48 <=? n) && (n <=? 57))%N.

(** Value of a digit of a numeric literal in the given radix, if it is one. *)
Definition digitValue (radix : Z) (c : ascii) : option Z :=
  let n := Z.of_N (N_of_ascii c) in
  let v :=
    if (48 <=? n) && (n <=? 57) then n - 48
    else if (97 <=? n) && (n <=? 102) then n - 87
    else if (65 <=? n) && (n <=? 70) then n - 55
    else 16 in
  if v <? radix then Some v else None.

(** Reads the longest run of digits [s] starts with: the value of the digits
    read so far (continuing [acc]), how many were read, and the rest. *)
Fixpoint readDigits (radix : Z) (s : string) (acc : Z) (count : nat)
  : Z * nat * string :=
  match s with
  | EmptyString => (acc, count, s)
  | String c s' =>
      match digitValue radix c with
      | Some v => readDigits radix s' (radix * acc + v) (S count)
      | None => (acc, count, s)
      end
  end.

(** NonDecimalIntegerLiteral after its prefix: one or more digits, nothing
    else. *)
Definition nonDecimalLiteral (radix : Z) (digits : string) : float :=
  match readDigits radix digits 0 O with
  | (_, O, _) => nan
  | (v, S _, EmptyString) => roundRational false v 1
  | (_, S _, String _ _) => nan
  end.

(** ExponentPart, optional: [e] or [E], an optional sign, one or more
    digits.  Gives the exponent when the rest of the literal is exactly
    that, or is empty. *)
Definition exponentPart (s : string) : option Z :=
  match s with
  | EmptyString => Some 0
  | String c s' =>
      if ((c =? "e") || (c =? "E"))%char then
        let '(negative, digits) :=
          match s' with
          | String "+" d => (false, d)
          | String "-" d => (true, d)
          | _ => (false, s')
          end in
        match readDigits 10 digits 0 O with
        | (v, S _, EmptyString) => Some (if negative then - v else v)
        | _ => None
        end
      else None
  end.

(** StrUnsignedDecimalLiteral, with the sign that preceded it. *)
Definition unsignedDecimalLiteral (negative : bool) (s : string) : float :=
  if (s =? "Infinity")%string then (if negative then neg_infinity else infinity)
  else
    let '(intValue, intCount, afterInt) := readDigits 10 s 0 O in
    let '(mantissa, fracCount, afterFrac) :=
      match afterInt with
      | String "." f => readDigits 10 f intValue O
      | _ => (intValue, O, afterInt)
      end in
    match (intCount + fracCount)%nat, exponentPart afterFrac with
    | S _, Some e =>
        let e10 := e - Z.of_nat fracCount in
        if 0 <=? e10
        then roundRational negative (mantissa * 10 ^ e10) 1
        else roundRational negative mantissa (10 ^ (- e10))
    | _, _ => nan
    end.

(** [trim] strips exactly the characters of StrWhiteSpace. *)
Definition Number (s : string) : float :=
  match trim s with
  | EmptyString => zero
  | String "0" (String "x" d) | String "0" (String "X" d) => nonDecimalLiteral 16 d
  | String "0" (String "o" d) | String "0" (String "O" d) => nonDecimalLiteral 8 d
  | String "0" (String "b" d) | String "0" (String "B" d) => nonDecimalLiteral 2 d
  | String "+" d => unsignedDecimalLiteral false d
  | String "-" d => unsignedDecimalLiteral true d
  | d => unsignedDecimalLiteral false d
  end.

(** *** Number.prototype.toString, radix 10 *)

Definition digitChar (d : Z) : ascii := ascii_of_N (Z.to_N (48 + d)).

Fixpoint decimalDigits (fuel : nat) (n : Z) (acc : string) : string :=
  match fuel with
  | O => acc
  | S fuel' =>
      let acc' := String (digitChar (n mod 10)) acc in
      if n <? 10 then acc' else decimalDigits fuel' (n / 10) acc'
  end.

(** The decimal representation of an integer [0 <= n], without leading
    zeros; a decimal digit takes more than one bit. *)
Definition decimal (n : Z) : string :=
  decimalDigits (S (Z.to_nat (Z.log2 n))) n "".

Fixpoint zeros (n : nat) : string :=
  match n with
  | O => ""
  | S n' => String "0" (zeros n')
  end.

(** [num / den < 10 ^ n] *)
Definition belowPow10 (num den n : Z) : bool :=
  if 0 <=? n then num <? 10 ^ n * den else num * 10 ^ (- n) <? den.

(** The [n] with [10 ^ (n - 1) <= num / den < 10 ^ n], searched upwards from
    below the smallest positive Number. *)
Fixpoint exponent10 (fuel : nat) (num den n : Z) : Z :=
  match fuel with
  | O => n
  | S fuel' => if belowPow10 num den n then n else exponent10 fuel' num den (n + 1)
  end.

(** The fewest digits [s], [k] of them, for which [s * 10 ^ (n - k)] has [x]
    as its Number value; of two candidates the one nearer to [x], and the even
    one when they are as near. *)
Fixpoint shortestDigits (fuel : nat) (x : float) (num den n k : Z) : Z * Z :=
  match fuel with
  | O => (0, k)
  | S fuel' =>
      let '(snum, sden) :=
        if 0 <=? k - n then (num * 10 ^ (k - n), den)
        else (num, den * 10 ^ (n - k)) in
      let lower := snum / sden in
      let upper := lower + 1 in
      let denotes (s : Z) : bool :=
        PrimFloat.eqb x
          (if 0 <=? n - k then roundRational false (s * 10 ^ (n - k)) 1
           else roundRational false s (10 ^ (k - n))) in
      match denotes lower, denotes upper with
      | true, true =>
          match 2 * snum ?= (2 * lower + 1) * sden with
          | Lt => (lower, k)
          | Gt => (upper, k)
          | Eq => (if Z.even lower then lower else upper, k)
          end
      | true, false => (lower, k)
      | false, true => (upper, k)
      | false, false => shortestDigits fuel' x num den n (k + 1)
      end
  end.

(** Number::toString of a finite [x > 0] whose value is [num / den]. *)
Definition toStringPositive (x : float) (num den : Z) : string :=
  let n0 := exponent10 640 num den (-324) in
  let '(s0, k) := shortestDigits 17 x num den n0 1 in
  let '(s, n) := if s0 =? 10 ^ k then (10 ^ (k - 1), n0 + 1) else (s0, n0) in
  let digits := decimal s in
  if (k <=? n) && (n <=? 21) then
    (digits ++ zeros (Z.to_nat (n - k)))%string
  else if (0 <? n) && (n <=? 21) then
    (substring 0 (Z.to_nat n) digits ++ "." ++
     substring (Z.to_nat n) (Z.to_nat (k - n)) digits)%string
  else if (-6 <? n) && (n <=? 0) then
    ("0." ++ zeros (Z.to_nat (- n)) ++ digits)%string
  else
    let e := n - 1 in
    let esign := if e <? 0 then "-" else "+" in
    let exponent := (esign ++ decimal (Z.abs e))%string in
    if k =? 1 then (digits ++ "e" ++ exponent)%string
    else
      (substring 0 1 digits ++ "." ++ substring 1 (Z.to_nat (k - 1)) digits ++
       "e" ++ exponent)%string.

Definition toString (x : float) : string :=
  match Prim2SF x with
  | S754_nan => "NaN"
  | S754_zero _ => "0"
  | S754_infinity negative => if negative then "-Infinity" else "Infinity"
  | S754_finite negative m e =>
      let '(num, den) := exactValue m e in
      ((if negative then "-" else "") ++
       toStringPositive (PrimFloat.abs x) num den)%string
  end.

(** *** Number.prototype.toFixed(fractionDigits) *)

Definition toFixed (x : float) (fractionDigits : nat) : string :=
  match Prim2SF x with
  | S754_nan | S754_infinity _ => toString x
  | S754_zero _ =>
      if Nat.eqb fractionDigits O then "0"
      else ("0." ++ zeros fractionDigits)%string
  | S754_finite negative mantissa e =>
      let '(num, den) := exactValue mantissa e in
      let f := Z.of_nat fractionDigits in
      let sign := if negative then "-" else "" in
      if 10 ^ 21 * den <=? num
      then (sign ++ toStringPositive (PrimFloat.abs x) num den)%string
      else
        (* the integer nearest to x * 10^f, the larger of two *)
        let n := (2 * num * 10 ^ f + den) / (2 * den) in
        let m := decimal n in
        if Nat.eqb fractionDigits O then (sign ++ m)%string
        else
          let k := String.length m in
          let m' := if (k <=? fractionDigits)%nat
                    then (zeros (S fractionDigits - k) ++ m)%string else m in
          let k' := String.length m' in
          (sign ++ substring 0 (k' - fractionDigits) m' ++ "." ++
           substring (k' - fractionDigits) fractionDigits m')%string
  end.

(** ** Array.prototype.sort

    The order [sort] leaves the array in is decided by the engine: the
    language fixes it only for a consistent comparator, and the page's
    comparator is not one (it never returns 0).  An engine is therefore a
    parameter of the model. *)

Record SortEngine : Type := {
  sort : forall A : Type, (A -> A -> Z) -> list A -> list A
}.

Arguments sort _ {A} _ _.

(** [R] agrees with every answer the comparator gives. *)
Definition Compatible {A : Type} (cmp : A -> A -> Z) (R : A -> A -> Prop) : Prop :=
  forall x y,
    (cmp x y < 0 -> R x y) /\
    (cmp x y = 0 -> R x y /\ R y x) /\
    (0 < cmp x y -> R y x).

(** What every comparison sort provides: the result is a rearrangement of
    the input, and it is in order for each transitive relation that agrees
    with the comparator's answers. *)
Definition LawfulSort (E : SortEngine) : Prop :=
  forall (A : Type) (cmp : A -> A -> Z) (l : list A),
    Permutation l (sort E cmp l) /\
    forall R : A -> A -> Prop,
      Transitive R -> Compatible cmp R -> StronglySorted R (sort E cmp l).

(** *** V8 (Chrome, Node.js)

    [ArrayTimSort] on an array shorter than 64 elements: [CountAndMakeRun]
    finds the run the array starts with, reversing it when it is strictly
    descending, and [BinaryInsertionSort] inserts the remaining elements one
    by one.  (Longer arrays are cut in several such runs that are merged;
    that part is not modelled.) *)

Section V8.
Context {A : Type} (comparefn : A -> A -> Z).

(** How many more elements extend the run that ends in [previous]. *)
Fixpoint extendRun (isDescending : bool) (previous : A) (rest : list A) : nat :=
  match rest with
  | [] => O
  | current :: rest' =>
      let order := comparefn current previous in
      if (if isDescending then 0 <=? order else order <? 0)
      then O
      else S (extendRun isDescending current rest')
  end.

Definition countAndMakeRun (work : list A) : list A * nat :=
  match work with
  | [] => (work, O)
  | [_] => (work, 1%nat)
  | elementHigh :: elementLow :: rest =>
      let order := comparefn elementLow elementHigh in
      let isDescending := order <? 0 in
      let runLength := (2 + extendRun isDescending elementLow rest)%nat in
      if isDescending
      then (rev (firstn runLength work) ++ skipn runLength work, runLength)
      else (work, runLength)
  end.

(** The binary search of [BinaryInsertionSort] for the place of [pivot]
    among [sorted]; each round halves [right - left]. *)
Fixpoint searchPivot (fuel : nat) (sorted : list A) (pivot : A)
         (left right : nat) : nat :=
  match fuel with
  | O => left
  | S fuel' =>
      if (left <? right)%nat then
        let mid := (left + Nat.div2 (right - left))%nat in
        match nth_error sorted mid with
        | Some element =>
            if comparefn pivot element <? 0
            then searchPivot fuel' sorted pivot left mid
            else searchPivot fuel' sorted pivot (S mid) right
        | None => left
        end
      else left
  end.

Definition insertPivot (sorted : list A) (pivot : A) : list A :=
  let left := searchPivot (List.length sorted) sorted pivot O (List.length sorted) in
  firstn left sorted ++ pivot :: skipn left sorted.

Definition v8_sort (l : list A) : list A :=
  let '(work, runLength) := countAndMakeRun l in
  fold_left insertPivot (skipn runLength work) (firstn runLength work).
End V8.

Definition V8 : SortEngine := {| sort := @v8_sort |}.

(** *** A linear insertion sort

    Each element moves left past the elements the comparator puts after it,
    asked as [comparefn(earlier, later)], and stops at the first one with
    [comparefn(earlier, later) <= 0].  The sorted part is kept reversed. *)

Section Insertion.
Context {A : Type} (comparefn : A -> A -> Z).

Fixpoint insertItem (item : A) (sortedRev : list A) : list A :=
  match sortedRev with
  | [] => [item]
  | swap :: before =>
      if comparefn swap item <=? 0
      then item :: sortedRev
      else swap :: insertItem item before
  end.

Definition insertion_sort (l : list A) : list A :=
  rev (fold_left (fun sortedRev item => insertItem item sortedRev) l []).
End Insertion.

Definition Insertion : SortEngine := {| sort := @insertion_sort |}.

End JS.



(* ================================================================== *)
(** * lib/types *)
(* ================================================================== *)

Inductive Category : Type :=
  | Food | Transportation | Entertainment | Shopping | Bills | Other.

Definition CATEGORIES : list Category :=
  [Food; Transportation; Entertainment; Shopping; Bills; Other].

(** The string a category is at run time. *)
Definition categoryName (c : Category) : string :=
  match c with
  | Food => "Food"
  | Transportation => "Transportation"
  | Entertainment => "Entertainment"
  | Shopping => "Shopping"
  | Bills => "Bills"
  | Other => "Other"
  end.

(** [a === b] on two categories. *)
Definition Category_eqb (a b : Category) : bool :=
  match a, b with
  | Food, Food | Transportation, Transportation
  | Entertainment, Entertainment | Shopping, Shopping
  | Bills, Bills | Other, Other => true
  | _, _ => false
  end.

Record Expense : Type := {
  id : string;
  description : string;
  amount : float;
  category : Category;
  date : string;          (* ISO string (yyyy-mm-dd) *)
  createdAt : float
}.

(** [Category | "All"] *)
Inductive CategoryFilter : Type :=
  | All
  | Only (c : Category).

Module Filters.
Record Filters : Type := {
  search : string;
  category : CategoryFilter;
  from : string;
  to : string
}.
End Filters.
Abbreviation Filters := Filters.Filters.

(* ================================================================== *)
(** * app: the HomePage component *)
(* ================================================================== *)

Module Form.
Record FormState : Type := {
  description : string;
  amount : string;
  category : Category;
  date : string
}.
End Form.
Abbreviation FormState := Form.FormState.

(** An entry of [totalsByCategory]. *)
Module Total.
Record Total : Type := {
  category : Category;
  total : float
}.
End Total.
Abbreviation Total := Total.Total.

Inductive StatusType : Type := success | error.

Record Status : Type := {
  type : option StatusType;
  message : option string
}.

(** The state the component holds with [useState]. *)
Record State : Type := {
  expenses : list Expense;
  form : FormState;
  filters : Filters;
  editingId : option string;
  status : Status
}.

(** What an event handler reads from its environment: [crypto.randomUUID()],
    [Date.now()] and [new Date().toISOString().slice(0, 10)]. *)
Record Env : Type := {
  randomUUID : string;
  now : float;
  today : string
}.

(** Truthiness of a [string | null]. *)
Definition truthyOrNull (v : option string) : bool :=
  match v with
  | Some s => JS.truthy s
  | None => false
  end.

Definition initialForm (env : Env) : FormState :=
  {| Form.description := "";
     Form.amount := "";
     Form.category := Food;
     Form.date := today env |}.

Definition resetForm (env : Env) (st : State) : State :=
  {| expenses := expenses st;
     form := initialForm env;
     filters := filters st;
     editingId := None;
     status := status st |}.

Definition validateForm (form : FormState) : option string :=
  let amount := JS.Number (Form.amount form) in
  if negb (JS.truthy (JS.trim (Form.description form))) then Some "Add a description"
  else if negb (JS.truthy (Form.date form)) then Some "Pick a date"
  else if JS.isNaN amount || (amount <=? 0)%float then Some "Enter a valid amount"
  else None.

(** [{ ...item, ...form, amount }] *)
Definition overwrite (item : Expense) (form : FormState) (amount : float) : Expense :=
  {| id := id item;
     description := Form.description form;
     amount := amount;
     category := Form.category form;
     date := Form.date form;
     createdAt := createdAt item |}.

(** The update branch of [handleSubmit]:
    [prev.map((item) => (item.id === editingId ? {...} : item))]. *)
Definition updateExpenses (editingId : string) (form : FormState) (amount : float)
           (prev : list Expense) : list Expense :=
  map (fun item => if (id item =? editingId)%string
                   then overwrite item form amount else item) prev.

(** The create branch: [[newExpense, ...prev]]. *)
Definition newExpense (env : Env) (form : FormState) (amount : float) : Expense :=
  {| id := randomUUID env;
     description := JS.trim (Form.description form);
     amount := amount;
     category := Form.category form;
     date := Form.date form;
     createdAt := now env |}.

Definition createExpense (env : Env) (form : FormState) (amount : float)
           (prev : list Expense) : list Expense :=
  newExpense env form amount :: prev.

(** [handleSubmit].  The timer that clears the status 2200 ms later is left
    out: it does not touch the expenses. *)
Definition handleSubmit (env : Env) (st : State) : State :=
  let validationError := validateForm (form st) in
  if truthyOrNull validationError then
    {| expenses := expenses st;
       form := form st;
       filters := filters st;
       editingId := editingId st;
       status := {| type := Some error; message := validationError |} |}
  else
    let amount := JS.Number (Form.amount (form st)) in
    resetForm env
      (if truthyOrNull (editingId st) then
         {| expenses :=
              match editingId st with
              | Some editing => updateExpenses editing (form st) amount (expenses st)
              | None => expenses st
              end;
            form := form st;
            filters := filters st;
            editingId := editingId st;
            status := {| type := Some success; message := Some "Expense updated" |} |}
       else
         {| expenses := createExpense env (form st) amount (expenses st);
            form := form st;
            filters := filters st;
            editingId := editingId st;
            status := {| type := Some success; message := Some "Expense added" |} |}).

Definition handleEdit (expense : Expense) (st : State) : State :=
  {| expenses := expenses st;
     form := {| Form.description := description expense;
                Form.amount := JS.toString (amount expense);
                Form.category := category expense;
                Form.date := date expense |};
     filters := filters st;
     editingId := Some (id expense);
     status := status st |}.

Definition deleteExpense (target : string) (prev : list Expense) : list Expense :=
  filter (fun expense => negb (id expense =? target)%string) prev.

Definition handleDelete (env : Env) (target : string) (st : State) : State :=
  let st' :=
    {| expenses := deleteExpense target (expenses st);
       form := form st;
       filters := filters st;
       editingId := editingId st;
       status := status st |} in
  match editingId st with
  | Some editing => if (editing =? target)%string then resetForm env st' else st'
  | None => st'
  end.

(** The predicate of [filteredExpenses]'s [filter]. *)
Definition matchesFilters (filters : Filters) (expense : Expense) : bool :=
  let matchesCategory :=
    match Filters.category filters with
    | All => true
    | Only c => Category_eqb (category expense) c
    end in
  let matchesSearch :=
    JS.includes (JS.toLowerCase (description expense))
                (JS.toLowerCase (JS.trim (Filters.search filters))) in
  let afterFrom :=
    if JS.truthy (Filters.from filters)
    then JS.ge (date expense) (Filters.from filters) else true in
  let beforeTo :=
    if JS.truthy (Filters.to filters)
    then JS.le (date expense) (Filters.to filters) else true in
  matchesCategory && matchesSearch && afterFrom && beforeTo.

(** [(a, b) => (a.date < b.date ? 1 : -1)] *)
Definition byDateDescending (a b : Expense) : Z :=
  if JS.lt (date a) (date b) then 1 else -1.

Definition sumAmounts (l : list Expense) : float :=
  fold_left (fun sum expense => (sum + amount expense)%float) l 0%float.

Definition totalsByCategory (expenses : list Expense) : list Total :=
  map (fun c =>
         {| Total.category := c;
            Total.total :=
              sumAmounts (filter (fun expense => Category_eqb (category expense) c)
                                 expenses) |})
      CATEGORIES.

Definition totalSpent (expenses : list Expense) : float := sumAmounts expenses.

Definition monthlySpent (monthKey : string) (expenses : list Expense) : float :=
  sumAmounts (filter (fun expense => String.prefix monthKey (date expense)) expenses).

(** The reducer of [topCategory]:
    [(top, current) => (current.total > (top?.total ?? 0) ? current : top)].
    [top] is never null and its total never undefined, so [top?.total ?? 0]
    is [top.total]; [a > b] is [b < a]. *)
Definition pickLarger (top current : Total) : Total :=
  if (Total.total top <? Total.total current)%float then current else top.

Definition topCategory (totals : list Total) : Total :=
  fold_left pickLarger totals {| Total.category := Food; Total.total := 0%float |}.

Definition dquote : ascii := "034"%char.
Definition newline : string := String "010"%char "".

(** [s.replace(/x/g, by)] for a pattern that is one character. *)
Fixpoint replaceAll (pattern : ascii) (replacement : string) (s : string) : string :=
  match s with
  | EmptyString => EmptyString
  | String c s' =>
      if (c =? pattern)%char
      then (replacement ++ replaceAll pattern replacement s')%string
      else String c (replaceAll pattern replacement s')
  end.

(** The template of [exportCsv]: the cell between two quotes, each quote of
    the cell replaced by the one-quote string the source gives [replace]. *)
Definition csvCell (cell : string) : string :=
  String dquote (replaceAll dquote (String dquote "") cell ++ String dquote "")%string.

Definition csvRow (expense : Expense) : list string :=
  [description expense;
   JS.toFixed (amount expense) 2;
   categoryName (category expense);
   date expense].

Section Engine.
Variable engine : JS.SortEngine.

Definition filteredExpenses (expenses : list Expense) (filters : Filters)
  : list Expense :=
  JS.sort engine byDateDescending (filter (matchesFilters filters) expenses).

(** [exportCsv]: the text handed to the download, [None] when it returns
    without producing any. *)
Definition exportCsv (expenses : list Expense) (filters : Filters)
  : option string :=
  if Nat.eqb (List.length expenses) 0 then None
  else
    let header := ["Description"; "Amount"; "Category"; "Date"] in
    let rows := map csvRow (filteredExpenses expenses filters) in
    Some (JS.join newline
            (map (fun row => JS.join "," (map csvCell row)) (header :: rows))).
End Engine.


(* ================================================================== *)
(** * Text beyond Latin-1 *)
(* ================================================================== *)

(** A [string] above holds code units below 256: text in Basic Latin and
    Latin-1, where [toLowerCase] maps every code unit on its own.  Beyond
    them it does not: a capital sigma becomes one of two small letters
    according to its place in the word.  This module embeds the filter of
    [filteredExpenses] once more, on strings of 16-bit code units. *)

Module Wide.
Local Open Scope N_scope.

(** A string: its UTF-16 code units. *)
Definition text : Type := list N.

Definition ofString (s : string) : text :=
  map N_of_ascii (list_ascii_of_string s).

(** WhiteSpace and LineTerminator: TAB, LF, VT, FF, CR, SP, NBSP, the other
    space separators U+1680, U+2000..U+200A, U+202F, U+205F and U+3000, the
    line and paragraph separators U+2028 and U+2029, and U+FEFF. *)
Definition isWhiteSpace (u : N) : bool :=
  (9 <=? u) && (u <=? 13) || (u =? 32) || (u =? 160) || (u =? 0x1680) ||
  (0x2000 <=? u) && (u <=? 0x200A) || (u =? 0x2028) || (u =? 0x2029) ||
  (u =? 0x202F) || (u =? 0x205F) || (u =? 0x3000) || (u =? 0xFEFF).

Fixpoint trimStart (s : text) : text :=
  match s with
  | [] => []
  | u :: s' => if isWhiteSpace u then trimStart s' else s
  end.

Fixpoint trimEnd (s : text) : text :=
  match s with
  | [] => []
  | u :: s' =>
      match trimEnd s' with
      | [] => if isWhiteSpace u then [] else [u]
      | t => u :: t
      end
  end.

(** [s.trim()] *)
Definition trim (s : text) : text := trimEnd (trimStart s).

Fixpoint startsWith (s t : text) : bool :=
  match t, s with
  | [], _ => true
  | _ :: _, [] => false
  | v :: t', u :: s' => (u =? v) && startsWith s' t'
  end.

(** [s.includes(t)] *)
Fixpoint includes (s t : text) : bool :=
  startsWith s t ||
  match s with
  | [] => false
  | _ :: s' => includes s' t
  end.

Definition truthy (s : text) : bool :=
  match s with
  | [] => false
  | _ :: _ => true
  end.

(** The relational operators compare code units lexicographically. *)
Fixpoint compare (a b : text) : comparison :=
  match a, b with
  | [], [] => Eq
  | [], _ :: _ => Lt
  | _ :: _, [] => Gt
  | u :: a', v :: b' =>
      match u ?= v with
      | Eq => compare a' b'
      | c => c
      end
  end.

Definition lt (a b : text) : bool :=
  match compare a b with Lt => true | _ => false end.
Definition ge (a b : text) : bool := negb (lt a b).
Definition le (a b : text) : bool := negb (lt b a).

(** ** [toLowerCase]

    The result is the lower-case mapping of the Unicode Character Database:
    the lower-case letter of every character, but for a capital sigma, which
    becomes the final small sigma U+03C2 when a cased letter comes before it
    and none after it (Final_Sigma in SpecialCasing.txt), and the small
    sigma U+03C3 otherwise.  The tables are embedded for two repertoires:
    text in Basic Latin and Latin-1, and text made of the Greek letters
    U+0391..U+03A9 and U+03B1..U+03C9.  Every such Greek letter is cased, so
    in a text made of them a capital sigma is final exactly when it is the
    last letter and not the first.  Outside the two repertoires the model
    gives no answer. *)

Definition isLatin1 (u : N) : bool := u <? 256.

(** A..Z, and U+00C0..U+00DE but the multiplication sign U+00D7. *)
Definition isLatin1Capital (u : N) : bool :=
  (65 <=? u) && (u <=? 90) || (192 <=? u) && (u <=? 222) && negb (u =? 215).

Definition lowerLatin1 (u : N) : N :=
  if isLatin1Capital u then u + 32 else u.

Definition capitalSigma : N := 0x3A3.
Definition smallSigma : N := 0x3C3.
Definition finalSigma : N := 0x3C2.

(** U+0391..U+03A9; U+03A2 is not assigned. *)
Definition isGreekCapital (u : N) : bool :=
  (0x391 <=? u) && (u <=? 0x3A9) && negb (u =? 0x3A2).

Definition isGreekLetter (u : N) : bool :=
  isGreekCapital u || (0x3B1 <=? u) && (u <=? 0x3C9).

Fixpoint lowerGreek (afterLetter : bool) (s : text) : text :=
  match s with
  | [] => []
  | u :: rest =>
      (if u =? capitalSigma
       then (if afterLetter && negb (truthy rest) then finalSigma else smallSigma)
       else if isGreekCapital u then u + 32 else u)
      :: lowerGreek true rest
  end.

(** [s.toLowerCase()] *)
Definition toLowerCase (s : text) : option text :=
  if forallb isLatin1 s then Some (map lowerLatin1 s)
  else if forallb isGreekLetter s then Some (lowerGreek false s)
  else None.

(** ** The records and the filter *)

Record Expense : Type := {
  id : text;
  description : text;
  amount : float;
  category : Category;
  date : text;
  createdAt : float
}.

Module Filters.
Record Filters : Type := {
  search : text;
  category : CategoryFilter;
  from : text;
  to : text
}.
End Filters.
Abbreviation Filters := Filters.Filters.

(** The callback of [filteredExpenses]'s [filter]; it lower-cases the
    description and the search text of every record it is called on. *)
Definition matchesFilters (filters : Filters) (expense : Expense) : option bool :=
  let matchesCategory :=
    match Filters.category filters with
    | All => true
    | Only c => Category_eqb (category expense) c
    end in
  match toLowerCase (description expense),
        toLowerCase (trim (Filters.search filters)) with
  | Some lowered, Some wanted =>
      let matchesSearch := includes lowered wanted in
      let afterFrom :=
        if truthy (Filters.from filters)
        then ge (date expense) (Filters.from filters) else true in
      let beforeTo :=
        if truthy (Filters.to filters)
        then le (date expense) (Filters.to filters) else true in
      Some (matchesCategory && matchesSearch && afterFrom && beforeTo)
  | _, _ => None
  end.

(** [expenses.filter(callback)] *)
Fixpoint kept (filters : Filters) (expenses : list Expense)
  : option (list Expense) :=
  match expenses with
  | [] => Some []
  | expense :: rest =>
      match matchesFilters filters expense, kept filters rest with
      | Some true, Some others => Some (expense :: others)
      | Some false, Some others => Some others
      | _, _ => None
      end
  end.

Definition byDateDescending (a b : Expense) : Z :=
  if lt (date a) (date b) then 1%Z else (-1)%Z.

Definition filteredExpenses (engine : JS.SortEngine) (expenses : list Expense)
           (filters : Filters) : option (list Expense) :=
  option_map (JS.sort engine byDateDescending) (kept filters expenses).

(** ** The vocabulary of the specification, on such text *)

(** Text in Basic Latin and Latin-1. *)
Definition Latin1 (s : text) : Prop := Forall (fun u => u < 256) s.

Definition Blank (s : text) : Prop := Forall (fun u => isWhiteSpace u = true) s.

(** [v] is the small letter of the capital [u].  The capitals are A to Z,
    A with grave to O with diaeresis, O with stroke to thorn, alpha to rho
    and sigma to omega; the small letter of each is 32 code units further,
    and the capital sigma has the final sigma too. *)
Definition smallOf (u v : N) : Prop :=
  (65 <= u <= 90 \/ 192 <= u <= 214 \/ 216 <= u <= 222 \/
   913 <= u <= 929 \/ 931 <= u <= 937) /\ v = u + 32 \/
  u = 931 /\ v = 962.

(** The same letter, in the same case or not. *)
Definition sameLetter (u v : N) : Prop := u = v \/ smallOf u v \/ smallOf v u.

(** Equal when compared case-insensitively: letter by letter. *)
Definition sameIgnoringCase (a b : text) : Prop := Forall2 sameLetter a b.

Definition containsIgnoringCase (s needle : text) : Prop :=
  exists pre mid post, s = pre ++ mid ++ post /\ sameIgnoringCase mid needle.

Definition dateLe (a b : text) : Prop := compare a b <> Gt.

(** The four conditions under which [filtered] keeps a record. *)
Definition Keeps (filters : Filters) (r : Expense) : Prop :=
  (Filters.category filters = All \/
   Filters.category filters = Only (category r)) /\
  containsIgnoringCase (description r) (trim (Filters.search filters)) /\
  (Filters.from filters <> [] -> dateLe (Filters.from filters) (date r)) /\
  (Filters.to filters <> [] -> dateLe (date r) (Filters.to filters)).

End Wide.

(** A record and a filter of the component as wide text. *)
Definition wideExpense (r : Expense) : Wide.Expense :=
  {| Wide.id := Wide.ofString (id r);
     Wide.description := Wide.ofString (description r);
     Wide.amount := amount r;
     Wide.category := category r;
     Wide.date := Wide.ofString (date r);
     Wide.createdAt := createdAt r |}.

Definition wideFilters (filters : Filters) : Wide.Filters :=
  {| Wide.Filters.search := Wide.ofString (Filters.search filters);
     Wide.Filters.category := Filters.category filters;
     Wide.Filters.from := Wide.ofString (Filters.from filters);
     Wide.Filters.to := Wide.ofString (Filters.to filters) |}.



(* ================================================================== *)
(** * The vocabulary of the specification *)
(* ================================================================== *)

Module Spec.

(** Blank after trimming: nothing but white space. *)
Definition Blank (s : string) : Prop :=
  forall c, In c (list_ascii_of_string s) -> JS.isWhiteSpace c = true.

(** The three validation failures are the messages [validateForm] returns. *)
Definition EmptyDescription : string := "Add a description".
Definition MissingDate : string := "Pick a date".
Definition InvalidAmount : string := "Enter a valid amount".

(** Equal when compared case-insensitively. *)
Definition sameIgnoringCase (a b : string) : Prop :=
  JS.toLowerCase a = JS.toLowerCase b.

(** [text] contains [needle], compared case-insensitively. *)
Definition containsIgnoringCase (text needle : string) : Prop :=
  exists pre mid post,
    text = (pre ++ mid ++ post)%string /\ sameIgnoringCase mid needle.

(** Dates are compared as strings, code unit by code unit. *)
Definition dateLe (a b : string) : Prop := String.compare a b <> Gt.

(** The four conditions under which [filtered] keeps a record. *)
Definition Keeps (filters : Filters) (r : Expense) : Prop :=
  (Filters.category filters = All \/
   Filters.category filters = Only (category r)) /\
  containsIgnoringCase (description r) (JS.trim (Filters.search filters)) /\
  (Filters.from filters <> "" -> dateLe (Filters.from filters) (date r)) /\
  (Filters.to filters <> "" -> dateLe (date r) (Filters.to filters)).

(** Newest first: no record is followed by one of a later date. *)
Definition newestFirst (a b : Expense) : Prop := dateLe (date b) (date a).

(** A CSV field: the text between two double quotes. *)
Definition quoted (s : string) : string :=
  String dquote (s ++ String dquote "")%string.

Definition csvHeader : string :=
  (quoted "Description" ++ "," ++ quoted "Amount" ++ "," ++
   quoted "Category" ++ "," ++ quoted "Date")%string.

Definition csvLine (r : Expense) : string :=
  (quoted (description r) ++ "," ++ quoted (JS.toFixed (amount r) 2) ++ "," ++
   quoted (categoryName (category r)) ++ "," ++ quoted (date r))%string.

(** The header, then each record on a line of its own. *)
Fixpoint csvText (rows : list Expense) : string :=
  match rows with
  | [] => ""
  | r :: rows' => (newline ++ csvLine r ++ csvText rows')%string
  end.

Definition quoteFree (s : string) : Prop :=
  ~ In dquote (list_ascii_of_string s).

Definition allDigits (s : string) : Prop :=
  forall c, In c (list_ascii_of_string s) -> JS.isDigit c = true.

(** An optional minus sign, one or more digits, a point, two digits. *)
Definition TwoDecimals (s : string) : Prop :=
  exists sign whole fraction,
    s = (sign ++ whole ++ "." ++ fraction)%string /\
    (sign = "" \/ sign = "-") /\
    whole <> "" /\ allDigits whole /\
    String.length fraction = 2%nat /\ allDigits fraction.

(** A finite number of magnitude below 10^21, where [toFixed] still
    prints digits and not an exponent. *)
Definition fixedRange (x : float) : bool :=
  match Prim2SF x with
  | S754_zero _ => true
  | S754_finite _ m e =>
      let '(num, den) := JS.exactValue m e in num <? 10 ^ 21 * den
  | _ => false
  end.

(** The totals of a list of entries, added up in the order of the list. *)
Definition sumTotals (totals : list Total) : float :=
  fold_left (fun sum t => (sum + Total.total t)%float) totals 0%float.

(** The records of one category. *)
Definition ofCategory (c : Category) (expenses : list Expense) : list Expense :=
  filter (fun r => Category_eqb (category r) c) expenses.

(** The value of a finite Number counted in units of 2^-1074, the least
    positive Number: every finite Number is a whole number of them. *)
Definition units (x : float) : option Z :=
  match Prim2SF x with
  | S754_zero _ => Some 0
  | S754_finite s m e => Some (cond_Zopp s (Zpos m) * 2 ^ (e + 1074))
  | _ => None
  end.

(** The sum of finite Numbers as a mathematical value, in the same units. *)
Fixpoint exactSum (l : list float) : option Z :=
  match l with
  | [] => Some 0
  | x :: l' =>
      match units x, exactSum l' with
      | Some a, Some b => Some (a + b)
      | _, _ => None
      end
  end.

(** The Number [x] that the additions of [l] gave is the sum of [l]
    exactly: it is finite and no rounding has moved it away from the
    mathematical sum. *)
Definition Exact (x : float) (l : list float) : Prop :=
  exists n, exactSum l = Some n /\ units x = Some n.

(** [x] is a whole number, not negative, of parts of 2^-k: of ones for
    k = 0, of halves for k = 1, of quarters for k = 2. *)
Definition Whole (k : Z) (x : float) : Prop :=
  exists n, 0 <= n /\ units x = Some (n * 2 ^ (1074 - k)).

(** The Numbers of [l] are whole numbers of parts of 2^-k, and their total
    is below 2^53 parts. *)
Definition WholeParts (k : Z) (l : list float) : Prop :=
  0 <= k <= 1022 /\
  (forall x, In x l -> Whole k x) /\
  exists total, exactSum l = Some total /\ total < 2 ^ 53 * 2 ^ (1074 - k).

(** The invariants of a record that a value of type [Expense] does not
    already have by its type: a positive amount and a description that is
    not empty and carries no white space around it. *)
Definition Trimmed (s : string) : Prop := JS.trim s = s.

Definition WellFormed (r : Expense) : Prop :=
  (0 <? amount r)%float = true /\ description r <> "" /\ Trimmed (description r).

Definition UniqueIds (expenses : list Expense) : Prop :=
  NoDup (map id expenses).

End Spec.

(** ** The order of binary64 values

    [x <= y] and [x < y] on Numbers that are not NaN are the lexicographic
    order of a key: the class with its sign, then exponent and mantissa,
    negated for a negative number. *)

Definition SFkey (x : spec_float) : Z * Z * Z :=
  match x with
  | S754_nan | S754_zero _ => (0, 0, 0)
  | S754_infinity false => (2, 0, 0)
  | S754_infinity true => (-2, 0, 0)
  | S754_finite false m e => (1, e, Zpos m)
  | S754_finite true m e => (-1, - e, Zneg m)
  end.

Definition keyLe (a b : Z * Z * Z) : Prop :=
  let '(a1, a2, a3) := a in
  let '(b1, b2, b3) := b in
  a1 < b1 \/ (a1 = b1 /\ (a2 < b2 \/ (a2 = b2 /\ a3 <= b3))).

Definition keyLt (a b : Z * Z * Z) : Prop :=
  let '(a1, a2, a3) := a in
  let '(b1, b2, b3) := b in
  a1 < b1 \/ (a1 = b1 /\ (a2 < b2 \/ (a2 = b2 /\ a3 < b3))).

Definition key (x : float) : Z * Z * Z := SFkey (Prim2SF x).

Definition notNaN (x : float) : Prop := Prim2SF x <> S754_nan.

(** [0 <= x]: what the data model asks of an amount, and more than it asks
    (an amount is positive). *)
Definition nonNegative (x : float) : Prop := (0 <=? x)%float = true.

(** The Numbers the additions of amounts run through: not negative, and
    not the negative zero. *)
Definition plain (x : float) : Prop :=
  nonNegative x /\ Prim2SF x <> S754_zero true.

(** ** The example collection of the specification *)

Definition noFilters : Filters :=
  {| Filters.search := ""; Filters.category := All;
     Filters.from := ""; Filters.to := "" |}.

Definition coffee : Expense :=
  {| id := "c0ffee"; description := "Coffee"; amount := 4.5%float;
     category := Food; date := "2024-01-05"; createdAt := 1704448800000%float |}.

Definition bus : Expense :=
  {| id := "b05"; description := "Bus"; amount := 2.75%float;
     category := Transportation; date := "2024-01-06";
     createdAt := 1704535200000%float |}.

(** A search that matches neither record. *)
Definition taxiOnly : Filters :=
  {| Filters.search := "taxi"; Filters.category := All;
     Filters.from := ""; Filters.to := "" |}.

(** The text the specification quotes for the export of the example. *)
Definition specExport : string :=
  ("Description,Amount,Category,Date" ++ newline ++
   Spec.quoted "Bus" ++ "," ++ Spec.quoted "2.75" ++ "," ++
   Spec.quoted "Transportation" ++ "," ++ Spec.quoted "2024-01-06" ++ newline ++
   Spec.quoted "Coffee" ++ "," ++ Spec.quoted "4.50" ++ "," ++
   Spec.quoted "Food" ++ "," ++ Spec.quoted "2024-01-05")%string.

(** Three amounts whose sum depends on the order of the additions. *)
Definition tram : Expense :=
  {| id := "t1"; description := "Tram"; amount := 0.1%float;
     category := Transportation; date := "2024-02-01"; createdAt := 1%float |}.

Definition bread : Expense :=
  {| id := "f1"; description := "Bread"; amount := 0.2%float;
     category := Food; date := "2024-02-01"; createdAt := 2%float |}.

Definition milk : Expense :=
  {| id := "f2"; description := "Milk"; amount := 0.3%float;
     category := Food; date := "2024-02-02"; createdAt := 3%float |}.

(** Two expenses of the same day; [dinner] was added after [lunch], so it
    comes first in the collection. *)
Definition lunch : Expense :=
  {| id := "l1"; description := "Lunch"; amount := 12.5%float;
     category := Food; date := "2024-03-01"; createdAt := 1709294400000%float |}.

Definition dinner : Expense :=
  {| id := "d1"; description := "Dinner"; amount := 30%float;
     category := Food; date := "2024-03-01"; createdAt := 1709319600000%float |}.

Definition env0 : Env :=
  {| randomUUID := "3b241101-e2bb-4255-8caf-4136c566a962";
     now := 1704621600000%float;
     today := "2024-01-07" |}.

Definition idle : Status := {| type := None; message := None |}.

(** The user edits the bus fare: the draft of the form while [bus] is being
    edited, with spaces typed around the description. *)
Definition busDraft : FormState :=
  {| Form.description := "  Bus fare ";
     Form.amount := "3.10";
     Form.category := Transportation;
     Form.date := "2024-01-07" |}.

Definition editingBus : State :=
  {| expenses := [coffee; bus]; form := busDraft; filters := noFilters;
     editingId := Some "b05"; status := idle |}.

(** The same draft submitted as a new expense. *)
Definition addingBus : State :=
  {| expenses := [coffee; bus]; form := busDraft; filters := noFilters;
     editingId := None; status := idle |}.

(* ================================================================== *)
(** * app: the other handlers and derived values of the component *)
(* ================================================================== *)

(** [handleChange(field, value)], one constructor per input of the form: the
    text inputs give any string, the category select one of its options. *)
Inductive FormChange : Type :=
  | ChangeDescription (value : string)
  | ChangeAmount (value : string)
  | ChangeCategory (value : Category)
  | ChangeDate (value : string).

Definition handleChange (change : FormChange) (st : State) : State :=
  let prev := form st in
  {| expenses := expenses st;
     form :=
       match change with
       | ChangeDescription value =>
           {| Form.description := value; Form.amount := Form.amount prev;
              Form.category := Form.category prev; Form.date := Form.date prev |}
       | ChangeAmount value =>
           {| Form.description := Form.description prev; Form.amount := value;
              Form.category := Form.category prev; Form.date := Form.date prev |}
       | ChangeCategory value =>
           {| Form.description := Form.description prev;
              Form.amount := Form.amount prev;
              Form.category := value; Form.date := Form.date prev |}
       | ChangeDate value =>
           {| Form.description := Form.description prev;
              Form.amount := Form.amount prev;
              Form.category := Form.category prev; Form.date := value |}
       end;
     filters := filters st;
     editingId := editingId st;
     status := status st |}.

(** [handleFilterChange(field, value)], one constructor per input of the
    filter panel; the category select offers "All" and the categories. *)
Inductive FiltersChange : Type :=
  | ChangeSearch (value : string)
  | ChangeFilterCategory (value : CategoryFilter)
  | ChangeFrom (value : string)
  | ChangeTo (value : string).

Definition handleFilterChange (change : FiltersChange) (st : State) : State :=
  let prev := filters st in
  {| expenses := expenses st;
     form := form st;
     filters :=
       match change with
       | ChangeSearch value =>
           {| Filters.search := value; Filters.category := Filters.category prev;
              Filters.from := Filters.from prev; Filters.to := Filters.to prev |}
       | ChangeFilterCategory value =>
           {| Filters.search := Filters.search prev; Filters.category := value;
              Filters.from := Filters.from prev; Filters.to := Filters.to prev |}
       | ChangeFrom value =>
           {| Filters.search := Filters.search prev;
              Filters.category := Filters.category prev;
              Filters.from := value; Filters.to := Filters.to prev |}
       | ChangeTo value =>
           {| Filters.search := Filters.search prev;
              Filters.category := Filters.category prev;
              Filters.from := Filters.from prev; Filters.to := value |}
       end;
     editingId := editingId st;
     status := status st |}.

(** The "Clear all" button:
    [setFilters({ search: "", category: "All", from: "", to: "" })], which is
    also the value the filters start with. *)
Definition clearFilters (st : State) : State :=
  {| expenses := expenses st;
     form := form st;
     filters := {| Filters.search := ""; Filters.category := All;
                   Filters.from := ""; Filters.to := "" |};
     editingId := editingId st;
     status := status st |}.

(** The state of the component when it mounts, before anything is loaded. *)
Definition initialState (env : Env) : State :=
  {| expenses := [];
     form := initialForm env;
     filters := {| Filters.search := ""; Filters.category := All;
                   Filters.from := ""; Filters.to := "" |};
     editingId := None;
     status := {| type := None; message := None |} |}.

(** [const totalFiltered = filteredExpenses.length] *)
Definition totalFiltered (engine : JS.SortEngine) (expenses : list Expense)
           (filters : Filters) : nat :=
  List.length (filteredExpenses engine expenses filters).

(** Truthiness of a number: every number but +0, -0 and NaN. *)
Definition truthyNumber (x : float) : bool :=
  negb ((x =? 0)%float || JS.isNaN x).

(** The value of the "Top category" card:
    [topCategory.total ? `${topCategory.category}` : "-"]. *)
Definition topCategoryValue (expenses : list Expense) : string :=
  let top := topCategory (totalsByCategory expenses) in
  if truthyNumber (Total.total top) then categoryName (Total.category top) else "-".

(** What the user can do: the events the component has handlers for. *)
Inductive Event : Type :=
  | Submit (env : Env)
  | Edit (expense : Expense)
  | Delete (env : Env) (target : string)
  | CancelEdit (env : Env)
  | ChangeForm (change : FormChange)
  | ChangeFilters (change : FiltersChange)
  | ClearFilters.

Definition handle (ev : Event) (st : State) : State :=
  match ev with
  | Submit env => handleSubmit env st
  | Edit expense => handleEdit expense st
  | Delete env target => handleDelete env target st
  | CancelEdit env => resetForm env st
  | ChangeForm change => handleChange change st
  | ChangeFilters change => handleFilterChange change st
  | ClearFilters => clearFilters st
  end.

Definition run (events : list Event) (st : State) : State :=
  fold_left (fun st ev => handle ev st) events st.

(** ** Vocabulary for the properties of these *)

(** What validation lets into the collection: a positive amount, a
    description that is not blank, a date. *)
Definition Entered (r : Expense) : Prop :=
  (0 <? amount r)%float = true /\ ~ Spec.Blank (description r) /\ date r <> "".

(** The record being edited, if any, is in the collection. *)
Definition EditingPresent (st : State) : Prop :=
  match editingId st with
  | Some editing => In editing (map id (expenses st))
  | None => True
  end.

(** The page offers this event in this state: the edit button is on the row
    of a record of the collection, and a submit outside edit mode, which
    draws an id, draws one that no record has. *)
Definition Offered (ev : Event) (st : State) : Prop :=
  match ev with
  | Edit expense => In expense (expenses st)
  | Submit env =>
      truthyOrNull (editingId st) = false ->
      ~ In (randomUUID env) (map id (expenses st))
  | _ => True
  end.

Fixpoint OfferedAll (events : list Event) (st : State) : Prop :=
  match events with
  | [] => True
  | ev :: rest => Offered ev st /\ OfferedAll rest (handle ev st)
  end.

(** A valid draft for a new expense, and the environment of its submit. *)
Definition teaDraft : FormState :=
  {| Form.description := " Green tea "; Form.amount := "3.20";
     Form.category := Food; Form.date := "2024-01-07" |}.

Definition addingTea : State :=
  {| expenses := [coffee; bus]; form := teaDraft; filters := noFilters;
     editingId := None; status := idle |}.

Definition foodIn2024 : Filters :=
  {| Filters.search := " co"; Filters.category := Only Food;
     Filters.from := "2024-01-01"; Filters.to := "2024-12-31" |}.

(* ================================================================== *)
(** * Strings *)
(* ================================================================== *)

Section StringFacts.

Lemma truthy_iff (s : string) : JS.truthy s = true <-> s <> "".
Proof. destruct s; simpl; split; congruence. Qed.

Lemma truthy_false_iff (s : string) : JS.truthy s = false <-> s = "".
Proof. destruct s; simpl; split; congruence. Qed.

Lemma append_empty_r (s : string) : (s ++ "")%string = s.
Proof. induction s; simpl; congruence. Qed.

Lemma append_assoc (a b c : string) :
  ((a ++ b) ++ c)%string = (a ++ b ++ c)%string.
Proof. induction a; simpl; congruence. Qed.

Lemma prefix_iff (t s : string) :
  String.prefix t s = true <-> exists post, s = (t ++ post)%string.
Proof.
  revert s; induction t as [|c t IH]; intros s.
  - destruct s; simpl; split; eauto.
  - destruct s as [|d s]; simpl.
    + split; [discriminate | intros [post H]; discriminate].
    + destruct (ascii_dec c d) as [->|Hcd].
      * split.
        -- intros H. apply IH in H as [post ->]. now exists post.
        -- intros [post H]. apply IH. exists post. congruence.
      * split; [discriminate | intros [post H]; congruence].
Qed.

Lemma includes_iff (s t : string) :
  JS.includes s t = true <-> exists pre post, s = (pre ++ t ++ post)%string.
Proof.
  induction s as [|c s IH]; cbn [JS.includes].
  - rewrite orb_false_r, prefix_iff. split.
    + intros [post H]. exists "", post. exact H.
    + intros [pre [post H]]. destruct pre; [eauto | discriminate].
  - rewrite orb_true_iff, prefix_iff, IH. split.
    + intros [[post H] | [pre [post H]]].
      * exists "", post. exact H.
      * exists (String c pre), post. simpl. congruence.
    + intros [pre [post H]]. destruct pre as [|d pre]; simpl in H.
      * left; eauto.
      * right. exists pre, post. congruence.
Qed.

Lemma toLowerCase_app (a b : string) :
  JS.toLowerCase (a ++ b) = (JS.toLowerCase a ++ JS.toLowerCase b)%string.
Proof. induction a; simpl; congruence. Qed.

Lemma toLowerCase_split (s a b : string) :
  JS.toLowerCase s = (a ++ b)%string ->
  exists a' b', s = (a' ++ b')%string /\
                JS.toLowerCase a' = a /\ JS.toLowerCase b' = b.
Proof.
  revert s; induction a as [|c a IH]; intros s H.
  - exists "", s. auto.
  - destruct s as [|d s]; [discriminate|]. simpl in H.
    injection H as Hc Hs. destruct (IH _ Hs) as (a' & b' & -> & Ha & Hb).
    exists (String d a'), b'. simpl. repeat split; congruence.
Qed.

Lemma isLatin1Capital_iff (u : N) :
  Wide.isLatin1Capital u = true <->
  (65 <= u <= 90 \/ 192 <= u <= 222 /\ u <> 215)%N.
Proof.
  unfold Wide.isLatin1Capital.
  rewrite orb_true_iff, !andb_true_iff, negb_true_iff, !N.leb_le, N.eqb_neq.
  tauto.
Qed.


Lemma lowerChar_code (c : ascii) :
  N_of_ascii (JS.lowerChar c) = Wide.lowerLatin1 (N_of_ascii c).
Proof.
  unfold JS.lowerChar, Wide.lowerLatin1.
  change ((65 <=? N_of_ascii c) && (N_of_ascii c <=? 90)
          || (192 <=? N_of_ascii c) && (N_of_ascii c <=? 222)
             && negb (N_of_ascii c =? 215))%N
    with (Wide.isLatin1Capital (N_of_ascii c)).
  pose proof (N_ascii_bounded c) as Hc.
  destruct (Wide.isLatin1Capital (N_of_ascii c)) eqn:C; [|reflexivity].
  apply isLatin1Capital_iff in C.
  apply N_ascii_embedding. lia.
Qed.

(** [includes] on the two lower-cased strings is containment up to case. *)
Lemma includes_toLowerCase_iff (text needle : string) :
  JS.includes (JS.toLowerCase text) (JS.toLowerCase needle) = true <->
  Spec.containsIgnoringCase text needle.
Proof.
  rewrite includes_iff. unfold Spec.containsIgnoringCase, Spec.sameIgnoringCase.
  split.
  - intros (pre & post & H).
    apply toLowerCase_split in H as (pre' & rest & -> & Hpre & H).
    apply toLowerCase_split in H as (mid & post' & -> & Hmid & Hpost).
    exists pre', mid, post'. auto.
  - intros (pre & mid & post & -> & Hmid).
    exists (JS.toLowerCase pre), (JS.toLowerCase post).
    now rewrite !toLowerCase_app, Hmid.
Qed.

Lemma containsIgnoringCase_empty (text : string) :
  Spec.containsIgnoringCase text "".
Proof. exists "", "", text. split; reflexivity. Qed.

Lemma ge_iff (a b : string) : JS.ge a b = true <-> Spec.dateLe b a.
Proof.
  unfold JS.ge, JS.lt, String.ltb, Spec.dateLe.
  rewrite (String.compare_antisym b a).
  destruct (String.compare a b); simpl; split; congruence.
Qed.

Lemma le_iff (a b : string) : JS.le a b = true <-> Spec.dateLe a b.
Proof.
  unfold JS.le, JS.lt, String.ltb, Spec.dateLe.
  rewrite (String.compare_antisym a b).
  destruct (String.compare b a); simpl; split; congruence.
Qed.

Lemma Category_eqb_eq (a b : Category) : Category_eqb a b = true <-> a = b.
Proof. destruct a, b; simpl; split; congruence. Qed.

End StringFacts.

(* ================================================================== *)
(** * Sorting: both engines are lawful *)
(* ================================================================== *)

Section SortedLists.
Context {A : Type} (R : A -> A -> Prop).

Lemma StronglySorted_app_iff (l1 l2 : list A) :
  StronglySorted R (l1 ++ l2) <->
  StronglySorted R l1 /\ StronglySorted R l2 /\
  Forall (fun x => Forall (R x) l2) l1.
Proof.
  induction l1 as [|a l1 IH]; simpl.
  - split; [intros H; repeat split; auto; constructor | intros (_ & H & _); exact H].
  - split.
    + intros H. apply StronglySorted_inv in H as [Hs Hf].
      apply IH in Hs as (H1 & H2 & H12).
      apply Forall_app in Hf as [Hf1 Hf2].
      repeat split; auto; constructor; auto.
    + intros (H1 & H2 & H12).
      apply StronglySorted_inv in H1 as [Hs Hf].
      inversion H12; subst.
      constructor; [apply IH; auto | apply Forall_app; auto].
Qed.

Lemma StronglySorted_rev (l : list A) :
  StronglySorted (fun x y => R y x) l -> StronglySorted R (rev l).
Proof.
  induction 1 as [|a l Hs IH Hf]; simpl; [constructor|].
  apply StronglySorted_app_iff. repeat split; auto.
  - repeat constructor.
  - apply Forall_rev. revert Hf. apply Forall_impl. intros x Hx. repeat constructor. exact Hx.
Qed.

Lemma StronglySorted_firstn (n : nat) (l : list A) :
  StronglySorted R l -> StronglySorted R (firstn n l).
Proof.
  intros H. rewrite <- (firstn_skipn n l) in H.
  now apply StronglySorted_app_iff in H.
Qed.

Lemma StronglySorted_skipn (n : nat) (l : list A) :
  StronglySorted R l -> StronglySorted R (skipn n l).
Proof.
  intros H. rewrite <- (firstn_skipn n l) in H.
  now apply StronglySorted_app_iff in H.
Qed.
End SortedLists.

Section InsertionLawful.
Context {A : Type} (cmp : A -> A -> Z) (R : A -> A -> Prop).
Hypothesis R_trans : Transitive R.
Hypothesis R_agrees : JS.Compatible cmp R.

Lemma insertItem_perm (item : A) (l : list A) :
  Permutation (item :: l) (JS.insertItem cmp item l).
Proof.
  induction l as [|swap l IH]; simpl; [reflexivity|].
  destruct (cmp swap item <=? 0); [reflexivity|].
  rewrite perm_swap. now constructor.
Qed.

Lemma insertItem_sorted (item : A) (l : list A) :
  StronglySorted (fun x y => R y x) l ->
  StronglySorted (fun x y => R y x) (JS.insertItem cmp item l).
Proof.
  induction 1 as [|swap l Hs IH Hf]; simpl; [repeat constructor|].
  destruct (R_agrees swap item) as (Hlt & Heq & Hgt).
  destruct (Z.leb_spec (cmp swap item) 0) as [Hle|Hpos].
  - assert (Hsi : R swap item).
    { destruct (Z.eq_dec (cmp swap item) 0) as [E|E]; [apply Heq, E | apply Hlt; lia]. }
    constructor; [constructor; auto|].
    constructor; [exact Hsi|].
    revert Hf. apply Forall_impl. intros x Hx. now transitivity swap.
  - constructor; [exact IH|].
    eapply Permutation_Forall; [apply insertItem_perm|].
    constructor; auto.
Qed.

Lemma insertion_fold_perm (l acc : list A) :
  Permutation (l ++ acc)
    (fold_left (fun sortedRev item => JS.insertItem cmp item sortedRev) l acc).
Proof.
  revert acc; induction l as [|a l IH]; intros acc; simpl; [reflexivity|].
  rewrite <- IH. rewrite <- insertItem_perm. apply Permutation_middle.
Qed.

Lemma insertion_fold_sorted (l acc : list A) :
  StronglySorted (fun x y => R y x) acc ->
  StronglySorted (fun x y => R y x)
    (fold_left (fun sortedRev item => JS.insertItem cmp item sortedRev) l acc).
Proof.
  revert acc; induction l as [|a l IH]; intros acc H; simpl; auto using insertItem_sorted.
Qed.
End InsertionLawful.

Lemma Insertion_lawful : JS.LawfulSort JS.Insertion.
Proof.
  intros A cmp l. simpl. unfold JS.insertion_sort. split.
  - rewrite <- Permutation_rev, <- insertion_fold_perm, app_nil_r. reflexivity.
  - intros R HT HC. apply StronglySorted_rev.
    apply insertion_fold_sorted; auto. constructor.
Qed.

Section V8Lawful.
Context {A : Type} (cmp : A -> A -> Z) (R : A -> A -> Prop).
Hypothesis R_trans : Transitive R.
Hypothesis R_agrees : JS.Compatible cmp R.

Lemma answer_negative (x y : A) : cmp x y < 0 -> R x y.
Proof. intros H. destruct (R_agrees x y) as (Hlt & _). now apply Hlt. Qed.

Lemma answer_not_negative (x y : A) : 0 <= cmp x y -> R y x.
Proof.
  intros H. destruct (R_agrees x y) as (_ & Heq & Hgt).
  destruct (Z.eq_dec (cmp x y) 0) as [E|E]; [apply Heq, E | apply Hgt; lia].
Qed.

Lemma extendRun_le (d : bool) (rest : list A) :
  forall previous, (JS.extendRun cmp d previous rest <= List.length rest)%nat.
Proof.
  induction rest as [|current rest IH]; intros previous; simpl; [lia|].
  destruct (if d then _ else _); [lia|]. specialize (IH current). lia.
Qed.

Lemma extendRun_ascending (rest : list A) :
  forall previous,
    Sorted R (previous :: firstn (JS.extendRun cmp false previous rest) rest).
Proof.
  induction rest as [|current rest IH]; intros previous; simpl.
  - repeat constructor.
  - destruct (Z.ltb_spec (cmp current previous) 0) as [Hneg|Hpos]; simpl.
    + repeat constructor.
    + constructor; [apply IH|]. constructor. now apply answer_not_negative.
Qed.

Lemma extendRun_descending (rest : list A) :
  forall previous,
    Sorted (fun x y => R y x)
           (previous :: firstn (JS.extendRun cmp true previous rest) rest).
Proof.
  induction rest as [|current rest IH]; intros previous; simpl.
  - repeat constructor.
  - destruct (Z.leb_spec 0 (cmp current previous)) as [Hpos|Hneg]; simpl.
    + repeat constructor.
    + constructor; [apply IH|]. constructor. now apply answer_negative.
Qed.

Lemma countAndMakeRun_spec (l work : list A) (n : nat) :
  JS.countAndMakeRun cmp l = (work, n) ->
  Permutation l work /\ StronglySorted R (firstn n work).
Proof.
  destruct l as [|hi [|lo rest]]; cbn [JS.countAndMakeRun].
  - intros [= <- <-]. split; [reflexivity | constructor].
  - intros [= <- <-]. split; [reflexivity | repeat constructor].
  - destruct (Z.ltb_spec (cmp lo hi) 0) as [Hneg|Hpos]; intros [= <- <-].
    + set (k := JS.extendRun cmp true lo rest).
      assert (Hk : (k <= List.length rest)%nat) by apply extendRun_le.
      assert (Hrun : StronglySorted (fun x y => R y x) (hi :: lo :: firstn k rest)).
      { apply Sorted_StronglySorted.
        - intros x y z Hxy Hyz. now transitivity y.
        - constructor; [apply extendRun_descending|].
          constructor. now apply answer_negative. }
      change (firstn (2 + k) (hi :: lo :: rest)) with (hi :: lo :: firstn k rest).
      change (skipn (2 + k) (hi :: lo :: rest)) with (skipn k rest).
      assert (Hlen : List.length (rev (hi :: lo :: firstn k rest)) = (2 + k)%nat).
      { rewrite length_rev. simpl. rewrite length_firstn. lia. }
      split.
      * transitivity ((hi :: lo :: firstn k rest) ++ skipn k rest).
        -- simpl. now rewrite firstn_skipn.
        -- apply Permutation_app_tail, Permutation_rev.
      * change (StronglySorted R
                  (firstn (2 + k) (rev (hi :: lo :: firstn k rest) ++ skipn k rest))).
        rewrite firstn_app, Hlen, Nat.sub_diag, firstn_all2 by lia.
        rewrite firstn_O, app_nil_r. now apply StronglySorted_rev.
    + split; [reflexivity|].
      change (firstn (2 + JS.extendRun cmp false lo rest) (hi :: lo :: rest))
        with (hi :: lo :: firstn (JS.extendRun cmp false lo rest) rest).
      apply Sorted_StronglySorted; [exact R_trans|].
      constructor; [apply extendRun_ascending|].
      constructor. now apply answer_not_negative.
Qed.

Lemma searchPivot_spec (sorted : list A) (pivot : A) :
  StronglySorted R sorted ->
  forall fuel left right,
    (right - left <= fuel)%nat ->
    (left <= right <= List.length sorted)%nat ->
    Forall (fun x => R x pivot) (firstn left sorted) ->
    Forall (R pivot) (skipn right sorted) ->
    let p := JS.searchPivot cmp fuel sorted pivot left right in
    Forall (fun x => R x pivot) (firstn p sorted) /\
    Forall (R pivot) (skipn p sorted).
Proof.
  intros Hs. induction fuel as [|fuel IH]; intros left right Hfuel Hlr Hl Hr; simpl.
  - replace left with right at 2 by lia. auto.
  - destruct (Nat.ltb_spec left right) as [Hlt|Hge];
      [|replace left with right at 2 by lia; auto].
    assert (Hhalf : (Nat.div2 (right - left) < right - left)%nat)
      by (apply Nat.lt_div2; lia).
    remember (Nat.div2 (right - left)) as half eqn:Hhalf_def.
    remember (left + half)%nat as mid eqn:Hm.
    destruct (nth_error sorted mid) as [element|] eqn:Hmid;
      [|apply nth_error_None in Hmid; lia].
    assert (Hml : (mid < List.length sorted)%nat)
      by (apply nth_error_Some; congruence).
    destruct (nth_error_split _ _ Hmid) as (l1 & l2 & Hsplit & Hlen).
    assert (Hfirst : firstn mid sorted = l1).
    { rewrite Hsplit, firstn_app, firstn_all2 by lia.
      replace (mid - List.length l1)%nat with O by lia. apply app_nil_r. }
    assert (Hskip : skipn (S mid) sorted = l2).
    { rewrite Hsplit, skipn_app, skipn_all2 by lia.
      replace (S mid - List.length l1)%nat with 1%nat by lia. reflexivity. }
    assert (Hsorted := Hs). rewrite Hsplit in Hsorted.
    apply StronglySorted_app_iff in Hsorted as (_ & H2 & H12).
    apply StronglySorted_inv in H2 as [_ Hafter].
    destruct (Z.ltb_spec (cmp pivot element) 0) as [Hneg|Hpos].
    + apply IH; auto; try lia.
      rewrite Hsplit, skipn_app, skipn_all2 by lia.
      replace (mid - List.length l1)%nat with O by lia. simpl.
      assert (Hpe : R pivot element) by now apply answer_negative.
      constructor; [exact Hpe|].
      revert Hafter. apply Forall_impl. intros x Hx. now transitivity element.
    + apply IH; auto; try lia.
      assert (Hep : R element pivot) by now apply answer_not_negative.
      rewrite Hsplit, firstn_app, firstn_all2 by lia.
      replace (S mid - List.length l1)%nat with 1%nat by lia. simpl.
      apply Forall_app. split; [|repeat constructor; exact Hep].
      revert H12. apply Forall_impl. intros x Hx.
      inversion Hx; subst. now transitivity element.
Qed.

Lemma insertPivot_perm (sorted : list A) (pivot : A) :
  Permutation (sorted ++ [pivot]) (JS.insertPivot cmp sorted pivot).
Proof.
  unfold JS.insertPivot.
  set (p := JS.searchPivot _ _ _ _ _ _).
  rewrite <- (firstn_skipn p sorted) at 1.
  rewrite <- app_assoc. apply Permutation_app_head.
  rewrite <- Permutation_cons_append. reflexivity.
Qed.

Lemma insertPivot_sorted (sorted : list A) (pivot : A) :
  StronglySorted R sorted -> StronglySorted R (JS.insertPivot cmp sorted pivot).
Proof.
  intros Hs. unfold JS.insertPivot.
  destruct (searchPivot_spec sorted pivot Hs (List.length sorted) O (List.length sorted))
    as [Hbefore Hafter]; try lia.
  - constructor.
  - rewrite skipn_all. constructor.
  - set (p := JS.searchPivot _ _ _ _ _ _) in *.
    assert (Hsplit := Hs). rewrite <- (firstn_skipn p sorted) in Hsplit.
    apply StronglySorted_app_iff in Hsplit as (H1 & H2 & H12).
    apply StronglySorted_app_iff. repeat split; auto.
    + constructor; auto.
    + apply Forall_forall. intros x Hx. constructor.
      * now apply (proj1 (Forall_forall _ _) Hbefore).
      * now apply (proj1 (Forall_forall _ _) H12).
Qed.

Lemma insertPivot_fold (rest sorted : list A) :
  StronglySorted R sorted ->
  Permutation (sorted ++ rest) (fold_left (JS.insertPivot cmp) rest sorted) /\
  StronglySorted R (fold_left (JS.insertPivot cmp) rest sorted).
Proof.
  revert sorted; induction rest as [|pivot rest IH]; intros sorted Hs; simpl.
  - rewrite app_nil_r. auto.
  - destruct (IH _ (insertPivot_sorted sorted pivot Hs)) as [Hp Hs'].
    split; [|exact Hs'].
    rewrite <- Hp, <- insertPivot_perm, <- app_assoc. reflexivity.
Qed.
End V8Lawful.

Lemma V8_lawful : JS.LawfulSort JS.V8.
Proof.
  intros A cmp l. simpl. unfold JS.v8_sort.
  destruct (JS.countAndMakeRun cmp l) as [work n] eqn:Hrun. split.
  - assert (HT : Transitive (fun _ _ : A => True)) by (intros x y z _ _; exact I).
    assert (HC : JS.Compatible cmp (fun _ _ => True)) by (intros x y; auto).
    destruct (countAndMakeRun_spec cmp _ HT HC l work n Hrun) as [Hp Hs].
    destruct (insertPivot_fold cmp _ HT HC (skipn n work) (firstn n work) Hs)
      as [Hp' _].
    rewrite <- Hp', firstn_skipn. exact Hp.
  - intros R HT HC.
    destruct (countAndMakeRun_spec cmp R HT HC l work n Hrun) as [_ Hs].
    now apply insertPivot_fold.
Qed.

(* ================================================================== *)
(** * The filtered view *)
(* ================================================================== *)

Section DateOrder.

Lemma dateLe_trans (a b c : string) :
  Spec.dateLe a b -> Spec.dateLe b c -> Spec.dateLe a c.
Proof.
  unfold Spec.dateLe. revert b c.
  induction a as [|x a IH]; intros [|y b] [|z c]; simpl; try congruence.
  unfold Ascii.compare.
  destruct (N.compare_spec (N_of_ascii x) (N_of_ascii y)) as [Exy|Lxy|Gxy];
    destruct (N.compare_spec (N_of_ascii y) (N_of_ascii z)) as [Eyz|Lyz|Gyz];
    destruct (N.compare_spec (N_of_ascii x) (N_of_ascii z)) as [Exz|Lxz|Gxz];
    try congruence; try lia.
  apply IH.
Qed.

Lemma newestFirst_trans : Transitive Spec.newestFirst.
Proof. intros a b c Hab Hbc. unfold Spec.newestFirst in *. eapply dateLe_trans; eauto. Qed.

Lemma byDateDescending_agrees : JS.Compatible byDateDescending Spec.newestFirst.
Proof.
  intros a b. unfold byDateDescending, Spec.newestFirst, Spec.dateLe, JS.lt, String.ltb.
  rewrite (String.compare_antisym (date b) (date a)).
  destruct (String.compare (date a) (date b)); simpl;
    repeat split; intros; try lia; congruence.
Qed.

End DateOrder.

Section Trim.

Lemma Blank_cons (c : ascii) (s : string) :
  Spec.Blank (String c s) <-> JS.isWhiteSpace c = true /\ Spec.Blank s.
Proof.
  unfold Spec.Blank. simpl. split.
  - intros H. split; [apply H; auto | intros d Hd; apply H; auto].
  - intros [Hc Hs] d [<-|Hd]; auto.
Qed.

Lemma trimEnd_empty_iff (s : string) : JS.trimEnd s = "" <-> Spec.Blank s.
Proof.
  induction s as [|c s IH]; simpl.
  - split; [intros _ d [] | reflexivity].
  - rewrite Blank_cons, <- IH.
    destruct (JS.trimEnd s), (JS.isWhiteSpace c); split;
      (congruence || (intros [? ?]; congruence) || auto).
Qed.

Lemma trimStart_empty_iff (s : string) : JS.trimStart s = "" <-> Spec.Blank s.
Proof.
  induction s as [|c s IH]; simpl.
  - split; [intros _ d [] | reflexivity].
  - rewrite Blank_cons, <- IH.
    destruct (JS.isWhiteSpace c); split;
      (congruence || (intros [? ?]; congruence) || auto).
Qed.

Lemma trimStart_head (s : string) (c : ascii) (r : string) :
  JS.trimStart s = String c r -> JS.isWhiteSpace c = false.
Proof.
  induction s as [|d s IH]; simpl; [discriminate|].
  destruct (JS.isWhiteSpace d) eqn:Hd; [exact IH | congruence].
Qed.

(** [s.trim()] is empty exactly for a blank [s]. *)
Lemma trim_empty_iff (s : string) : JS.trim s = "" <-> Spec.Blank s.
Proof.
  unfold JS.trim. rewrite trimEnd_empty_iff. split.
  - intros H. apply trimStart_empty_iff.
    destruct (JS.trimStart s) as [|c r] eqn:E; [reflexivity|].
    apply trimStart_head in E. apply Blank_cons in H as [Hc _]. congruence.
  - intros H. apply trimStart_empty_iff in H. rewrite H. intros d [].
Qed.

End Trim.

Lemma matchesFilters_iff (filters : Filters) (r : Expense) :
  matchesFilters filters r = true <-> Spec.Keeps filters r.
Proof.
  unfold matchesFilters, Spec.Keeps.
  rewrite !andb_true_iff, includes_toLowerCase_iff.
  assert (Hcat :
    match Filters.category filters with
    | All => true
    | Only c => Category_eqb (category r) c
    end = true <->
    Filters.category filters = All \/ Filters.category filters = Only (category r)).
  { destruct (Filters.category filters) as [|c].
    - split; auto.
    - rewrite Category_eqb_eq. split.
      + intros ->. auto.
      + intros [H|H]; congruence. }
  assert (Hfrom :
    (if JS.truthy (Filters.from filters)
     then JS.ge (date r) (Filters.from filters) else true) = true <->
    (Filters.from filters <> "" -> Spec.dateLe (Filters.from filters) (date r))).
  { destruct (JS.truthy (Filters.from filters)) eqn:E.
    - apply truthy_iff in E. rewrite ge_iff. tauto.
    - apply truthy_false_iff in E. split; [congruence | reflexivity]. }
  assert (Hto :
    (if JS.truthy (Filters.to filters)
     then JS.le (date r) (Filters.to filters) else true) = true <->
    (Filters.to filters <> "" -> Spec.dateLe (date r) (Filters.to filters))).
  { destruct (JS.truthy (Filters.to filters)) eqn:E.
    - apply truthy_iff in E. rewrite le_iff. tauto.
    - apply truthy_false_iff in E. split; [congruence | reflexivity]. }
  tauto.
Qed.

Section FilteredView.
Variable engine : JS.SortEngine.
Hypothesis lawful : JS.LawfulSort engine.

Lemma filtered_perm (expenses : list Expense) (filters : Filters) :
  Permutation (filter (matchesFilters filters) expenses)
              (filteredExpenses engine expenses filters).
Proof. apply lawful. Qed.

(** On every lawful engine the view is newest first. *)
Lemma filtered_newest_first (expenses : list Expense) (filters : Filters) :
  StronglySorted Spec.newestFirst (filteredExpenses engine expenses filters).
Proof.
  apply lawful; [exact newestFirst_trans | exact byDateDescending_agrees].
Qed.

End FilteredView.

(** C2, at the input where the code departs from it: the comparator answers
    -1 for two records of the same date whichever comes first, never 0, so
    their order is whatever the engine's sort makes of that answer.  V8 puts
    the two records in the reverse of their order in the collection; an
    insertion sort that asks the comparator the other way round keeps it. *)
Theorem same_day_order_follows_the_engine :
  date dinner = date lunch /\
  byDateDescending dinner lunch = -1 /\
  byDateDescending lunch dinner = -1 /\
  filteredExpenses JS.V8 [dinner; lunch] noFilters = [lunch; dinner] /\
  filteredExpenses JS.Insertion [dinner; lunch] noFilters = [dinner; lunch].
Proof. repeat split; reflexivity. Qed.

(* ================================================================== *)
(** * Numbers: comparisons of binary64 values *)
(* ================================================================== *)

Section FloatOrder.

Lemma compare_cont_refl (m : positive) : Pos.compare_cont Eq m m = Eq.
Proof. exact (Pos.compare_refl m). Qed.

Lemma SFcompare_refl (x : spec_float) :
  x <> S754_nan -> SFcompare x x = Some Eq.
Proof.
  destruct x as [[]|[]| |[] m e]; simpl; try congruence;
    intros _; now rewrite Z.compare_refl, compare_cont_refl.
Qed.

Lemma Prim2SF_zero : Prim2SF 0%float = S754_zero false.
Proof. reflexivity. Qed.

Lemma isNaN_spec (x : float) :
  JS.isNaN x = true <-> Prim2SF x = S754_nan.
Proof.
  unfold JS.isNaN, PrimFloat.is_nan. rewrite eqb_spec. unfold SFeqb.
  destruct (Prim2SF x) as [s|s| |s m e] eqn:E.
  - rewrite SFcompare_refl by congruence. simpl. split; congruence.
  - rewrite SFcompare_refl by congruence. simpl. split; congruence.
  - simpl. split; reflexivity.
  - rewrite SFcompare_refl by congruence. simpl. split; congruence.
Qed.

(** The test of [validateForm], [Number.isNaN(amount) || amount <= 0],
    fails exactly the amounts that are not strictly greater than 0. *)
Lemma invalid_amount_iff (x : float) :
  JS.isNaN x || (x <=? 0)%float = negb (0 <? x)%float.
Proof.
  destruct (JS.isNaN x) eqn:Hnan.
  - apply isNaN_spec in Hnan. rewrite ltb_spec, Hnan. reflexivity.
  - assert (Hx : Prim2SF x <> S754_nan).
    { intros H. apply isNaN_spec in H. congruence. }
    rewrite leb_spec, ltb_spec, Prim2SF_zero. simpl.
    destruct (Prim2SF x) as [[]|[]| |[] m e]; try reflexivity. congruence.
Qed.

Lemma positive_not_NaN (x : float) :
  (0 <? x)%float = true -> JS.isNaN x = false.
Proof.
  intros H. destruct (JS.isNaN x) eqn:Hnan; [|reflexivity].
  apply isNaN_spec in Hnan. rewrite ltb_spec, Hnan in H. discriminate.
Qed.

End FloatOrder.

(* ================================================================== *)
(** * Validation and submit *)
(* ================================================================== *)

Lemma truthy_trim_false_iff (s : string) :
  JS.truthy (JS.trim s) = false <-> Spec.Blank s.
Proof. rewrite truthy_false_iff. apply trim_empty_iff. Qed.

(** [validateForm] as a decision list over propositions. *)
Lemma validateForm_cases (form : FormState) :
  (Spec.Blank (Form.description form) /\
   validateForm form = Some Spec.EmptyDescription) \/
  (~ Spec.Blank (Form.description form) /\ Form.date form = "" /\
   validateForm form = Some Spec.MissingDate) \/
  (~ Spec.Blank (Form.description form) /\ Form.date form <> "" /\
   (0 <? JS.Number (Form.amount form))%float = false /\
   validateForm form = Some Spec.InvalidAmount) \/
  (~ Spec.Blank (Form.description form) /\ Form.date form <> "" /\
   (0 <? JS.Number (Form.amount form))%float = true /\
   validateForm form = None).
Proof.
  unfold validateForm. rewrite invalid_amount_iff.
  destruct (JS.truthy (JS.trim (Form.description form))) eqn:Hd; simpl.
  - assert (Hnb : ~ Spec.Blank (Form.description form)).
    { intros H. apply truthy_trim_false_iff in H. congruence. }
    destruct (JS.truthy (Form.date form)) eqn:Hdate; simpl.
    + apply truthy_iff in Hdate.
      destruct (0 <? JS.Number (Form.amount form))%float; simpl; tauto.
    + apply truthy_false_iff in Hdate. tauto.
  - apply truthy_trim_false_iff in Hd. tauto.
Qed.

Lemma handleSubmit_rejected (env : Env) (st : State) :
  validateForm (form st) <> None ->
  handleSubmit env st =
  {| expenses := expenses st; form := form st; filters := filters st;
     editingId := editingId st;
     status := {| type := Some error; message := validateForm (form st) |} |}.
Proof.
  intros H. unfold handleSubmit.
  destruct (validateForm_cases (form st)) as [(_ & E)|[(_ & _ & E)|[(_ & _ & _ & E)|(_ & _ & _ & E)]]];
    rewrite E in *; try reflexivity. congruence.
Qed.

(** C3: validation fails with [EmptyDescription] for a blank description,
    with [MissingDate] for an absent date, with [InvalidAmount] for an amount
    that is not a number or not strictly greater than 0, each after the
    checks before it have passed, and succeeds otherwise; a submit whose
    validation fails leaves the expenses (and the draft) as they were. *)
Theorem validation_failures (form0 : FormState) :
  let amount := JS.Number (Form.amount form0) in
  (validateForm form0 = Some Spec.EmptyDescription <->
   Spec.Blank (Form.description form0)) /\
  (validateForm form0 = Some Spec.MissingDate <->
   ~ Spec.Blank (Form.description form0) /\ Form.date form0 = "") /\
  (validateForm form0 = Some Spec.InvalidAmount <->
   ~ Spec.Blank (Form.description form0) /\ Form.date form0 <> "" /\
   (JS.isNaN amount = true \/ (0 <? amount)%float = false)) /\
  (validateForm form0 = None <->
   ~ Spec.Blank (Form.description form0) /\ Form.date form0 <> "" /\
   JS.isNaN amount = false /\ (0 <? amount)%float = true) /\
  (forall env st,
     validateForm (form st) <> None ->
     expenses (handleSubmit env st) = expenses st /\
     form (handleSubmit env st) = form st).
Proof.
  intros amount. subst amount.
  assert (Hsubmit : forall env st,
             validateForm (form st) <> None ->
             expenses (handleSubmit env st) = expenses st /\
             form (handleSubmit env st) = form st).
  { intros env st Hv. rewrite (handleSubmit_rejected env st Hv). split; reflexivity. }
  assert (Hnan : JS.isNaN (JS.Number (Form.amount form0)) = true ->
                 (0 <? JS.Number (Form.amount form0))%float = false).
  { intros H. destruct (0 <? _)%float eqn:E; [|reflexivity].
    apply positive_not_NaN in E. congruence. }
  pose proof (positive_not_NaN (JS.Number (Form.amount form0))) as Hpos.
  unfold Spec.EmptyDescription, Spec.MissingDate, Spec.InvalidAmount in *.
  destruct (validateForm_cases form0)
    as [(Hb & E)|[(Hb & Hd & E)|[(Hb & Hd & Ha & E)|(Hb & Hd & Ha & E)]]];
    unfold Spec.EmptyDescription, Spec.MissingDate, Spec.InvalidAmount in E;
    rewrite E;
    (split; [|split; [|split; [|split; [|exact Hsubmit]]]]);
    split; intros H;
    try discriminate; try reflexivity; try tauto;
    try (destruct H as (? & ? & [Hn|Hl]); [apply Hnan in Hn|]; congruence);
    try (destruct H as (? & ? & ? & ?); congruence).
Qed.

(** C10: of several violated rules one is reported, by priority: the blank
    description, then the missing date, then the invalid amount; an empty
    amount is an invalid amount, because [Number("")] is 0 and 0 is not
    greater than 0. *)
Theorem validation_priority (form0 : FormState) :
  (Spec.Blank (Form.description form0) ->
   validateForm form0 = Some Spec.EmptyDescription) /\
  (~ Spec.Blank (Form.description form0) -> Form.date form0 = "" ->
   validateForm form0 = Some Spec.MissingDate) /\
  (~ Spec.Blank (Form.description form0) -> Form.date form0 <> "" ->
   Form.amount form0 = "" ->
   validateForm form0 = Some Spec.InvalidAmount) /\
  JS.Number "" = 0%float /\
  (0 <? JS.Number "")%float = false /\
  validateForm {| Form.description := "   "; Form.amount := "";
                  Form.category := Food; Form.date := "" |}
  = Some Spec.EmptyDescription /\
  validateForm {| Form.description := "Rent"; Form.amount := "-5";
                  Form.category := Bills; Form.date := "" |}
  = Some Spec.MissingDate /\
  validateForm {| Form.description := "Rent"; Form.amount := "";
                  Form.category := Bills; Form.date := "2024-01-01" |}
  = Some Spec.InvalidAmount.
Proof.
  assert (Hempty : (0 <? JS.Number "")%float = false) by reflexivity.
  repeat split; try reflexivity.
  - intros Hb.
    destruct (validateForm_cases form0)
      as [(_ & E)|[(Hn & _)|[(Hn & _)|(Hn & _)]]]; tauto.
  - intros Hb Hd.
    destruct (validateForm_cases form0)
      as [(Hn & _)|[(_ & _ & E)|[(_ & Hn & _)|(_ & Hn & _)]]]; tauto.
  - intros Hb Hd Ha.
    destruct (validateForm_cases form0)
      as [(Hn & _)|[(_ & Hn & _)|[(_ & _ & _ & E)|(_ & _ & Hp & _)]]];
      try tauto.
    rewrite Ha in Hp. congruence.
Qed.

(* ================================================================== *)
(** * Update *)
(* ================================================================== *)

Lemma handleSubmit_update (env : Env) (st : State) (editing : string) :
  editingId st = Some editing -> editing <> "" ->
  validateForm (form st) = None ->
  expenses (handleSubmit env st) =
  updateExpenses editing (form st) (JS.Number (Form.amount (form st))) (expenses st).
Proof.
  intros He Hne Hv. unfold handleSubmit. rewrite Hv, He. simpl.
  apply truthy_iff in Hne. rewrite Hne. reflexivity.
Qed.

Lemma handleSubmit_create (env : Env) (st : State) :
  truthyOrNull (editingId st) = false ->
  validateForm (form st) = None ->
  expenses (handleSubmit env st) =
  createExpense env (form st) (JS.Number (Form.amount (form st))) (expenses st).
Proof.
  intros He Hv. unfold handleSubmit. rewrite Hv, He. reflexivity.
Qed.

Lemma updateExpenses_nth (editing : string) (draft : FormState) (x : float)
      (prev : list Expense) (i : nat) :
  nth_error (updateExpenses editing draft x prev) i =
  option_map (fun item => if (id item =? editing)%string
                          then overwrite item draft x else item)
             (nth_error prev i).
Proof. unfold updateExpenses. apply nth_error_map. Qed.

(** C5: a valid draft submitted while the record [editing] is being edited
    keeps the [id] and [createdAt] of every record with that id and gives it
    the draft's description, amount, category and date; every other record
    stays as it is; an id that no record has changes nothing; and a draft
    that carries the record's own values changes nothing. *)
Theorem update_overwrites (env : Env) (st : State) (editing : string) :
  editingId st = Some editing -> editing <> "" ->
  validateForm (form st) = None ->
  let draft := form st in
  let out := expenses (handleSubmit env st) in
  List.length out = List.length (expenses st) /\
  (forall i item,
      nth_error (expenses st) i = Some item -> id item = editing ->
      exists item',
        nth_error out i = Some item' /\
        id item' = id item /\ createdAt item' = createdAt item /\
        description item' = Form.description draft /\
        amount item' = JS.Number (Form.amount draft) /\
        category item' = Form.category draft /\
        date item' = Form.date draft) /\
  (forall i item,
      nth_error (expenses st) i = Some item -> id item <> editing ->
      nth_error out i = Some item) /\
  ((forall item, In item (expenses st) -> id item <> editing) ->
   out = expenses st) /\
  ((forall item, In item (expenses st) -> id item = editing ->
                 Form.description draft = description item /\
                 JS.Number (Form.amount draft) = amount item /\
                 Form.category draft = category item /\
                 Form.date draft = date item) ->
   out = expenses st).
Proof.
  intros He Hne Hv draft out. subst draft out.
  rewrite (handleSubmit_update env st editing He Hne Hv).
  set (x := JS.Number (Form.amount (form st))).
  repeat split.
  - unfold updateExpenses. apply length_map.
  - intros i item Hi Hid. rewrite updateExpenses_nth, Hi. simpl.
    apply String.eqb_eq in Hid. rewrite Hid.
    eexists. split; [reflexivity|]. simpl. auto 10.
  - intros i item Hi Hid. rewrite updateExpenses_nth, Hi. simpl.
    apply String.eqb_neq in Hid. now rewrite Hid.
  - intros Habsent. unfold updateExpenses.
    rewrite <- (map_id (expenses st)) at 2. apply map_ext_in.
    intros item Hin. apply Habsent, String.eqb_neq in Hin. now rewrite Hin.
  - intros Hown. unfold updateExpenses.
    rewrite <- (map_id (expenses st)) at 2. apply map_ext_in.
    intros item Hin. destruct (String.eqb_spec (id item) editing) as [Hid|Hid];
      [|reflexivity].
    destruct (Hown item Hin Hid) as (Hd & Ha & Hc & Hdate).
    unfold overwrite. fold x in Ha. rewrite Hd, Ha, Hc, Hdate.
    destruct item; reflexivity.
Qed.

Lemma update_overwrites_witness :
  editingId editingBus = Some "b05" /\
  validateForm (form editingBus) = None /\
  expenses (handleSubmit env0 editingBus) =
  [coffee;
   {| id := "b05"; description := "  Bus fare "; amount := 3.1%float;
      category := Transportation; date := "2024-01-07";
      createdAt := createdAt bus |}] /\
  List.length (expenses (handleSubmit env0 editingBus)) = 2%nat /\
  expenses (handleSubmit env0 (handleEdit bus editingBus)) = [coffee; bus].
Proof.
  split; [reflexivity|]. split; [reflexivity|]. split; [reflexivity|].
  split; [|reflexivity].
  assert (Hne : "b05" <> "") by discriminate.
  exact (proj1 (update_overwrites env0 editingBus "b05" eq_refl Hne eq_refl)).
Defined.

(* ================================================================== *)
(** * What create, delete and update keep *)
(* ================================================================== *)

Section Invariants.

Lemma trimEnd_head (c : ascii) (s : string) :
  JS.isWhiteSpace c = false -> exists r, JS.trimEnd (String c s) = String c r.
Proof.
  intros Hc. simpl. rewrite Hc. destruct (JS.trimEnd s); eauto.
Qed.

Lemma trimEnd_idempotent (s : string) : JS.trimEnd (JS.trimEnd s) = JS.trimEnd s.
Proof.
  induction s as [|c s IH]; simpl; [reflexivity|].
  destruct (JS.trimEnd s) as [|d r] eqn:E.
  - destruct (JS.isWhiteSpace c) eqn:Hc; simpl; [reflexivity|]. now rewrite Hc.
  - cbn [JS.trimEnd]. fold JS.trimEnd. simpl in IH. simpl. rewrite IH. reflexivity.
Qed.

Lemma trim_idempotent (s : string) : JS.trim (JS.trim s) = JS.trim s.
Proof.
  unfold JS.trim.
  destruct (JS.trimStart s) as [|c t] eqn:E; [reflexivity|].
  pose proof (trimStart_head s c t E) as Hc.
  destruct (trimEnd_head c t Hc) as [r Hr]. rewrite Hr.
  cbn [JS.trimStart]. rewrite Hc, <- Hr. apply trimEnd_idempotent.
Qed.

(** The record the create branch builds from a valid draft is well formed. *)
Lemma newExpense_WellFormed (env : Env) (draft : FormState) :
  validateForm draft = None ->
  Spec.WellFormed (newExpense env draft (JS.Number (Form.amount draft))).
Proof.
  intros Hv.
  destruct (validateForm_cases draft)
    as [(_ & E)|[(_ & _ & E)|[(_ & _ & _ & E)|(Hb & _ & Ha & _)]]];
    try congruence.
  unfold Spec.WellFormed, Spec.Trimmed. simpl. repeat split.
  - exact Ha.
  - intros H. apply Hb, trim_empty_iff, H.
  - apply trim_idempotent.
Qed.

Lemma create_keeps (env : Env) (draft : FormState) (prev : list Expense) :
  validateForm draft = None ->
  ~ In (randomUUID env) (map id prev) ->
  Forall Spec.WellFormed prev -> Spec.UniqueIds prev ->
  Forall Spec.WellFormed
         (createExpense env draft (JS.Number (Form.amount draft)) prev) /\
  Spec.UniqueIds (createExpense env draft (JS.Number (Form.amount draft)) prev).
Proof.
  intros Hv Hfresh Hwf Hids. unfold createExpense. split.
  - constructor; [now apply newExpense_WellFormed | exact Hwf].
  - unfold Spec.UniqueIds. simpl. now constructor.
Qed.

Lemma delete_keeps (target : string) (prev : list Expense) :
  Forall Spec.WellFormed prev -> Spec.UniqueIds prev ->
  Forall Spec.WellFormed (deleteExpense target prev) /\
  Spec.UniqueIds (deleteExpense target prev).
Proof.
  unfold deleteExpense, Spec.UniqueIds. intros Hwf Hids. split.
  - apply Forall_forall. intros r Hr. apply filter_In in Hr as [Hr _].
    now apply (proj1 (Forall_forall _ _) Hwf).
  - induction prev as [|r l IH]; simpl in *; [constructor|].
    inversion Hwf; subst. inversion Hids; subst.
    destruct (negb (id r =? target)%string); simpl; auto.
    constructor; auto.
    intros Hin. apply in_map_iff in Hin as (r' & Hid & Hr').
    apply filter_In in Hr' as [Hr' _].
    match goal with H : ~ In (id r) _ |- _ => apply H end.
    apply in_map_iff. eauto.
Qed.

(** The update branch keeps the ids, and with a valid draft the amounts
    positive; the description it stores is the draft's, as typed. *)
Lemma update_keeps (editing : string) (draft : FormState) (prev : list Expense) :
  validateForm draft = None ->
  let out := updateExpenses editing draft (JS.Number (Form.amount draft)) prev in
  map id out = map id prev /\
  (Forall (fun r => (0 <? amount r)%float = true) prev ->
   Forall (fun r => (0 <? amount r)%float = true) out) /\
  (forall r, In r out -> In r prev \/ description r = Form.description draft).
Proof.
  intros Hv out. subst out. unfold updateExpenses.
  destruct (validateForm_cases draft)
    as [(_ & E)|[(_ & _ & E)|[(_ & _ & _ & E)|(_ & _ & Ha & _)]]];
    try congruence.
  split; [|split].
  - rewrite map_map. apply map_ext. intros r.
    destruct (id r =? editing)%string; reflexivity.
  - intros Hpos. apply Forall_forall. intros r Hr.
    apply in_map_iff in Hr as (r0 & <- & Hr0).
    destruct (id r0 =? editing)%string; [exact Ha|].
    now apply (proj1 (Forall_forall _ _) Hpos).
  - intros r Hr. apply in_map_iff in Hr as (r0 & <- & Hr0).
    destruct (id r0 =? editing)%string; [right; reflexivity | left; exact Hr0].
Qed.

End Invariants.

(** C4, at the input where the code departs from it: the update branch
    stores the draft's description as typed, spaces included, although the
    draft is valid; the create branch trims the same draft. *)
Theorem update_keeps_untrimmed_description :
  validateForm busDraft = None /\
  map description (expenses (handleSubmit env0 editingBus))
  = ["Coffee"; "  Bus fare "] /\
  JS.trim "  Bus fare " = "Bus fare" /\
  map description (expenses (handleSubmit env0 addingBus))
  = ["Bus fare"; "Coffee"; "Bus"].
Proof. repeat split; reflexivity. Qed.

(* ================================================================== *)
(** * Export *)
(* ================================================================== *)

Section ExportText.

(** Replacing each quote by the one-quote string changes nothing. *)
Lemma replaceAll_self (c : ascii) (s : string) :
  replaceAll c (String c "") s = s.
Proof.
  induction s as [|d s IH]; simpl; [reflexivity|].
  destruct (Ascii.eqb_spec d c) as [->|Hd]; simpl; now rewrite IH.
Qed.

Lemma csvCell_quoted (cell : string) : csvCell cell = Spec.quoted cell.
Proof. unfold csvCell, Spec.quoted. now rewrite replaceAll_self. Qed.

Lemma join_cells (a b c d : string) :
  JS.join "," (map csvCell [a; b; c; d]) =
  (Spec.quoted a ++ "," ++ Spec.quoted b ++ "," ++
   Spec.quoted c ++ "," ++ Spec.quoted d)%string.
Proof.
  unfold JS.join. cbn [map String.concat].
  now rewrite !csvCell_quoted.
Qed.

Lemma join_cons (sep x y : string) (rest : list string) :
  JS.join sep (x :: y :: rest) = (x ++ sep ++ JS.join sep (y :: rest))%string.
Proof. reflexivity. Qed.

Lemma join_lines (first : string) (rows : list Expense) :
  JS.join newline
    (first :: map (fun row => JS.join "," (map csvCell row)) (map csvRow rows)) =
  (first ++ Spec.csvText rows)%string.
Proof.
  revert first; induction rows as [|r rows IH]; intros first.
  - simpl. now rewrite append_empty_r.
  - cbn [map Spec.csvText]. rewrite join_cons, IH.
    unfold csvRow. rewrite join_cells. reflexivity.
Qed.

Lemma exportCsv_text (engine : JS.SortEngine) (expenses : list Expense)
      (filters : Filters) :
  expenses <> [] ->
  exportCsv engine expenses filters =
  Some (Spec.csvHeader ++ Spec.csvText (filteredExpenses engine expenses filters))%string.
Proof.
  intros Hne. unfold exportCsv.
  destruct expenses as [|r rest]; [congruence|]. cbn [List.length Nat.eqb].
  f_equal. cbn [map]. rewrite join_lines. reflexivity.
Qed.

End ExportText.

(** The claim C7, as stated, fails: no record passes the filter, and the
    export still produces a text, the header row. *)
Lemma export_of_empty_view :
  filteredExpenses JS.V8 [coffee; bus] taxiOnly = [] /\
  exportCsv JS.V8 [coffee; bus] taxiOnly = Some Spec.csvHeader.
Proof. split; reflexivity. Qed.

(** C7, amended: the export produces nothing exactly when the collection
    itself is empty; for a collection that is not empty it produces a text
    even when no record passes the filters, and that text is then the header
    row alone. *)
Theorem export_guard (engine : JS.SortEngine) (expenses : list Expense)
        (filters : Filters) :
  (exportCsv engine expenses filters = None <-> expenses = []) /\
  (expenses <> [] ->
   filteredExpenses engine expenses filters = [] ->
   exportCsv engine expenses filters = Some Spec.csvHeader).
Proof.
  split.
  - destruct expenses as [|r rest].
    + split; reflexivity.
    + rewrite exportCsv_text by discriminate. split; discriminate.
  - intros Hne Hempty. rewrite exportCsv_text, Hempty by assumption.
    cbn [Spec.csvText]. now rewrite append_empty_r.
Qed.

Section TwoDecimalPlaces.

Lemma string_length_app (a b : string) :
  String.length (a ++ b) = (String.length a + String.length b)%nat.
Proof. induction a; simpl; congruence. Qed.

Lemma chars_app (a b : string) :
  list_ascii_of_string (a ++ b) =
  list_ascii_of_string a ++ list_ascii_of_string b.
Proof. induction a; simpl; congruence. Qed.

Lemma allDigits_app (a b : string) :
  Spec.allDigits a -> Spec.allDigits b -> Spec.allDigits (a ++ b).
Proof.
  unfold Spec.allDigits. intros Ha Hb c. rewrite chars_app, in_app_iff.
  intros [H|H]; auto.
Qed.

Lemma allDigits_cons (c : ascii) (s : string) :
  JS.isDigit c = true -> Spec.allDigits s -> Spec.allDigits (String c s).
Proof. intros Hc Hs d [<-|Hd]; auto. Qed.

Lemma substring_chars (s : string) :
  forall n m c,
    In c (list_ascii_of_string (substring n m s)) ->
    In c (list_ascii_of_string s).
Proof.
  induction s as [|d s IH]; intros [|n] [|m] c; simpl; intros H;
    try contradiction.
  - destruct H as [<-|H]; eauto.
  - right. eapply IH. exact H.
  - right. eapply IH. exact H.
Qed.

Lemma allDigits_substring (s : string) (n m : nat) :
  Spec.allDigits s -> Spec.allDigits (substring n m s).
Proof. intros Hs c Hc. eapply Hs, substring_chars, Hc. Qed.

Lemma substring_length (s : string) :
  forall n m, (n + m <= String.length s)%nat ->
              String.length (substring n m s) = m.
Proof.
  induction s as [|d s IH]; intros [|n] [|m]; simpl; intros H;
    try reflexivity; try lia.
  - f_equal. apply (IH O m). lia.
  - apply (IH n 0%nat). lia.
  - apply (IH n (S m)). lia.
Qed.

Lemma zeros_length (n : nat) : String.length (JS.zeros n) = n.
Proof. induction n; simpl; congruence. Qed.

Lemma zeros_allDigits (n : nat) : Spec.allDigits (JS.zeros n).
Proof.
  induction n; simpl; [intros c []|].
  apply allDigits_cons; [reflexivity | assumption].
Qed.

Lemma digitChar_isDigit (d : Z) :
  0 <= d < 10 -> JS.isDigit (JS.digitChar d) = true.
Proof.
  intros H.
  assert (E : d = 0 \/ d = 1 \/ d = 2 \/ d = 3 \/ d = 4 \/
              d = 5 \/ d = 6 \/ d = 7 \/ d = 8 \/ d = 9) by lia.
  repeat (destruct E as [->|E]; [reflexivity|]). subst. reflexivity.
Qed.

Lemma decimalDigits_allDigits (fuel : nat) :
  forall n acc,
    Spec.allDigits acc -> Spec.allDigits (JS.decimalDigits fuel n acc).
Proof.
  induction fuel as [|fuel IH]; intros n acc Hacc; simpl; [exact Hacc|].
  assert (Hd : Spec.allDigits (String (JS.digitChar (n mod 10)) acc)).
  { apply allDigits_cons; [|exact Hacc].
    apply digitChar_isDigit, Z.mod_pos_bound. lia. }
  destruct (n <? 10); auto.
Qed.

Lemma decimalDigits_length (fuel : nat) :
  forall n acc,
    (String.length acc <= String.length (JS.decimalDigits fuel n acc))%nat.
Proof.
  induction fuel as [|fuel IH]; intros n acc; simpl; [lia|].
  destruct (n <? 10); simpl; [lia|].
  specialize (IH (n / 10) (String (JS.digitChar (n mod 10)) acc)).
  simpl in IH. lia.
Qed.

Lemma decimal_allDigits (n : Z) : Spec.allDigits (JS.decimal n).
Proof. apply decimalDigits_allDigits. intros c []. Qed.

Lemma decimal_length (n : Z) : (1 <= String.length (JS.decimal n))%nat.
Proof.
  unfold JS.decimal. simpl.
  destruct (n <? 10); simpl; [lia|].
  pose proof (decimalDigits_length (Z.to_nat (Z.log2 n)) (n / 10)
                (String (JS.digitChar (n mod 10)) "")) as H.
  simpl in H. lia.
Qed.

(** Within the range where it prints digits, [toFixed(2)] prints an
    optional sign, digits, a point and exactly two digits. *)
Lemma toFixed_two_decimals (x : float) :
  Spec.fixedRange x = true -> Spec.TwoDecimals (JS.toFixed x 2).
Proof.
  unfold Spec.fixedRange, JS.toFixed.
  destruct (Prim2SF x) as [s|s| |s m e]; try discriminate.
  - intros _. exists "", "0", "00". simpl. repeat split; auto; try discriminate.
    + intros c [<-|[]]. reflexivity.
    + intros c [<-|[<-|[]]]; reflexivity.
  - destruct (JS.exactValue m e) as [num den]. intros Hrange.
    replace (10 ^ 21 * den <=? num) with false by (symmetry; apply Z.leb_gt; lia).
    cbn [Nat.eqb].
    set (digits := JS.decimal ((2 * num * 10 ^ Z.of_nat 2 + den) / (2 * den))).
    set (padded := if (String.length digits <=? 2)%nat
                   then (JS.zeros (3 - String.length digits) ++ digits)%string
                   else digits).
    assert (Hlen : (3 <= String.length padded)%nat).
    { subst padded. pose proof (decimal_length ((2 * num * 10 ^ Z.of_nat 2 + den) / (2 * den))).
      fold digits in H.
      destruct (Nat.leb_spec (String.length digits) 2).
      - rewrite string_length_app, zeros_length. lia.
      - lia. }
    assert (Hdigits : Spec.allDigits padded).
    { subst padded. destruct (String.length digits <=? 2)%nat.
      - apply allDigits_app; [apply zeros_allDigits | apply decimal_allDigits].
      - apply decimal_allDigits. }
    exists (if s then "-" else ""),
           (substring 0 (String.length padded - 2) padded),
           (substring (String.length padded - 2) 2 padded).
    split; [reflexivity|].
    split; [destruct s; auto|].
    split.
    { intros E. apply (f_equal String.length) in E.
      rewrite substring_length in E by lia. simpl in E. lia. }
    split; [now apply allDigits_substring|].
    split; [apply substring_length; lia | now apply allDigits_substring].
Qed.

End TwoDecimalPlaces.

(** The claim C6, as stated, fails on the example of the specification: the
    text exported for it is not the text the specification quotes. *)
Lemma export_differs_from_quoted_text :
  exportCsv JS.V8 [coffee; bus] noFilters <> Some specExport.
Proof. intros H. vm_compute in H. discriminate H. Qed.

(** C6, amended: for a collection that is not empty the export is the header
    row, its four names wrapped in double quotes like every other field, and
    then one row per record of the filtered view, in the order of the view,
    each field wrapped in double quotes (stated for fields that hold no
    double quote themselves); an amount that is finite and below 10^21 is
    printed with exactly two decimal places, while from 10^21 on [toFixed]
    prints an exponent; and for the example of the specification the text is
    the quoted one with the header names in quotes. *)
Theorem export_layout :
  (forall (engine : JS.SortEngine) (expenses : list Expense) (filters : Filters),
      expenses <> [] ->
      (forall r, In r (filteredExpenses engine expenses filters) ->
                 Spec.quoteFree (description r) /\ Spec.quoteFree (date r)) ->
      exportCsv engine expenses filters =
      Some (Spec.csvHeader ++
            Spec.csvText (filteredExpenses engine expenses filters))%string) /\
  (forall x : float,
      Spec.fixedRange x = true -> Spec.TwoDecimals (JS.toFixed x 2)) /\
  JS.toFixed (JS.Number "1e21") 2 = "1e+21" /\
  exportCsv JS.V8 [coffee; bus] noFilters =
  Some (Spec.csvHeader ++ newline ++
        Spec.quoted "Bus" ++ "," ++ Spec.quoted "2.75" ++ "," ++
        Spec.quoted "Transportation" ++ "," ++ Spec.quoted "2024-01-06" ++ newline ++
        Spec.quoted "Coffee" ++ "," ++ Spec.quoted "4.50" ++ "," ++
        Spec.quoted "Food" ++ "," ++ Spec.quoted "2024-01-05")%string.
Proof.
  split; [|split; [|split]].
  - intros engine expenses filters Hne _. now apply exportCsv_text.
  - exact toFixed_two_decimals.
  - reflexivity.
  - reflexivity.
Qed.

(* ================================================================== *)
(** * Totals *)
(* ================================================================== *)

Section Partition.
Context {A : Type}.

Lemma filter_disjoint_perm (p q : A -> bool) (l : list A) :
  (forall x, p x = true -> q x = false) ->
  Permutation (filter p l ++ filter q l) (filter (fun x => p x || q x) l).
Proof.
  intros Hpq. induction l as [|x l IH]; simpl; [reflexivity|].
  destruct (p x) eqn:Hp; simpl.
  - rewrite (Hpq x Hp). now constructor.
  - destruct (q x); [|exact IH].
    rewrite <- Permutation_middle. now constructor.
Qed.

Lemma filter_all (p : A -> bool) (l : list A) :
  (forall x, In x l -> p x = true) -> filter p l = l.
Proof.
  induction l as [|x l IH]; simpl; intros H; [reflexivity|].
  rewrite (H x) by auto. f_equal. apply IH. auto.
Qed.
End Partition.

Lemma ofCategory_partition (cats : list Category) (expenses : list Expense) :
  NoDup cats ->
  Permutation
    (List.concat (map (fun c => Spec.ofCategory c expenses) cats))
    (filter (fun r => existsb (Category_eqb (category r)) cats) expenses).
Proof.
  induction 1 as [|c cats Hc Hnd IH]; simpl.
  - induction expenses; simpl; auto.
  - rewrite IH. apply filter_disjoint_perm.
    intros r Hr. apply Category_eqb_eq in Hr. subst c.
    destruct (existsb _ cats) eqn:E; [|reflexivity].
    apply existsb_exists in E as (c' & Hin & Heq).
    apply Category_eqb_eq in Heq. subst c'. contradiction.
Qed.

Lemma ofCategory_none (c : Category) (expenses : list Expense) :
  (forall r, In r expenses -> category r <> c) -> Spec.ofCategory c expenses = [].
Proof.
  unfold Spec.ofCategory. induction expenses as [|r l IH]; simpl; intros H;
    [reflexivity|].
  destruct (Category_eqb (category r) c) eqn:E.
  - apply Category_eqb_eq in E. exfalso. apply (H r); auto.
  - apply IH. auto.
Qed.

Lemma CATEGORIES_NoDup : NoDup CATEGORIES.
Proof. repeat constructor; simpl; intuition discriminate. Qed.

Lemma CATEGORIES_complete (c : Category) : In c CATEGORIES.
Proof. destruct c; simpl; auto 10. Qed.

(** The claim C8, as stated, fails: the totals of the three records add up
    to 0.6, their amounts one after the other to 0.6000000000000001. *)
Lemma totals_do_not_add_up :
  Spec.sumTotals (totalsByCategory [tram; bread; milk]) <>
  totalSpent [tram; bread; milk].
Proof.
  intros H.
  apply (f_equal (fun v => PrimFloat.eqb v (totalSpent [tram; bread; milk]))) in H.
  vm_compute in H. discriminate H.
Qed.

(** The entries of [totalsByCategory]: one per category, in the order of
    the enumeration; the total of an entry is the sum, from 0, of the
    amounts of the records of its category, in the order of the collection,
    and 0 when there are none; and every record is counted in exactly one
    entry (the records of the six categories are, together, a rearrangement
    of the collection). *)
Lemma totalsByCategory_entries (expenses : list Expense) :
  map Total.category (totalsByCategory expenses) = CATEGORIES /\
  (forall t, In t (totalsByCategory expenses) ->
             Total.total t = sumAmounts (Spec.ofCategory (Total.category t) expenses)) /\
  (forall t, In t (totalsByCategory expenses) ->
             (forall r, In r expenses -> category r <> Total.category t) ->
             Total.total t = 0%float) /\
  Permutation (List.concat (map (fun c => Spec.ofCategory c expenses) CATEGORIES))
              expenses.
Proof.
  assert (Hentry : forall t, In t (totalsByCategory expenses) ->
             Total.total t = sumAmounts (Spec.ofCategory (Total.category t) expenses)).
  { intros t Ht. unfold totalsByCategory in Ht.
    apply in_map_iff in Ht as (c & <- & _). reflexivity. }
  split; [|split; [|split]].
  - unfold totalsByCategory. rewrite map_map. simpl. reflexivity.
  - exact Hentry.
  - intros t Ht Hnone. rewrite (Hentry t Ht), ofCategory_none; auto.
  - rewrite (ofCategory_partition CATEGORIES expenses CATEGORIES_NoDup).
    rewrite filter_all; [reflexivity|].
    intros r _. apply existsb_exists. exists (category r).
    split; [apply CATEGORIES_complete | now apply Category_eqb_eq].
Qed.

(* ================================================================== *)
(** * Numbers: order and addition of amounts *)
(* ================================================================== *)

Section FloatKeys.

Lemma SFleb_key (x y : spec_float) :
  SFleb x y = true <->
  x <> S754_nan /\ y <> S754_nan /\ keyLe (SFkey x) (SFkey y).
Proof.
  unfold SFleb.
  destruct x as [[]|[]| |[] mx ex], y as [[]|[]| |[] my ey]; simpl;
    try (split; [intros _; repeat split; (congruence || lia)
                | reflexivity]);
    try (split; [discriminate | intros (? & ? & ?); (congruence || lia)]);
    change (Pos.compare_cont Eq mx my) with (Pos.compare mx my);
    destruct (Z.compare_spec ex ey) as [He|He|He];
    destruct (Pos.compare_spec mx my) as [Hm|Hm|Hm];
      simpl; subst;
      (split; [intros Hc; try discriminate; repeat split; (congruence || lia)
              | intros (_ & _ & Hk); try reflexivity; lia]).
Qed.

Lemma SFltb_key (x y : spec_float) :
  SFltb x y = true <->
  x <> S754_nan /\ y <> S754_nan /\ keyLt (SFkey x) (SFkey y).
Proof.
  unfold SFltb.
  destruct x as [[]|[]| |[] mx ex], y as [[]|[]| |[] my ey]; simpl;
    try (split; [intros _; repeat split; (congruence || lia)
                | reflexivity]);
    try (split; [discriminate | intros (? & ? & ?); (congruence || lia)]);
    change (Pos.compare_cont Eq mx my) with (Pos.compare mx my);
    destruct (Z.compare_spec ex ey) as [He|He|He];
    destruct (Pos.compare_spec mx my) as [Hm|Hm|Hm];
      simpl; subst;
      (split; [intros Hc; try discriminate; repeat split; (congruence || lia)
              | intros (_ & _ & Hk); try reflexivity; lia]).
Qed.

Lemma leb_key (x y : float) :
  (x <=? y)%float = true <-> notNaN x /\ notNaN y /\ keyLe (key x) (key y).
Proof. rewrite leb_spec. apply SFleb_key. Qed.

Lemma ltb_key (x y : float) :
  (x <? y)%float = true <-> notNaN x /\ notNaN y /\ keyLt (key x) (key y).
Proof. rewrite ltb_spec. apply SFltb_key. Qed.

End FloatKeys.

Section Addition.

(** Shifting and rounding keep a mantissa that is not negative so. *)
Lemma shr_1_nonneg (mrs : shr_record) :
  0 <= shr_m mrs -> 0 <= shr_m (shr_1 mrs).
Proof. destruct mrs as [[|[p|p|]|[p|p|]] r s]; simpl; lia. Qed.

Lemma iter_pos_nonneg (p : positive) :
  forall mrs, 0 <= shr_m mrs -> 0 <= shr_m (iter_pos shr_1 p mrs).
Proof.
  induction p as [p IH|p IH|]; intros mrs H; simpl;
    auto using shr_1_nonneg.
Qed.

Lemma shr_fexp_nonneg (m e : Z) (l : location) :
  0 <= m -> 0 <= shr_m (fst (shr_fexp prec emax m e l)).
Proof.
  intros H. unfold shr_fexp, shr.
  assert (H0 : 0 <= shr_m (shr_record_of_loc m l)) by (destruct l as [|[]]; exact H).
  destruct (fexp prec emax (Zdigits2 m + e) - e); simpl;
    auto using iter_pos_nonneg.
Qed.

Lemma round_nearest_even_nonneg (m : Z) (l : location) :
  0 <= m -> 0 <= round_nearest_even m l.
Proof. intros H. destruct l as [|[]]; simpl; try lia. destruct (Z.even m); lia. Qed.

Lemma binary_round_aux_nonneg (m e : Z) (l : location) :
  0 <= m ->
  SFleb (S754_zero false) (binary_round_aux prec emax false m e l) = true.
Proof.
  intros H. unfold binary_round_aux.
  pose proof (shr_fexp_nonneg m e l H) as H1.
  destruct (shr_fexp prec emax m e l) as [mrs' e']. simpl in H1.
  pose proof (shr_fexp_nonneg _ e' loc_Exact
                (round_nearest_even_nonneg _ (loc_of_shr_record mrs') H1)) as H2.
  destruct (shr_fexp prec emax _ e' loc_Exact) as [mrs'' e'']. simpl in H2.
  destruct (shr_m mrs'') as [|p|p]; [reflexivity | | lia].
  destruct (e'' <=? emax - prec); reflexivity.
Qed.

Lemma SFadd_nonneg (x y : spec_float) :
  SFleb (S754_zero false) x = true -> SFleb (S754_zero false) y = true ->
  SFleb (S754_zero false) (SFadd prec emax x y) = true.
Proof.
  destruct x as [[]|[]| |[] mx ex], y as [[]|[]| |[] my ey];
    try discriminate; try (intros; reflexivity).
  intros _ _. unfold SFadd, cond_Zopp, binary_normalize.
  simpl Z.add. unfold binary_round.
  destruct (shl_align _ _ _) as [mz ez].
  now apply binary_round_aux_nonneg.
Qed.

Lemma add_nonNegative (x y : float) :
  nonNegative x -> nonNegative y -> nonNegative (x + y)%float.
Proof.
  unfold nonNegative. rewrite !leb_spec, add_spec, Prim2SF_zero.
  apply SFadd_nonneg.
Qed.

Lemma sumAmounts_nonNegative (l : list Expense) :
  (forall r, In r l -> nonNegative (amount r)) -> nonNegative (sumAmounts l).
Proof.
  unfold sumAmounts.
  assert (H0 : nonNegative 0%float) by reflexivity.
  revert H0. generalize 0%float as start.
  induction l as [|r l IH]; intros start Hs Hl; simpl; [exact Hs|].
  apply IH.
  - apply add_nonNegative; [exact Hs | apply Hl; simpl; auto].
  - intros r' Hr'. apply Hl. simpl. auto.
Qed.

Lemma totals_nonNegative (expenses : list Expense) :
  (forall r, In r expenses -> nonNegative (amount r)) ->
  forall t, In t (totalsByCategory expenses) -> nonNegative (Total.total t).
Proof.
  intros H t Ht. unfold totalsByCategory in Ht.
  apply in_map_iff in Ht as (c & <- & _). simpl.
  apply sumAmounts_nonNegative.
  intros r Hr. apply filter_In in Hr as [Hr _]. auto.
Qed.

End Addition.

(* ================================================================== *)
(** * The top category *)
(* ================================================================== *)

Section TopCategory.

Lemma nonNegative_notNaN (x : float) : nonNegative x -> notNaN x.
Proof. unfold nonNegative. rewrite leb_key. tauto. Qed.

Lemma zero_or_positive (x : float) :
  nonNegative x -> (0 <? x)%float = false -> (x =? 0)%float = true.
Proof.
  unfold nonNegative. rewrite leb_spec, ltb_spec, eqb_spec, Prim2SF_zero.
  unfold SFleb, SFltb, SFeqb.
  destruct (Prim2SF x) as [[]|[]| |[] m e]; simpl; congruence.
Qed.

(** Where the fold of [topCategory] ends, started from any entry [init]:
    at an entry no total exceeds; at [init] itself when no total exceeds
    it, and otherwise at the first entry with the largest total. *)
Lemma pickLarger_fold (totals : list Total) :
  forall init,
    notNaN (Total.total init) ->
    (forall t, In t totals -> notNaN (Total.total t)) ->
    let top := fold_left pickLarger totals init in
    (Total.total init <=? Total.total top)%float = true /\
    (forall t, In t totals -> (Total.total t <=? Total.total top)%float = true) /\
    ((top = init /\
      forall t, In t totals -> (Total.total t <=? Total.total init)%float = true) \/
     (exists before after,
         totals = before ++ top :: after /\
         (Total.total init <? Total.total top)%float = true /\
         forall t, In t before -> (Total.total t <? Total.total top)%float = true)).
Proof.
  induction totals as [|c rest IH]; intros init Hinit Hall; cbn [fold_left].
  - split; [|split].
    + apply leb_key. repeat split; auto. unfold keyLe.
      destruct (key (Total.total init)) as [[a b] d]. lia.
    + intros t [].
    + left. split; [reflexivity | intros t []].
  - assert (Hc : notNaN (Total.total c)) by (apply Hall; simpl; auto).
    assert (Hrest : forall t, In t rest -> notNaN (Total.total t))
      by (intros t Ht; apply Hall; simpl; auto).
    destruct (Total.total init <? Total.total c)%float eqn:Hlt.
    + assert (Hstep : pickLarger init c = c)
        by (unfold pickLarger; now rewrite Hlt).
      rewrite Hstep.
      destruct (IH c Hc Hrest) as (Hctop & Hmax & Hfirst).
      set (top := fold_left pickLarger rest c) in *.
      assert (Hinit_top : (Total.total init <? Total.total top)%float = true).
      { apply ltb_key in Hlt as (_ & _ & Hlt).
        apply leb_key in Hctop as (_ & Htop & Hctop).
        apply ltb_key. repeat split; auto.
        unfold keyLt, keyLe in *.
        destruct (key (Total.total init)) as [[a1 a2] a3],
                 (key (Total.total c)) as [[b1 b2] b3],
                 (key (Total.total top)) as [[c1 c2] c3]. lia. }
      split; [|split].
      * apply ltb_key in Hinit_top as (? & ? & Hk). apply leb_key.
        repeat split; auto. unfold keyLt, keyLe in *.
        destruct (key (Total.total init)) as [[a1 a2] a3],
                 (key (Total.total top)) as [[c1 c2] c3]. lia.
      * intros t [<-|Ht]; auto.
      * right. destruct Hfirst as [[Htop _]|(before & after & Hsplit & Hct & Hbefore)].
        -- exists [], rest. split; [now rewrite Htop|].
           split; [exact Hinit_top | intros t []].
        -- exists (c :: before), after. split; [now rewrite Hsplit at 1|].
           split; [exact Hinit_top|].
           intros t [<-|Ht]; auto.
    + assert (Hstep : pickLarger init c = init)
        by (unfold pickLarger; now rewrite Hlt).
      rewrite Hstep.
      destruct (IH init Hinit Hrest) as (Hitop & Hmax & Hfirst).
      set (top := fold_left pickLarger rest init) in *.
      assert (Hc_init : (Total.total c <=? Total.total init)%float = true).
      { apply leb_key. repeat split; auto.
        assert (Hn : ~ keyLt (key (Total.total init)) (key (Total.total c))).
        { intros Hk. assert (E : (Total.total init <? Total.total c)%float = true)
            by (apply ltb_key; auto). congruence. }
        unfold keyLt, keyLe in *.
        destruct (key (Total.total init)) as [[a1 a2] a3],
                 (key (Total.total c)) as [[b1 b2] b3]. lia. }
      split; [exact Hitop|]. split.
      * intros t [<-|Ht]; auto.
        apply leb_key in Hc_init as (? & ? & H1).
        apply leb_key in Hitop as (_ & ? & H2).
        apply leb_key. repeat split; auto. unfold keyLe in *.
        destruct (key (Total.total init)) as [[a1 a2] a3],
                 (key (Total.total c)) as [[b1 b2] b3],
                 (key (Total.total top)) as [[c1 c2] c3]. lia.
      * destruct Hfirst as [[Htop Hle]|(before & after & Hsplit & Hit & Hbefore)].
        -- left. split; [exact Htop|]. intros t [<-|Ht]; auto.
        -- right. exists (c :: before), after. split; [now rewrite Hsplit at 1|].
           split; [exact Hit|].
           intros t [<-|Ht]; auto.
           apply leb_key in Hc_init as (? & _ & H1).
           apply ltb_key in Hit as (_ & ? & H2).
           apply ltb_key. repeat split; auto. unfold keyLe, keyLt in *.
           destruct (key (Total.total init)) as [[a1 a2] a3],
                    (key (Total.total c)) as [[b1 b2] b3],
                    (key (Total.total top)) as [[c1 c2] c3]. lia.
Qed.

End TopCategory.

(** C9: for the totals of a collection whose amounts are not negative,
    [topCategory] returns an entry that no total exceeds; when some total is
    above zero it is an entry of the list and every entry before it has a
    smaller total, so of several entries with the largest total it is the
    first in the order of the enumeration; and when every total is zero it is
    Food with total 0. *)
Theorem topCategory_is_first_maximum (expenses : list Expense) :
  (forall r, In r expenses -> nonNegative (amount r)) ->
  let totals := totalsByCategory expenses in
  let top := topCategory totals in
  (forall t, In t totals -> (Total.total t <=? Total.total top)%float = true) /\
  ((exists t, In t totals /\ (0 <? Total.total t)%float = true) ->
   exists before after,
     totals = before ++ top :: after /\
     forall t, In t before -> (Total.total t <? Total.total top)%float = true) /\
  ((forall t, In t totals -> (Total.total t =? 0)%float = true) ->
   top = {| Total.category := Food; Total.total := 0%float |}) /\
  ((exists t, In t totals /\ (0 <? Total.total t)%float = true) \/
   (forall t, In t totals -> (Total.total t =? 0)%float = true)).
Proof.
  intros Hamounts totals top.
  pose proof (totals_nonNegative expenses Hamounts) as Hnn. fold totals in Hnn.
  assert (Hall : forall t, In t totals -> notNaN (Total.total t))
    by (intros t Ht; apply nonNegative_notNaN, Hnn, Ht).
  set (init := {| Total.category := Food; Total.total := 0%float |}).
  assert (Hinit : notNaN (Total.total init)) by (simpl; unfold notNaN; rewrite Prim2SF_zero; discriminate).
  destruct (pickLarger_fold totals init Hinit Hall) as (_ & Hmax & Hfirst).
  change (fold_left pickLarger totals init) with top in *.
  split; [exact Hmax|]. split; [|split].
  - intros (t & Ht & Hpos).
    destruct Hfirst as [[_ Hle]|(before & after & Hsplit & _ & Hbefore)]; eauto.
    exfalso. specialize (Hle t Ht). simpl in Hle.
    apply ltb_key in Hpos as (_ & _ & H1). apply leb_key in Hle as (_ & _ & H2).
    unfold keyLt, keyLe in *.
    destruct (key 0%float) as [[a1 a2] a3], (key (Total.total t)) as [[b1 b2] b3]. lia.
  - intros Hzero.
    destruct Hfirst as [[Htop _]|(before & after & Hsplit & Hlt & _)]; [exact Htop|].
    exfalso.
    assert (Hin : In top totals) by (rewrite Hsplit; apply in_elt).
    specialize (Hzero top Hin). simpl in Hlt.
    rewrite eqb_spec in Hzero. rewrite ltb_spec in Hlt.
    rewrite Prim2SF_zero in *. unfold SFeqb, SFltb in *.
    destruct (Prim2SF (Total.total top)) as [[]|[]| |[] m e]; simpl in *; discriminate.
  - destruct (existsb (fun t => (0 <? Total.total t)%float) totals) eqn:E.
    + left. apply existsb_exists in E. exact E.
    + right. intros t Ht. apply zero_or_positive; [apply Hnn, Ht|].
      destruct (0 <? Total.total t)%float eqn:Hpos; [|reflexivity].
      assert (E' : existsb (fun t => (0 <? Total.total t)%float) totals = true)
        by (apply existsb_exists; eauto).
      congruence.
Qed.

Lemma topCategory_is_first_maximum_witness :
  (forall r, In r [coffee; bus] -> nonNegative (amount r)) /\
  topCategory (totalsByCategory [coffee; bus]) =
  {| Total.category := Food; Total.total := 4.5%float |} /\
  forall t, In t (totalsByCategory [coffee; bus]) ->
            (Total.total t <=? Total.total (topCategory (totalsByCategory [coffee; bus])))%float = true.
Proof.
  assert (H : forall r, In r [coffee; bus] -> nonNegative (amount r))
    by (intros r [<-|[<-|[]]]; reflexivity).
  split; [exact H|]. split; [reflexivity|].
  exact (proj1 (topCategory_is_first_maximum [coffee; bus] H)).
Defined.

(* ================================================================== *)
(** * More about the filtered view *)
(* ================================================================== *)

Section ListFacts.
Context {A : Type}.

Lemma Permutation_filter (p : A -> bool) (l l' : list A) :
  Permutation l l' -> Permutation (filter p l) (filter p l').
Proof.
  induction 1 as [|x l l' _ IH|x y l|l l' l'' _ IH1 _ IH2]; simpl.
  - constructor.
  - destruct (p x); auto.
  - destruct (p x), (p y); auto. apply perm_swap.
  - now transitivity (filter p l').
Qed.

Lemma filter_filter (p q : A -> bool) (l : list A) :
  filter p (filter q l) = filter (fun x => q x && p x) l.
Proof.
  induction l as [|x l IH]; simpl; [reflexivity|].
  destruct (q x); simpl; [destruct (p x)|]; now rewrite IH.
Qed.

Lemma filter_length_le (p : A -> bool) (l : list A) :
  (List.length (filter p l) <= List.length l)%nat.
Proof. induction l as [|x l IH]; simpl; [lia|]. destruct (p x); simpl; lia. Qed.

Lemma filter_length_all (p : A -> bool) (l : list A) :
  List.length (filter p l) = List.length l -> forall x, In x l -> p x = true.
Proof.
  induction l as [|y l IH]; simpl; [intros _ x []|].
  pose proof (filter_length_le p l) as Hle.
  destruct (p y) eqn:Hy; simpl; intros Hlen x [<-|Hx]; auto; try lia.
Qed.

Lemma StronglySorted_nth (R : A -> A -> Prop) (l : list A) :
  StronglySorted R l ->
  forall i j a b,
    (i < j)%nat -> nth_error l i = Some a -> nth_error l j = Some b -> R a b.
Proof.
  induction 1 as [|x l Hs IH Hf]; intros i j a b Hij Hi Hj.
  - destruct i; discriminate.
  - destruct j as [|j]; [lia|]. simpl in Hj.
    destruct i as [|i]; simpl in Hi.
    + injection Hi as <-. apply nth_error_In in Hj.
      now apply (proj1 (Forall_forall _ _) Hf).
    + apply (IH i j); auto. lia.
Qed.
End ListFacts.

Lemma includes_trans (x y z : string) :
  JS.includes x y = true -> JS.includes y z = true -> JS.includes x z = true.
Proof.
  rewrite !includes_iff. intros (pre & post & ->) (pre' & post' & ->).
  exists (pre ++ pre')%string, (post' ++ post)%string.
  now rewrite !append_assoc.
Qed.

Lemma matchesFilters_cleared (r : Expense) :
  matchesFilters {| Filters.search := ""; Filters.category := All;
                    Filters.from := ""; Filters.to := "" |} r = true.
Proof.
  apply matchesFilters_iff. unfold Spec.Keeps. simpl. repeat split; auto.
  - apply containsIgnoringCase_empty.
  - congruence.
  - congruence.
Qed.

Section SameDates.

Lemma dateLe_antisym (a b : string) :
  Spec.dateLe a b -> Spec.dateLe b a -> a = b.
Proof.
  unfold Spec.dateLe. intros Hab Hba.
  rewrite String.compare_antisym in Hba.
  destruct (String.compare a b) eqn:E; simpl in Hba; try congruence.
  now apply String.compare_eq_iff.
Qed.

Lemma dateLe_refl (a : string) : Spec.dateLe a a.
Proof.
  unfold Spec.dateLe.
  intros H. pose proof (String.compare_antisym a a) as E.
  rewrite H in E. discriminate.
Qed.

(** The dates of a list that is newest first, from the first to the last. *)
Lemma newest_first_dates (view : list Expense) :
  StronglySorted Spec.newestFirst view ->
  StronglySorted (fun later earlier => Spec.dateLe earlier later) (map date view).
Proof.
  induction 1 as [|r view Hs IH Hf]; simpl; constructor; [exact IH|].
  apply Forall_map. revert Hf. apply Forall_impl. intros r' H. exact H.
Qed.

Lemma newest_first_without (target : string) (view : list Expense) :
  StronglySorted Spec.newestFirst view ->
  StronglySorted Spec.newestFirst (deleteExpense target view).
Proof.
  unfold deleteExpense.
  induction 1 as [|r view Hs IH Hf]; simpl; [constructor|].
  destruct (negb (id r =? target)%string); [|exact IH].
  constructor; [exact IH|].
  apply Forall_forall. intros r' Hr'. apply filter_In in Hr' as [Hr' _].
  rewrite Forall_forall in Hf. now apply Hf.
Qed.

(** Dates in descending order are in one order only. *)
Lemma descending_dates_unique (dates dates' : list string) :
  Permutation dates dates' ->
  StronglySorted (fun later earlier => Spec.dateLe earlier later) dates ->
  StronglySorted (fun later earlier => Spec.dateLe earlier later) dates' ->
  dates = dates'.
Proof.
  revert dates'. induction dates as [|a dates IH]; intros dates' Hp Hs Hs'.
  - apply Permutation_nil in Hp. now subst.
  - destruct dates' as [|b dates'].
    + symmetry in Hp. apply Permutation_nil in Hp. discriminate.
    + apply StronglySorted_inv in Hs as [Hs Ha].
      apply StronglySorted_inv in Hs' as [Hs' Hb].
      rewrite Forall_forall in Ha, Hb.
      assert (Hab : Spec.dateLe a b).
      { assert (Hin : In a (b :: dates'))
          by (apply (Permutation_in _ Hp); simpl; auto).
        destruct Hin as [->|Hin]; [apply dateLe_refl | now apply Hb]. }
      assert (Hba : Spec.dateLe b a).
      { assert (Hin : In b (a :: dates))
          by (apply (Permutation_in _ (Permutation_sym Hp)); simpl; auto).
        destruct Hin as [->|Hin]; [apply dateLe_refl | now apply Ha]. }
      assert (E : a = b) by now apply dateLe_antisym.
      subst b. f_equal. apply IH; auto.
      now apply Permutation_cons_inv with (a := a).
Qed.

(** Two rearrangements of the same records that show the same dates at the
    same places differ at most among records of one date: when no two
    records share a date they are the same list. *)
Lemma same_dates_same_view (view view' : list Expense) :
  Permutation view view' -> map date view = map date view' ->
  NoDup (map date view) -> view = view'.
Proof.
  revert view'. induction view as [|r view IH]; intros view' Hp Hd Hnd.
  - apply Permutation_nil in Hp. now subst.
  - destruct view' as [|r' view']; [discriminate|].
    simpl in Hd. injection Hd as Hr Hd.
    inversion Hnd as [|? ? Hnotin Hnd']; subst.
    assert (E : r = r').
    { assert (Hin : In r' (r :: view))
        by (apply (Permutation_in _ (Permutation_sym Hp)); simpl; auto).
      destruct Hin as [Hin|Hin]; [exact Hin|].
      exfalso. apply Hnotin. rewrite Hr. now apply in_map. }
    subst r'. f_equal. apply IH; auto.
    now apply Permutation_cons_inv with (a := r).
Qed.

End SameDates.

Section MoreOfTheView.
Variable engine : JS.SortEngine.
Hypothesis lawful : JS.LawfulSort engine.

Lemma view_perm (expenses : list Expense) (filters : Filters) :
  Permutation (filter (matchesFilters filters) expenses)
              (filteredExpenses engine expenses filters).
Proof. apply lawful. Qed.

(** X1: on every lawful engine the view is in descending order of date: a
    record never comes before one of a later date, whatever the collection
    and the filters. *)
Theorem view_is_newest_first (expenses : list Expense) (filters : Filters) :
  forall i j earlier later,
    (i < j)%nat ->
    nth_error (filteredExpenses engine expenses filters) i = Some earlier ->
    nth_error (filteredExpenses engine expenses filters) j = Some later ->
    JS.lt (date earlier) (date later) = false.
Proof.
  intros i j a b Hij Hi Hj.
  assert (Hs : StronglySorted Spec.newestFirst (filteredExpenses engine expenses filters)).
  { apply lawful; [exact newestFirst_trans | exact byDateDescending_agrees]. }
  pose proof (StronglySorted_nth _ _ Hs i j a b Hij Hi Hj) as H.
  unfold Spec.newestFirst in H. apply ge_iff in H.
  unfold JS.ge in H. now apply negb_true_iff in H.
Qed.

(** X2: with the filters cleared ("Clear all", and the filters the page
    starts with) the view holds every record of the collection, each once,
    and the result count is the size of the collection. *)
Theorem cleared_filters_show_everything (st : State) :
  Permutation (expenses st)
              (filteredExpenses engine (expenses st) (filters (clearFilters st))) /\
  totalFiltered engine (expenses st) (filters (clearFilters st))
  = List.length (expenses st) /\
  filters (clearFilters st) = filters (initialState {| randomUUID := ""; now := 0%float; today := "" |}).
Proof.
  assert (Hp : Permutation (expenses st)
                 (filteredExpenses engine (expenses st) (filters (clearFilters st)))).
  { rewrite <- view_perm. simpl.
    rewrite filter_all; [reflexivity|]. intros r _. apply matchesFilters_cleared. }
  split; [exact Hp|]. split; [|reflexivity].
  unfold totalFiltered. symmetry. now apply Permutation_length.
Qed.

(** X3: choosing a category in the filter panel shows exactly the records of
    that category among those shown for "All", the other filters unchanged. *)
Theorem category_filter_narrows_the_view (st : State) (c : Category) :
  let viewAll :=
    filteredExpenses engine (expenses st)
      (filters (handleFilterChange (ChangeFilterCategory All) st)) in
  let viewOfCategory :=
    filteredExpenses engine (expenses st)
      (filters (handleFilterChange (ChangeFilterCategory (Only c)) st)) in
  Permutation (filter (fun r => Category_eqb (category r) c) viewAll) viewOfCategory /\
  (forall r, In r viewOfCategory <-> In r viewAll /\ category r = c).
Proof.
  intros viewAll viewOfCategory.
  assert (Hp : Permutation (filter (fun r => Category_eqb (category r) c) viewAll)
                           viewOfCategory).
  { subst viewAll viewOfCategory.
    etransitivity;
      [apply Permutation_filter; symmetry; apply view_perm|].
    etransitivity; [|apply view_perm].
    rewrite filter_filter. simpl.
    erewrite filter_ext; [reflexivity|].
    intros r. unfold matchesFilters. simpl.
    destruct (Category_eqb (category r) c); simpl;
      [now rewrite andb_true_r | now rewrite andb_false_r]. }
  split; [exact Hp|].
  intros r. split.
  - intros H. apply (Permutation_in _ (Permutation_sym Hp)) in H.
    apply filter_In in H as [H1 H2]. split; [exact H1|].
    now apply Category_eqb_eq.
  - intros [H1 H2]. apply (Permutation_in _ Hp). apply filter_In.
    split; [exact H1|]. now apply Category_eqb_eq.
Qed.

(** X4: refining the search text never adds a record: when the new text,
    trimmed and up to case, contains the old one, every record shown for the
    new text was shown for the old one. *)
Theorem refined_search_narrows_the_view (st : State) (old new : string) :
  JS.includes (JS.toLowerCase (JS.trim new)) (JS.toLowerCase (JS.trim old)) = true ->
  forall r,
    In r (filteredExpenses engine (expenses st)
            (filters (handleFilterChange (ChangeSearch new) st))) ->
    In r (filteredExpenses engine (expenses st)
            (filters (handleFilterChange (ChangeSearch old) st))).
Proof.
  intros Hsub r Hr.
  apply (Permutation_in _ (Permutation_sym (view_perm _ _))) in Hr.
  apply (Permutation_in _ (view_perm _ _)).
  apply filter_In in Hr as [Hin Hm]. apply filter_In. split; [exact Hin|].
  unfold matchesFilters in *. simpl in *.
  apply andb_true_iff in Hm as [Hm Hto].
  apply andb_true_iff in Hm as [Hm Hfrom].
  apply andb_true_iff in Hm as [Hcat Hsearch].
  rewrite Hcat, Hfrom, Hto, (includes_trans _ _ _ Hsearch Hsub). reflexivity.
Qed.

(** X5: a date range whose end is set and is before its start shows
    nothing. *)
Theorem inverted_date_range_shows_nothing (expenses : list Expense)
        (filters : Filters) :
  Filters.to filters <> "" ->
  JS.lt (Filters.to filters) (Filters.from filters) = true ->
  filteredExpenses engine expenses filters = [] /\
  totalFiltered engine expenses filters = O.
Proof.
  intros Hto Hlt.
  assert (Hfrom : Filters.from filters <> "").
  { intros E. rewrite E in Hlt. unfold JS.lt, String.ltb in Hlt.
    destruct (Filters.to filters); simpl in Hlt; discriminate. }
  assert (Hnone : filter (matchesFilters filters) expenses = []).
  { induction expenses as [|r l IH]; simpl; [reflexivity|].
    destruct (matchesFilters filters r) eqn:Hm; [|exact IH].
    exfalso. apply matchesFilters_iff in Hm as (_ & _ & Hf & Ht).
    pose proof (dateLe_trans _ _ _ (Hf Hfrom) (Ht Hto)) as Hle.
    apply le_iff in Hle. unfold JS.le in Hle. rewrite Hlt in Hle. discriminate. }
  assert (Hview : filteredExpenses engine expenses filters = []).
  { apply Permutation_nil. rewrite <- Hnone at 1. apply view_perm. }
  split; [exact Hview|]. unfold totalFiltered. now rewrite Hview.
Qed.

(** X6: the result count is the number of records that pass the filters; it
    never exceeds the size of the collection, and reaches it only when every
    record passes. *)
Theorem result_count (expenses : list Expense) (filters : Filters) :
  totalFiltered engine expenses filters
  = List.length (filter (matchesFilters filters) expenses) /\
  (totalFiltered engine expenses filters <= List.length expenses)%nat /\
  (totalFiltered engine expenses filters = List.length expenses ->
   forall r, In r expenses -> Spec.Keeps filters r).
Proof.
  assert (Hlen : totalFiltered engine expenses filters
                 = List.length (filter (matchesFilters filters) expenses)).
  { unfold totalFiltered. symmetry. apply Permutation_length, view_perm. }
  split; [exact Hlen|]. rewrite Hlen. split.
  - apply filter_length_le.
  - intros E r Hr. apply matchesFilters_iff.
    now apply (filter_length_all _ _ E).
Qed.

(** X7: deleting a record and filtering commute, up to the order of records
    of the same date: the view of the collection without the record holds
    the records of the view of the collection, without the record, and shows
    the same dates at the same places, both being newest first; when no two
    records of the collection share a date the two are the same list.  No
    record of the deleted id is left in it. *)
Theorem delete_then_view (target : string) (expenses : list Expense)
        (filters : Filters) :
  Permutation (filteredExpenses engine (deleteExpense target expenses) filters)
              (deleteExpense target (filteredExpenses engine expenses filters)) /\
  map date (filteredExpenses engine (deleteExpense target expenses) filters)
  = map date (deleteExpense target (filteredExpenses engine expenses filters)) /\
  (NoDup (map date expenses) ->
   filteredExpenses engine (deleteExpense target expenses) filters
   = deleteExpense target (filteredExpenses engine expenses filters)) /\
  forall r, In r (filteredExpenses engine (deleteExpense target expenses) filters) ->
            id r <> target.
Proof.
  assert (Hp : Permutation
                 (filteredExpenses engine (deleteExpense target expenses) filters)
                 (deleteExpense target (filteredExpenses engine expenses filters))).
  { etransitivity; [symmetry; apply view_perm|].
    etransitivity;
      [|unfold deleteExpense at 1; apply Permutation_filter, view_perm].
    unfold deleteExpense. rewrite !filter_filter.
    erewrite filter_ext; [reflexivity|]. intros r. apply andb_comm. }
  assert (Hdates :
            map date (filteredExpenses engine (deleteExpense target expenses) filters)
            = map date (deleteExpense target (filteredExpenses engine expenses filters))).
  { apply descending_dates_unique.
    - now apply Permutation_map.
    - apply newest_first_dates, filtered_newest_first, lawful.
    - apply newest_first_dates, newest_first_without, filtered_newest_first, lawful. }
  split; [exact Hp|]. split; [exact Hdates|]. split.
  { intros Hnd. apply same_dates_same_view; [exact Hp | exact Hdates|].
    assert (Hview : Permutation (filteredExpenses engine (deleteExpense target expenses) filters)
                      (filter (matchesFilters filters) (deleteExpense target expenses)))
      by (symmetry; apply view_perm).
    apply (Permutation_NoDup (Permutation_map date (Permutation_sym Hview))).
    unfold deleteExpense. rewrite filter_filter.
    clear - Hnd. induction expenses as [|r l IH]; simpl; [constructor|].
    inversion Hnd as [|? ? Hr Hl]; subst.
    destruct (_ && _); simpl; [|now apply IH].
    constructor; [|now apply IH].
    intros Hin. apply Hr. apply in_map_iff in Hin as (r' & E & Hin).
    apply filter_In in Hin as [Hin _]. apply in_map_iff. eauto. }
  intros r Hr. apply (Permutation_in _ Hp) in Hr.
  unfold deleteExpense in Hr. apply filter_In in Hr as [_ Hr].
  apply negb_true_iff, String.eqb_neq in Hr. exact Hr.
Qed.

End MoreOfTheView.

Lemma view_is_newest_first_witness :
  nth_error (filteredExpenses JS.V8 [coffee; bus] noFilters) 0 = Some bus /\
  nth_error (filteredExpenses JS.V8 [coffee; bus] noFilters) 1 = Some coffee /\
  JS.lt (date bus) (date coffee) = false.
Proof.
  split; [reflexivity|]. split; [reflexivity|].
  exact (view_is_newest_first JS.V8 V8_lawful [coffee; bus] noFilters
           0%nat 1%nat bus coffee (Nat.lt_succ_diag_r 0) eq_refl eq_refl).
Defined.

Lemma cleared_filters_show_everything_witness :
  Permutation (expenses addingTea)
    (filteredExpenses JS.V8 (expenses addingTea) (filters (clearFilters addingTea))) /\
  totalFiltered JS.V8 (expenses addingTea) (filters (clearFilters addingTea)) = 2%nat.
Proof.
  split.
  - exact (proj1 (cleared_filters_show_everything JS.V8 V8_lawful addingTea)).
  - exact (proj1 (proj2 (cleared_filters_show_everything JS.V8 V8_lawful addingTea))).
Defined.

Lemma category_filter_narrows_the_view_witness :
  In coffee (filteredExpenses JS.V8 [coffee; bus]
               (filters (handleFilterChange (ChangeFilterCategory (Only Food)) addingTea))) <->
  In coffee (filteredExpenses JS.V8 [coffee; bus]
               (filters (handleFilterChange (ChangeFilterCategory All) addingTea))) /\
  category coffee = Food.
Proof.
  exact (proj2 (category_filter_narrows_the_view JS.V8 V8_lawful addingTea Food) coffee).
Defined.

Lemma refined_search_narrows_the_view_witness :
  JS.includes (JS.toLowerCase (JS.trim "Coffee ")) (JS.toLowerCase (JS.trim " co")) = true /\
  (In coffee (filteredExpenses JS.V8 (expenses addingTea)
                (filters (handleFilterChange (ChangeSearch "Coffee ") addingTea))) ->
   In coffee (filteredExpenses JS.V8 (expenses addingTea)
                (filters (handleFilterChange (ChangeSearch " co") addingTea)))).
Proof.
  split; [reflexivity|].
  exact (refined_search_narrows_the_view JS.V8 V8_lawful addingTea
           " co" "Coffee " eq_refl coffee).
Defined.

Lemma inverted_date_range_shows_nothing_witness :
  filteredExpenses JS.V8 [coffee; bus]
    {| Filters.search := ""; Filters.category := All;
       Filters.from := "2024-02-01"; Filters.to := "2024-01-01" |} = [].
Proof.
  assert (Hto : "2024-01-01" <> "") by discriminate.
  exact (proj1 (inverted_date_range_shows_nothing JS.V8 V8_lawful [coffee; bus]
                  {| Filters.search := ""; Filters.category := All;
                     Filters.from := "2024-02-01"; Filters.to := "2024-01-01" |}
                  Hto eq_refl)).
Defined.

Lemma result_count_witness :
  totalFiltered JS.V8 [coffee; bus] foodIn2024 = 1%nat /\
  (totalFiltered JS.V8 [coffee; bus] foodIn2024 <= 2)%nat.
Proof.
  split; [reflexivity|].
  exact (proj1 (proj2 (result_count JS.V8 V8_lawful [coffee; bus] foodIn2024))).
Defined.

Lemma delete_then_view_witness :
  Permutation (filteredExpenses JS.V8 (deleteExpense "b05" [coffee; bus]) noFilters)
              (deleteExpense "b05" (filteredExpenses JS.V8 [coffee; bus] noFilters)) /\
  map date (filteredExpenses JS.V8 (deleteExpense "l1" [dinner; bus; lunch]) noFilters)
  = map date (deleteExpense "l1" (filteredExpenses JS.V8 [dinner; bus; lunch] noFilters)) /\
  filteredExpenses JS.V8 (deleteExpense "b05" [coffee; bus]) noFilters = [coffee].
Proof.
  split; [|split; [|reflexivity]].
  - exact (proj1 (delete_then_view JS.V8 V8_lawful "b05" [coffee; bus] noFilters)).
  - exact (proj1 (proj2 (delete_then_view JS.V8 V8_lawful "l1" [dinner; bus; lunch]
                           noFilters))).
Defined.

(* ================================================================== *)
(** * More about submit and delete *)
(* ================================================================== *)

Section Handlers.

Lemma Blank_trim_iff (s : string) : Spec.Blank (JS.trim s) <-> Spec.Blank s.
Proof. rewrite <- !trim_empty_iff, trim_idempotent. reflexivity. Qed.

Lemma valid_draft (draft : FormState) :
  validateForm draft = None ->
  ~ Spec.Blank (Form.description draft) /\ Form.date draft <> "" /\
  (0 <? JS.Number (Form.amount draft))%float = true.
Proof.
  intros Hv.
  destruct (validateForm_cases draft)
    as [(_ & E)|[(_ & _ & E)|[(_ & _ & _ & E)|(Hb & Hd & Ha & _)]]];
    try congruence. auto.
Qed.

Lemma handleSubmit_accepted (env : Env) (st : State) :
  validateForm (form st) = None ->
  handleSubmit env st =
  {| expenses :=
       if truthyOrNull (editingId st)
       then match editingId st with
            | Some editing =>
                updateExpenses editing (form st)
                  (JS.Number (Form.amount (form st))) (expenses st)
            | None => expenses st
            end
       else createExpense env (form st)
              (JS.Number (Form.amount (form st))) (expenses st);
     form := initialForm env;
     filters := filters st;
     editingId := None;
     status :=
       {| type := Some success;
          message := Some (if truthyOrNull (editingId st)
                           then "Expense updated" else "Expense added") |} |}.
Proof.
  intros Hv. unfold handleSubmit. rewrite Hv. simpl.
  destruct (truthyOrNull (editingId st)); reflexivity.
Qed.

Lemma deleteExpense_UniqueIds (target : string) (prev : list Expense) :
  Spec.UniqueIds prev -> Spec.UniqueIds (deleteExpense target prev).
Proof.
  unfold Spec.UniqueIds, deleteExpense.
  induction prev as [|r prev IH]; simpl; intros Hu; [constructor|].
  apply NoDup_cons_iff in Hu as [Hr Hu].
  destruct (negb (id r =? target)%string); simpl; [|now apply IH].
  apply NoDup_cons_iff. split; [|now apply IH].
  intros Hin. apply Hr. apply in_map_iff in Hin as (r' & Hid & Hin).
  apply filter_In in Hin as [Hin _]. apply in_map_iff. eauto.
Qed.

Lemma deleteExpense_absent (target : string) (prev : list Expense) :
  ~ In target (map id prev) -> deleteExpense target prev = prev.
Proof.
  intros H. unfold deleteExpense. apply filter_all.
  intros r Hr. apply negb_true_iff, String.eqb_neq.
  intros E. apply H. apply in_map_iff. eauto.
Qed.

Lemma deleteExpense_idempotent (target : string) (prev : list Expense) :
  deleteExpense target (deleteExpense target prev) = deleteExpense target prev.
Proof.
  unfold deleteExpense. rewrite filter_filter.
  apply filter_ext. intros r. apply andb_diag.
Qed.

Lemma updateExpenses_ids (editing : string) (draft : FormState) (x : float)
      (prev : list Expense) :
  map id (updateExpenses editing draft x prev) = map id prev.
Proof.
  unfold updateExpenses. rewrite map_map. apply map_ext.
  intros r. destruct (id r =? editing)%string; reflexivity.
Qed.

End Handlers.

(** X8: a valid draft submitted outside edit mode puts one new record in
    front of the collection: the drawn id, the draft's description trimmed,
    its amount as a number, its category and date, the present time; the
    record has a positive amount and a description that is neither blank nor
    padded; the form is reset to the initial draft and the status says
    "Expense added". *)
Theorem submit_adds_the_draft (env : Env) (st : State) :
  truthyOrNull (editingId st) = false ->
  validateForm (form st) = None ->
  let st' := handleSubmit env st in
  let added :=
    {| id := randomUUID env;
       description := JS.trim (Form.description (form st));
       amount := JS.Number (Form.amount (form st));
       category := Form.category (form st);
       date := Form.date (form st);
       createdAt := now env |} in
  expenses st' = added :: expenses st /\
  Spec.WellFormed added /\ date added <> "" /\
  form st' = initialForm env /\
  editingId st' = None /\
  filters st' = filters st /\
  status st' = {| type := Some success; message := Some "Expense added" |}.
Proof.
  intros Hmode Hv st' added. subst st'.
  rewrite (handleSubmit_accepted env st Hv), Hmode. simpl.
  destruct (valid_draft _ Hv) as (_ & Hd & _).
  repeat split; auto.
  - apply (newExpense_WellFormed env (form st) Hv).
  - apply (newExpense_WellFormed env (form st) Hv).
  - apply (newExpense_WellFormed env (form st) Hv).
Qed.

Lemma submit_adds_the_draft_witness :
  validateForm (form addingTea) = None /\
  expenses (handleSubmit env0 addingTea) =
  {| id := randomUUID env0; description := "Green tea"; amount := 3.2%float;
     category := Food; date := "2024-01-07"; createdAt := now env0 |}
  :: [coffee; bus] /\
  editingId (handleSubmit env0 addingTea) = None.
Proof.
  split; [reflexivity|].
  pose proof (submit_adds_the_draft env0 addingTea eq_refl eq_refl) as H.
  split; [exact (proj1 H) | exact (proj1 (proj2 (proj2 (proj2 (proj2 H)))))].
Defined.

(** X9: a valid draft submitted in edit mode changes no id, no creation
    time, not the number of records nor their order; records that validation
    would accept stay so and unique ids stay unique; the page leaves edit
    mode with the initial draft and the status "Expense updated". *)
Theorem submit_in_edit_mode_keeps_the_list (env : Env) (st : State)
        (editing : string) :
  editingId st = Some editing -> editing <> "" ->
  validateForm (form st) = None ->
  let st' := handleSubmit env st in
  map id (expenses st') = map id (expenses st) /\
  map createdAt (expenses st') = map createdAt (expenses st) /\
  (Forall Entered (expenses st) -> Forall Entered (expenses st')) /\
  (Spec.UniqueIds (expenses st) -> Spec.UniqueIds (expenses st')) /\
  form st' = initialForm env /\
  editingId st' = None /\
  status st' = {| type := Some success; message := Some "Expense updated" |}.
Proof.
  intros He Hne Hv st'. subst st'.
  assert (Hmode : truthyOrNull (editingId st) = true)
    by (rewrite He; simpl; now apply truthy_iff).
  rewrite (handleSubmit_accepted env st Hv), Hmode, He. simpl.
  destruct (valid_draft _ Hv) as (Hb & Hd & Ha).
  split; [apply updateExpenses_ids|].
  split.
  { unfold updateExpenses. rewrite map_map. apply map_ext.
    intros r. destruct (id r =? editing)%string; reflexivity. }
  split.
  { intros Hall. apply Forall_forall. intros r Hr.
    unfold updateExpenses in Hr. apply in_map_iff in Hr as (r0 & <- & Hr0).
    destruct (id r0 =? editing)%string.
    - unfold Entered. simpl. auto.
    - now apply (proj1 (Forall_forall _ _) Hall). }
  split.
  { unfold Spec.UniqueIds. now rewrite updateExpenses_ids. }
  auto.
Qed.

Lemma submit_in_edit_mode_keeps_the_list_witness :
  editingId editingBus = Some "b05" /\
  validateForm (form editingBus) = None /\
  map id (expenses (handleSubmit env0 editingBus)) = ["c0ffee"; "b05"].
Proof.
  split; [reflexivity|]. split; [reflexivity|].
  assert (Hne : "b05" <> "") by discriminate.
  exact (proj1 (submit_in_edit_mode_keeps_the_list env0 editingBus "b05"
                  eq_refl Hne eq_refl)).
Defined.

(** X10: deleting removes the records of the given id and no other, the
    rest in their order; an id that no record has changes no record;
    deleting twice is deleting once; deleting the record being edited leaves
    edit mode with the initial draft, and deleting another one does not touch
    the draft. *)
Theorem delete_removes_the_record (env : Env) (target : string) (st : State) :
  let st' := handleDelete env target st in
  (forall r, In r (expenses st') <-> In r (expenses st) /\ id r <> target) /\
  (forall before r after,
      expenses st = before ++ r :: after -> id r = target ->
      ~ In target (map id before) -> ~ In target (map id after) ->
      expenses st' = before ++ after) /\
  (~ In target (map id (expenses st)) -> expenses st' = expenses st) /\
  handleDelete env target st' = st' /\
  (editingId st = Some target ->
   form st' = initialForm env /\ editingId st' = None) /\
  (editingId st <> Some target ->
   form st' = form st /\ editingId st' = editingId st) /\
  filters st' = filters st.
Proof.
  intros st'.
  assert (Hexp : expenses st' = deleteExpense target (expenses st)).
  { subst st'. unfold handleDelete.
    destruct (editingId st) as [e|]; [destruct (e =? target)%string|]; reflexivity. }
  split; [|split; [|split; [|split; [|split; [|split]]]]].
  - intros r. rewrite Hexp. unfold deleteExpense. rewrite filter_In.
    rewrite negb_true_iff, String.eqb_neq. reflexivity.
  - intros before r after Hsplit Hid Hb Ha. rewrite Hexp, Hsplit.
    unfold deleteExpense. rewrite filter_app. simpl.
    apply String.eqb_eq in Hid. rewrite Hid. simpl.
    fold (deleteExpense target before). fold (deleteExpense target after).
    now rewrite !deleteExpense_absent.
  - intros Habsent. rewrite Hexp. now apply deleteExpense_absent.
  - subst st'. unfold handleDelete.
    destruct (editingId st) as [e|] eqn:He; simpl.
    + destruct (String.eqb_spec e target) as [->|Hne]; simpl.
      * now rewrite deleteExpense_idempotent.
      * apply String.eqb_neq in Hne. rewrite Hne.
        simpl. now rewrite deleteExpense_idempotent.
    + now rewrite deleteExpense_idempotent.
  - intros He. subst st'. unfold handleDelete. rewrite He, String.eqb_refl.
    split; reflexivity.
  - intros He. subst st'. unfold handleDelete.
    destruct (editingId st) as [e|]; [|split; reflexivity].
    destruct (String.eqb_spec e target) as [->|Hne]; [congruence|].
    split; reflexivity.
  - subst st'. unfold handleDelete.
    destruct (editingId st) as [e|]; [destruct (e =? target)%string|]; reflexivity.
Qed.

(** X11: deleting the record a submit has just added gives the collection
    back as it was, provided the drawn id was not already in use. *)
Theorem delete_undoes_create (env env' : Env) (st : State) :
  truthyOrNull (editingId st) = false ->
  validateForm (form st) = None ->
  ~ In (randomUUID env) (map id (expenses st)) ->
  expenses (handleDelete env' (randomUUID env) (handleSubmit env st)) = expenses st.
Proof.
  intros Hmode Hv Hfresh.
  rewrite (handleSubmit_accepted env st Hv), Hmode.
  unfold handleDelete. simpl. unfold createExpense, deleteExpense. simpl.
  rewrite String.eqb_refl. simpl.
  now apply (deleteExpense_absent (randomUUID env) (expenses st)).
Qed.

Lemma delete_undoes_create_witness :
  validateForm (form addingTea) = None /\
  ~ In (randomUUID env0) (map id (expenses addingTea)) /\
  expenses (handleDelete env0 (randomUUID env0) (handleSubmit env0 addingTea))
  = [coffee; bus].
Proof.
  assert (Hfresh : ~ In (randomUUID env0) (map id (expenses addingTea)))
    by (simpl; intuition discriminate).
  split; [reflexivity|]. split; [exact Hfresh|].
  exact (delete_undoes_create env0 env0 addingTea eq_refl eq_refl Hfresh).
Defined.

(* ================================================================== *)
(** * What every handler keeps *)
(* ================================================================== *)

Section Reachable.

Lemma newExpense_Entered (env : Env) (draft : FormState) :
  validateForm draft = None ->
  Entered (newExpense env draft (JS.Number (Form.amount draft))).
Proof.
  intros Hv. destruct (valid_draft _ Hv) as (Hb & Hd & Ha).
  unfold Entered. simpl. repeat split; auto.
  now rewrite Blank_trim_iff.
Qed.

Lemma handleSubmit_Entered (env : Env) (st : State) :
  Forall Entered (expenses st) -> Forall Entered (expenses (handleSubmit env st)).
Proof.
  intros Hall.
  destruct (validateForm (form st)) as [msg|] eqn:Hv.
  - rewrite handleSubmit_rejected by congruence. exact Hall.
  - rewrite (handleSubmit_accepted env st Hv). simpl.
    destruct (valid_draft _ Hv) as (Hb & Hd & Ha).
    destruct (truthyOrNull (editingId st)).
    + destruct (editingId st) as [editing|]; [|exact Hall].
      apply Forall_forall. intros r Hr.
      unfold updateExpenses in Hr. apply in_map_iff in Hr as (r0 & <- & Hr0).
      destruct (id r0 =? editing)%string.
      * unfold Entered. simpl. auto.
      * now apply (proj1 (Forall_forall _ _) Hall).
    + constructor; [now apply newExpense_Entered | exact Hall].
Qed.

Lemma handleDelete_expenses (env : Env) (target : string) (st : State) :
  expenses (handleDelete env target st) = deleteExpense target (expenses st).
Proof.
  unfold handleDelete.
  destruct (editingId st) as [e|]; [destruct (e =? target)%string|]; reflexivity.
Qed.

Lemma handle_Entered (ev : Event) (st : State) :
  Forall Entered (expenses st) -> Forall Entered (expenses (handle ev st)).
Proof.
  intros Hall. destruct ev; simpl; auto.
  - now apply handleSubmit_Entered.
  - rewrite handleDelete_expenses. apply Forall_forall. intros r Hr.
    unfold deleteExpense in Hr. apply filter_In in Hr as [Hr _].
    now apply (proj1 (Forall_forall _ _) Hall).
Qed.

Lemma run_Entered (events : list Event) :
  forall st, Forall Entered (expenses st) ->
             Forall Entered (expenses (run events st)).
Proof.
  unfold run. induction events as [|ev events IH]; intros st H; simpl;
    auto using handle_Entered.
Qed.

Lemma handle_keeps_editing_and_ids (ev : Event) (st : State) :
  Offered ev st ->
  EditingPresent st -> Spec.UniqueIds (expenses st) ->
  EditingPresent (handle ev st) /\ Spec.UniqueIds (expenses (handle ev st)).
Proof.
  intros Hoff Hed Hids.
  destruct ev as [env|r|env target|env|c|c|]; simpl in *;
    try (split; [exact Hed | exact Hids]);
    try (split; [exact I | exact Hids]).
  - (* Submit *)
    destruct (validateForm (form st)) as [msg|] eqn:Hv.
    + rewrite handleSubmit_rejected by congruence. split; assumption.
    + rewrite (handleSubmit_accepted env st Hv).
      split; [exact I|]. simpl.
      destruct (truthyOrNull (editingId st)) eqn:Hmode.
      * destruct (editingId st) as [editing|]; [|exact Hids].
        unfold Spec.UniqueIds. now rewrite updateExpenses_ids.
      * unfold Spec.UniqueIds, createExpense. simpl. constructor; auto.
  - (* Edit *)
    split; [|exact Hids]. unfold EditingPresent. simpl. now apply in_map.
  - (* Delete *)
    split.
    + unfold EditingPresent, handleDelete in *.
      destruct (editingId st) as [e|] eqn:He; [|exact I].
      destruct (String.eqb_spec e target) as [->|Hne]; simpl; [exact I|].
      apply in_map_iff in Hed as (r & Hid & Hr).
      apply in_map_iff. exists r. split; [exact Hid|].
      unfold deleteExpense. apply filter_In. split; [exact Hr|].
      apply negb_true_iff, String.eqb_neq. congruence.
    + rewrite handleDelete_expenses. now apply deleteExpense_UniqueIds.
Qed.

End Reachable.

(** X12: no handler lets an invalid record in.  Whatever the user does
    (type in the form or the filters, submit, edit, delete, cancel, clear),
    if every record has a positive amount, a description that is not blank
    and a date, then so has every record afterwards; a page that starts empty
    never holds any other record. *)
Theorem only_validated_records (events : list Event) :
  (forall st, Forall Entered (expenses st) ->
              Forall Entered (expenses (run events st))) /\
  (forall env r, In r (expenses (run events (initialState env))) ->
                 (0 <? amount r)%float = true /\
                 ~ Spec.Blank (description r) /\ date r <> "").
Proof.
  split; [apply run_Entered|].
  intros env r Hr.
  assert (H : Forall Entered (expenses (run events (initialState env))))
    by (apply run_Entered; constructor).
  exact (proj1 (Forall_forall _ _) H r Hr).
Qed.

(** X13: as long as edits are started from rows of the collection and each
    new record draws an id not in use, ids stay unique and the record being
    edited is always in the collection: deleting it ends the edit, so a
    submit in edit mode always finds its record, and exactly one. *)
Theorem editing_stays_in_the_collection (events : list Event) :
  forall st,
    OfferedAll events st ->
    EditingPresent st -> Spec.UniqueIds (expenses st) ->
    let st' := run events st in
    EditingPresent st' /\ Spec.UniqueIds (expenses st') /\
    forall editing,
      editingId st' = Some editing ->
      exists before r after,
        expenses st' = before ++ r :: after /\ id r = editing /\
        ~ In editing (map id before) /\ ~ In editing (map id after).
Proof.
  assert (Hrun : forall st,
             OfferedAll events st ->
             EditingPresent st -> Spec.UniqueIds (expenses st) ->
             EditingPresent (run events st) /\
             Spec.UniqueIds (expenses (run events st))).
  { unfold run. induction events as [|ev events IH]; intros st Hoff Hed Hids;
      simpl; [auto|].
    destruct Hoff as [Hev Hrest].
    destruct (handle_keeps_editing_and_ids ev st Hev Hed Hids) as [Hed' Hids'].
    now apply IH. }
  intros st Hoff Hed Hids st'.
  destruct (Hrun st Hoff Hed Hids) as [Hed' Hids']. fold st' in Hed', Hids'.
  split; [exact Hed'|]. split; [exact Hids'|].
  intros editing He. unfold EditingPresent in Hed'. rewrite He in Hed'.
  apply in_map_iff in Hed' as (r & Hid & Hr).
  apply in_split in Hr as (before & after & Hsplit).
  exists before, r, after. split; [exact Hsplit|]. split; [exact Hid|].
  unfold Spec.UniqueIds in Hids'. rewrite Hsplit, map_app in Hids'. simpl in Hids'.
  apply NoDup_remove_2 in Hids'. rewrite Hid in Hids'.
  split; intros Hin; apply Hids'; apply in_or_app; auto.
Qed.

Lemma editing_stays_in_the_collection_witness :
  OfferedAll [ChangeForm (ChangeDescription " Green tea ");
              ChangeForm (ChangeAmount "3.20");
              Submit env0;
              Edit coffee;
              Delete env0 "b05"]
             addingBus /\
  editingId (run [ChangeForm (ChangeDescription " Green tea ");
                  ChangeForm (ChangeAmount "3.20");
                  Submit env0;
                  Edit coffee;
                  Delete env0 "b05"] addingBus) = Some "c0ffee" /\
  EditingPresent (run [ChangeForm (ChangeDescription " Green tea ");
                       ChangeForm (ChangeAmount "3.20");
                       Submit env0;
                       Edit coffee;
                       Delete env0 "b05"] addingBus).
Proof.
  assert (Hoff : OfferedAll [ChangeForm (ChangeDescription " Green tea ");
                             ChangeForm (ChangeAmount "3.20");
                             Submit env0;
                             Edit coffee;
                             Delete env0 "b05"] addingBus).
  { simpl. repeat split; auto. intros _. intuition discriminate. }
  assert (Hed : EditingPresent addingBus) by exact I.
  assert (Hids : Spec.UniqueIds (expenses addingBus)).
  { unfold Spec.UniqueIds. simpl. repeat constructor; simpl; intuition discriminate. }
  split; [exact Hoff|]. split; [reflexivity|].
  exact (proj1 (editing_stays_in_the_collection _ addingBus Hoff Hed Hids)).
Defined.

(* ================================================================== *)
(** * Numbers: sums that are positive *)
(* ================================================================== *)

Section PositiveSums.

Lemma digits2_pos_bound (m : positive) :
  2 ^ (Zpos (digits2_pos m) - 1) <= Zpos m.
Proof.
  induction m as [m IH|m IH|]; simpl digits2_pos.
  - rewrite Pos2Z.inj_succ.
    replace (Z.succ (Zpos (digits2_pos m)) - 1)
      with (1 + (Zpos (digits2_pos m) - 1)) by lia.
    rewrite Z.pow_add_r, Z.pow_1_r by lia. lia.
  - rewrite Pos2Z.inj_succ.
    replace (Z.succ (Zpos (digits2_pos m)) - 1)
      with (1 + (Zpos (digits2_pos m) - 1)) by lia.
    rewrite Z.pow_add_r, Z.pow_1_r by lia. lia.
  - simpl. lia.
Qed.

Lemma shr_1_half (mrs : shr_record) (j : Z) :
  2 * j <= shr_m mrs -> j <= shr_m (shr_1 mrs).
Proof. destruct mrs as [[|[p|p|]|[p|p|]] r s]; cbv [shr_1 shr_m]; lia. Qed.

Lemma iter_shr_1_bound (p : positive) :
  forall (mrs : shr_record) (k : Z),
    2 ^ Zpos p * k <= shr_m mrs -> k <= shr_m (iter_pos shr_1 p mrs).
Proof.
  induction p as [p IH|p IH|]; intros mrs k H; simpl iter_pos.
  - apply IH, IH, shr_1_half.
    rewrite Pos2Z.inj_xI in H.
    replace (2 * Zpos p + 1) with (1 + Zpos p + Zpos p) in H by lia.
    rewrite !Z.pow_add_r, Z.pow_1_r in H by lia.
    replace (2 * (2 ^ Zpos p * (2 ^ Zpos p * k)))
      with (2 * 2 ^ Zpos p * 2 ^ Zpos p * k) by ring.
    exact H.
  - apply IH, IH.
    assert (E : 2 ^ Zpos p~0 = 2 ^ Zpos p * 2 ^ Zpos p)
      by (rewrite <- Z.pow_add_r by lia; f_equal; lia).
    rewrite E in H.
    replace (2 ^ Zpos p * (2 ^ Zpos p * k))
      with (2 ^ Zpos p * 2 ^ Zpos p * k) by ring.
    exact H.
  - apply shr_1_half. rewrite Z.pow_1_r in H. exact H.
Qed.

(** Rounding a positive mantissa whose exponent is not below the smallest
    one never shifts all of its bits out. *)
Lemma shr_fexp_positive (m : positive) (e : Z) (l : location) :
  emin <= e ->
  0 < shr_m (fst (shr_fexp prec emax (Zpos m) e l)) /\
  emin <= snd (shr_fexp prec emax (Zpos m) e l).
Proof.
  intros He. unfold shr_fexp, shr, fexp. simpl Zdigits2.
  assert (Hrec : shr_m (shr_record_of_loc (Zpos m) l) = Zpos m)
    by (destruct l as [|[]]; reflexivity).
  change (SpecFloat.emin prec emax) with emin.
  destruct (Z.max (Zpos (digits2_pos m) + e - prec) emin - e) as [|p|p] eqn:En;
    simpl; try (rewrite Hrec; split; lia).
  assert (Hp : Zpos p = Zpos (digits2_pos m) - prec) by lia.
  split; [|lia].
  assert (H1 : 1 <= shr_m (iter_pos shr_1 p (shr_record_of_loc (Zpos m) l))).
  { apply iter_shr_1_bound. rewrite Hrec, Z.mul_1_r, Hp.
    etransitivity; [|apply digits2_pos_bound].
    apply Z.pow_le_mono_r; unfold prec; lia. }
  lia.
Qed.

Lemma binary_round_aux_positive (m : positive) (e : Z) (l : location) :
  emin <= e ->
  SFltb (S754_zero false) (binary_round_aux prec emax false (Zpos m) e l) = true.
Proof.
  intros He. unfold binary_round_aux.
  destruct (shr_fexp_positive m e l He) as [H1 He1].
  destruct (shr_fexp prec emax (Zpos m) e l) as [mrs' e']. simpl in H1, He1.
  assert (H2 : 0 < round_nearest_even (shr_m mrs') (loc_of_shr_record mrs')).
  { destruct (loc_of_shr_record mrs') as [|[]]; simpl; try lia.
    destruct (Z.even (shr_m mrs')); lia. }
  destruct (round_nearest_even (shr_m mrs') (loc_of_shr_record mrs')) as [|m2|m2];
    try lia.
  destruct (shr_fexp_positive m2 e' loc_Exact He1) as [H3 _].
  destruct (shr_fexp prec emax (Zpos m2) e' loc_Exact) as [mrs'' e'']. simpl in H3.
  destruct (shr_m mrs'') as [|m3|m3]; try lia.
  destruct (e'' <=? emax - prec); reflexivity.
Qed.

Lemma valid_exponent (s : bool) (m : positive) (e : Z) :
  valid_binary (S754_finite s m e) = true -> emin <= e.
Proof.
  simpl. unfold bounded, canonical_mantissa, fexp.
  intros H. apply andb_true_iff in H as [H _]. apply Z.eqb_eq in H.
  change (SpecFloat.emin prec emax) with emin in H. lia.
Qed.

Lemma SFadd_positive (x y : spec_float) :
  valid_binary x = true -> valid_binary y = true ->
  SFleb (S754_zero false) x = true -> SFleb (S754_zero false) y = true ->
  SFltb (S754_zero false) x = true \/ SFltb (S754_zero false) y = true ->
  SFltb (S754_zero false) (SFadd prec emax x y) = true.
Proof.
  destruct x as [[]|[]| |[] mx ex], y as [[]|[]| |[] my ey];
    intros Vx Vy Hx Hy Hpos; try discriminate;
    try (destruct Hpos; discriminate); try reflexivity.
  apply valid_exponent in Vx. apply valid_exponent in Vy.
  unfold SFadd, cond_Zopp, binary_normalize. simpl Z.add. unfold binary_round.
  set (ez := Z.min ex ey).
  set (mz := (fst (shl_align mx ex ez) + fst (shl_align my ey ez))%positive).
  assert (Hez : emin <= ez) by (subst ez; lia).
  unfold shl_align at 1.
  destruct (fexp prec emax (Zpos (digits2_pos mz) + ez) - ez) as [|d|d] eqn:Ed;
    apply binary_round_aux_positive; try exact Hez.
  unfold fexp. change (SpecFloat.emin prec emax) with emin. lia.
Qed.

Lemma add_positive (x y : float) :
  nonNegative x -> nonNegative y ->
  (0 <? x)%float = true \/ (0 <? y)%float = true ->
  (0 <? x + y)%float = true.
Proof.
  unfold nonNegative. rewrite !leb_spec, !ltb_spec, add_spec, Prim2SF_zero.
  apply SFadd_positive; apply Prim2SF_valid.
Qed.

Lemma positive_nonNegative (x : float) : (0 <? x)%float = true -> nonNegative x.
Proof.
  unfold nonNegative. rewrite leb_key, ltb_key. intros (H1 & H2 & H3).
  repeat split; auto. unfold keyLt, keyLe in *.
  destruct (key 0%float) as [[a1 a2] a3], (key x) as [[b1 b2] b3]. lia.
Qed.

Lemma add_zero_zero (x y : float) :
  (x =? 0)%float = true -> (y =? 0)%float = true -> (x + y =? 0)%float = true.
Proof.
  rewrite !eqb_spec, add_spec, Prim2SF_zero. unfold SFeqb.
  destruct (Prim2SF x) as [[]|[]| |[] mx ex], (Prim2SF y) as [[]|[]| |[] my ey];
    simpl; congruence.
Qed.

(** The sum of amounts that are not negative is positive exactly when one of
    them is. *)
Lemma sumAmounts_positive_iff (l : list Expense) :
  (forall r, In r l -> nonNegative (amount r)) ->
  ((0 <? sumAmounts l)%float = true <->
   exists r, In r l /\ (0 <? amount r)%float = true).
Proof.
  unfold sumAmounts. intros Hnn.
  assert (Hgen : forall start,
             nonNegative start ->
             ((0 <? fold_left (fun sum expense => (sum + amount expense)%float) l start)%float = true <->
              (0 <? start)%float = true \/
              exists r, In r l /\ (0 <? amount r)%float = true)).
  { induction l as [|r l IH]; intros start Hs; simpl.
    - split; [auto | intros [H|(r & [] & _)]; exact H].
    - rewrite IH.
      + split.
        * intros [H|(r' & Hr' & Hp)]; [|right; eauto].
          destruct (0 <? start)%float eqn:Es; [auto|].
          destruct (0 <? amount r)%float eqn:Er; [right; eauto|].
          exfalso.
          assert (Hz : (start + amount r =? 0)%float = true).
          { apply add_zero_zero; apply zero_or_positive; auto.
            apply Hnn. simpl. auto. }
          rewrite eqb_spec in Hz. rewrite ltb_spec in H.
          rewrite Prim2SF_zero in *. unfold SFeqb, SFltb in *.
          destruct (Prim2SF (start + amount r)) as [[]|[]| |[] m e];
            simpl in *; discriminate.
        * intros [H|(r' & [<-|Hr'] & Hp)].
          -- left. apply add_positive; auto. apply Hnn. simpl. auto.
          -- left. apply add_positive; auto. apply Hnn. simpl. auto.
          -- right. eauto.
      + intros r' Hr'. apply Hnn. simpl. auto.
      + apply add_nonNegative; [exact Hs | apply Hnn; simpl; auto]. }
  rewrite (Hgen 0%float) by reflexivity.
  split; [intros [H|H]; [discriminate H | exact H] | auto].
Qed.

End PositiveSums.

(* ================================================================== *)
(** * The summary cards *)
(* ================================================================== *)

Section Summaries.

Lemma in_totals (expenses : list Expense) (t : Total) :
  In t (totalsByCategory expenses) ->
  Total.total t = sumAmounts (Spec.ofCategory (Total.category t) expenses).
Proof.
  unfold totalsByCategory. intros H. apply in_map_iff in H as (c & <- & _).
  reflexivity.
Qed.

Lemma total_of_category (expenses : list Expense) (c : Category) :
  In {| Total.category := c;
        Total.total := sumAmounts (Spec.ofCategory c expenses) |}
     (totalsByCategory expenses).
Proof.
  unfold totalsByCategory. apply in_map_iff. exists c.
  split; [reflexivity | apply CATEGORIES_complete].
Qed.

Lemma truthyNumber_positive (x : float) :
  (0 <? x)%float = true -> truthyNumber x = true.
Proof.
  intros H. unfold truthyNumber. rewrite (positive_not_NaN x H), orb_false_r.
  apply negb_true_iff. rewrite eqb_spec. rewrite ltb_spec in H.
  rewrite Prim2SF_zero in *. unfold SFeqb, SFltb in *.
  destruct (Prim2SF x) as [[]|[]| |[] m e]; simpl in *; congruence.
Qed.

Lemma categoryName_not_dash (c : Category) : categoryName c <> "-".
Proof. destruct c; discriminate. Qed.

Lemma not_positive_of_le_zero (x : float) :
  (x <=? 0)%float = true -> (0 <? x)%float = false.
Proof.
  rewrite leb_spec, ltb_spec, Prim2SF_zero. unfold SFleb, SFltb.
  destruct (Prim2SF x) as [[]|[]| |[] m e]; simpl; congruence.
Qed.

End Summaries.

(** X14: with amounts that are not negative, the "This month" figure is
    never negative and never NaN; it is positive exactly when some expense
    dated in the month is; it is the total spend when every expense is dated
    in the month, and 0 when none is. *)
Theorem monthlySpent_of_the_month (monthKey : string) (expenses : list Expense) :
  (forall r, In r expenses -> nonNegative (amount r)) ->
  nonNegative (monthlySpent monthKey expenses) /\
  ((0 <? monthlySpent monthKey expenses)%float = true <->
   exists r, In r expenses /\ String.prefix monthKey (date r) = true /\
             (0 <? amount r)%float = true) /\
  ((forall r, In r expenses -> String.prefix monthKey (date r) = true) ->
   monthlySpent monthKey expenses = totalSpent expenses) /\
  ((forall r, In r expenses -> String.prefix monthKey (date r) = false) ->
   monthlySpent monthKey expenses = 0%float).
Proof.
  intros Hnn. unfold monthlySpent, totalSpent.
  assert (Hsub : forall r,
             In r (filter (fun expense => String.prefix monthKey (date expense)) expenses) ->
             nonNegative (amount r)).
  { intros r Hr. apply filter_In in Hr as [Hr _]. auto. }
  split; [now apply sumAmounts_nonNegative|]. split; [|split].
  - rewrite (sumAmounts_positive_iff _ Hsub). split.
    + intros (r & Hr & Hp). apply filter_In in Hr as [Hr Hm]. eauto.
    + intros (r & Hr & Hm & Hp). exists r. split; [|exact Hp].
      apply filter_In. auto.
  - intros Hall. now rewrite filter_all.
  - intros Hnone.
    replace (filter (fun expense => String.prefix monthKey (date expense)) expenses)
      with (@nil Expense); [reflexivity|].
    symmetry. induction expenses as [|r l IH]; simpl; [reflexivity|].
    rewrite (Hnone r) by (simpl; auto). apply IH.
    + intros r' Hr'. apply Hnn. simpl. auto.
    + intros r' Hr'. apply filter_In in Hr' as [Hr' _]. apply Hnn. simpl. auto.
    + intros r' Hr'. apply Hnone. simpl. auto.
Qed.

Lemma monthlySpent_of_the_month_witness :
  (forall r, In r [coffee; bus; milk] -> nonNegative (amount r)) /\
  monthlySpent "2024-01" [coffee; bus; milk] = 7.25%float /\
  nonNegative (monthlySpent "2024-01" [coffee; bus; milk]).
Proof.
  assert (H : forall r, In r [coffee; bus; milk] -> nonNegative (amount r))
    by (intros r [<-|[<-|[<-|[]]]]; reflexivity).
  split; [exact H|]. split; [reflexivity|].
  exact (proj1 (monthlySpent_of_the_month "2024-01" [coffee; bus; milk] H)).
Defined.

(** X15: with amounts that are not negative, the total spend and the total
    of every category are never negative and never NaN; the total spend is
    positive exactly when some expense is, and the total of a category
    exactly when some expense of that category is. *)
Theorem totals_are_sound (expenses : list Expense) :
  (forall r, In r expenses -> nonNegative (amount r)) ->
  nonNegative (totalSpent expenses) /\
  JS.isNaN (totalSpent expenses) = false /\
  ((0 <? totalSpent expenses)%float = true <->
   exists r, In r expenses /\ (0 <? amount r)%float = true) /\
  (forall t, In t (totalsByCategory expenses) ->
             nonNegative (Total.total t) /\
             ((0 <? Total.total t)%float = true <->
              exists r, In r expenses /\ category r = Total.category t /\
                        (0 <? amount r)%float = true)).
Proof.
  intros Hnn. unfold totalSpent.
  assert (Htotal : nonNegative (sumAmounts expenses))
    by now apply sumAmounts_nonNegative.
  split; [exact Htotal|]. split; [|split].
  - destruct (JS.isNaN (sumAmounts expenses)) eqn:E; [|reflexivity].
    apply isNaN_spec in E. apply nonNegative_notNaN in Htotal. contradiction.
  - now apply sumAmounts_positive_iff.
  - intros t Ht. split; [now apply (totals_nonNegative expenses Hnn)|].
    rewrite (in_totals expenses t Ht).
    assert (Hsub : forall r, In r (Spec.ofCategory (Total.category t) expenses) ->
                             nonNegative (amount r)).
    { intros r Hr. apply filter_In in Hr as [Hr _]. auto. }
    rewrite (sumAmounts_positive_iff _ Hsub). unfold Spec.ofCategory. split.
    + intros (r & Hr & Hp). apply filter_In in Hr as [Hr Hc].
      apply Category_eqb_eq in Hc. eauto.
    + intros (r & Hr & Hc & Hp). exists r. split; [|exact Hp].
      apply filter_In. split; [exact Hr | now apply Category_eqb_eq].
Qed.

Lemma totals_are_sound_witness :
  (forall r, In r [tram; bread; milk] -> nonNegative (amount r)) /\
  nonNegative (totalSpent [tram; bread; milk]) /\
  JS.isNaN (totalSpent [tram; bread; milk]) = false.
Proof.
  assert (H : forall r, In r [tram; bread; milk] -> nonNegative (amount r))
    by (intros r [<-|[<-|[<-|[]]]]; reflexivity).
  split; [exact H|].
  split; [exact (proj1 (totals_are_sound [tram; bread; milk] H))
         | exact (proj1 (proj2 (totals_are_sound [tram; bread; milk] H)))].
Defined.

(** X16: with amounts that are not negative, the "Top category" card shows
    "-" exactly when no expense has a positive amount (in particular for an
    empty collection), and otherwise the name of a category that has an
    expense with a positive amount. *)
Theorem top_category_card (expenses : list Expense) :
  (forall r, In r expenses -> nonNegative (amount r)) ->
  (topCategoryValue expenses = "-" <->
   forall r, In r expenses -> (0 <? amount r)%float = false) /\
  (topCategoryValue expenses <> "-" ->
   exists r, In r expenses /\
             categoryName (category r) = topCategoryValue expenses /\
             (0 <? amount r)%float = true).
Proof.
  intros Hnn.
  pose proof (totals_nonNegative expenses Hnn) as Htnn.
  assert (Hall : forall t, In t (totalsByCategory expenses) -> notNaN (Total.total t))
    by (intros t Ht; apply nonNegative_notNaN, Htnn, Ht).
  set (init := {| Total.category := Food; Total.total := 0%float |}).
  assert (Hinit : notNaN (Total.total init))
    by (simpl; unfold notNaN; rewrite Prim2SF_zero; discriminate).
  destruct (pickLarger_fold (totalsByCategory expenses) init Hinit Hall)
    as (_ & _ & Hfirst).
  change (fold_left pickLarger (totalsByCategory expenses) init)
    with (topCategory (totalsByCategory expenses)) in Hfirst.
  destruct Hfirst as [[Htop Hle]|(before & after & Hsplit & Hpos & _)].
  - (* no total above zero *)
    assert (Hdash : topCategoryValue expenses = "-")
      by (unfold topCategoryValue; rewrite Htop; reflexivity).
    assert (Hnone : forall r, In r expenses -> (0 <? amount r)%float = false).
    { intros r Hr. destruct (0 <? amount r)%float eqn:Hp; [|reflexivity].
      exfalso.
      pose proof (total_of_category expenses (category r)) as Hin.
      pose proof (Hle _ Hin) as Hle0. simpl in Hle0.
      apply not_positive_of_le_zero in Hle0.
      assert (Hsub : forall r', In r' (Spec.ofCategory (category r) expenses) ->
                                nonNegative (amount r')).
      { intros r' Hr'. apply filter_In in Hr' as [Hr' _]. auto. }
      assert (Hsum : (0 <? sumAmounts (Spec.ofCategory (category r) expenses))%float = true).
      { apply (sumAmounts_positive_iff _ Hsub). exists r. split; [|exact Hp].
        apply filter_In. split; [exact Hr | now apply Category_eqb_eq]. }
      congruence. }
    split; [split; auto|]. intros H. contradiction.
  - (* the top entry has a total above zero *)
    set (top := topCategory (totalsByCategory expenses)) in *.
    simpl in Hpos.
    assert (Hin : In top (totalsByCategory expenses))
      by (rewrite Hsplit; apply in_elt).
    assert (Hvalue : topCategoryValue expenses = categoryName (Total.category top)).
    { unfold topCategoryValue. fold top.
      now rewrite (truthyNumber_positive _ Hpos). }
    assert (Hrecord : exists r, In r expenses /\ category r = Total.category top /\
                                (0 <? amount r)%float = true).
    { rewrite (in_totals expenses top Hin) in Hpos.
      assert (Hsub : forall r, In r (Spec.ofCategory (Total.category top) expenses) ->
                               nonNegative (amount r)).
      { intros r Hr. apply filter_In in Hr as [Hr _]. auto. }
      apply (sumAmounts_positive_iff _ Hsub) in Hpos as (r & Hr & Hp).
      apply filter_In in Hr as [Hr Hc]. apply Category_eqb_eq in Hc. eauto. }
    destruct Hrecord as (r & Hr & Hc & Hp).
    split.
    + split.
      * intros Hdash. rewrite Hvalue in Hdash.
        exfalso. exact (categoryName_not_dash _ Hdash).
      * intros Hnone. rewrite (Hnone r Hr) in Hp. discriminate.
    + intros _. exists r. rewrite Hvalue, Hc. auto.
Qed.

Lemma top_category_card_witness :
  (forall r, In r [coffee; bus] -> nonNegative (amount r)) /\
  topCategoryValue [coffee; bus] = "Food" /\
  exists r, In r [coffee; bus] /\
            categoryName (category r) = topCategoryValue [coffee; bus] /\
            (0 <? amount r)%float = true.
Proof.
  assert (H : forall r, In r [coffee; bus] -> nonNegative (amount r))
    by (intros r [<-|[<-|[]]]; reflexivity).
  split; [exact H|]. split; [reflexivity|].
  apply (proj2 (top_category_card [coffee; bus] H)). discriminate.
Defined.

(* ================================================================== *)
(** * Edit, then save *)
(* ================================================================== *)

Section EditThenSave.

Lemma same_id_same_record (l : list Expense) (a b : Expense) :
  Spec.UniqueIds l -> In a l -> In b l -> id a = id b -> a = b.
Proof.
  unfold Spec.UniqueIds. induction l as [|x l IH]; simpl; intros Hu Ha Hb E.
  - contradiction.
  - inversion Hu as [|? ? Hx Hl]; subst.
    destruct Ha as [<-|Ha], Hb as [<-|Hb]; auto.
    + exfalso. apply Hx. rewrite E. now apply in_map.
    + exfalso. apply Hx. rewrite <- E. now apply in_map.
Qed.

Lemma loaded_form_valid (e : Expense) (st : State) :
  Entered e -> (0 <? JS.Number (JS.toString (amount e)))%float = true ->
  validateForm (form (handleEdit e st)) = None.
Proof.
  intros (_ & Hb & Hd) Hp.
  destruct (validateForm_cases (form (handleEdit e st)))
    as [(B & _)|[(_ & D & _)|[(_ & _ & A & _)|(_ & _ & _ & V)]]];
    simpl in *; try contradiction; try congruence.
Qed.

End EditThenSave.

(** X17: opening a record for editing and saving the form as it was loaded
    changes nothing but, possibly, the amount of that record, which becomes
    the number that its decimal text reads as; when that is the amount
    itself the collection is as it was.  The record is one that validation
    accepts, its id is not empty, ids are unique, and the text of the amount
    reads as a positive number; the save is then accepted and the page leaves
    edit mode. *)
Theorem edit_then_save (env : Env) (st : State) (e : Expense) :
  In e (expenses st) -> Spec.UniqueIds (expenses st) ->
  id e <> "" -> Entered e ->
  let reread := JS.Number (JS.toString (amount e)) in
  (0 <? reread)%float = true ->
  let st' := handleSubmit env (handleEdit e st) in
  expenses st' =
  map (fun item =>
         if (id item =? id e)%string
         then {| id := id e; description := description e; amount := reread;
                 category := category e; date := date e;
                 createdAt := createdAt e |}
         else item) (expenses st) /\
  (reread = amount e -> expenses st' = expenses st) /\
  editingId st' = None /\
  status st' = {| type := Some success; message := Some "Expense updated" |}.
Proof.
  intros Hin Hu Hid He reread Hp st'.
  pose proof (loaded_form_valid e st He Hp) as Hv.
  assert (Hexp : expenses st' =
                 updateExpenses (id e) (form (handleEdit e st)) reread (expenses st)).
  { unfold st'. now rewrite (handleSubmit_update env (handleEdit e st) (id e) eq_refl Hid Hv). }
  assert (Hmap : expenses st' =
    map (fun item =>
           if (id item =? id e)%string
           then {| id := id e; description := description e; amount := reread;
                   category := category e; date := date e;
                   createdAt := createdAt e |}
           else item) (expenses st)).
  { rewrite Hexp. unfold updateExpenses. apply map_ext_in. intros item Hitem.
    destruct (id item =? id e)%string eqn:E; [|reflexivity].
    apply String.eqb_eq in E.
    rewrite (same_id_same_record (expenses st) item e Hu Hitem Hin E).
    reflexivity. }
  split; [exact Hmap|]. split; [|split].
  - intros Hsame. rewrite Hmap.
    rewrite <- (map_id (expenses st)) at 2. apply map_ext_in. intros item Hitem.
    destruct (id item =? id e)%string eqn:E; [|reflexivity].
    apply String.eqb_eq in E.
    rewrite (same_id_same_record (expenses st) item e Hu Hitem Hin E).
    rewrite Hsame. destruct e; reflexivity.
  - unfold st'. rewrite (handleSubmit_accepted env (handleEdit e st) Hv). reflexivity.
  - unfold st'. rewrite (handleSubmit_accepted env (handleEdit e st) Hv). simpl.
    apply truthy_iff in Hid. now rewrite Hid.
Qed.

Lemma edit_then_save_witness :
  let st := {| expenses := [coffee; bus]; form := initialForm env0;
               filters := noFilters; editingId := None; status := idle |} in
  In bus (expenses st) /\ Spec.UniqueIds (expenses st) /\ Entered bus /\
  JS.Number (JS.toString (amount bus)) = amount bus /\
  expenses (handleSubmit env0 (handleEdit bus st)) = expenses st.
Proof.
  intros st.
  assert (Hin : In bus (expenses st)) by (simpl; auto).
  assert (Hu : Spec.UniqueIds (expenses st)).
  { unfold Spec.UniqueIds. simpl.
    repeat constructor; simpl; intuition discriminate. }
  assert (Hid : id bus <> "") by discriminate.
  assert (He : Entered bus).
  { split; [reflexivity|]. split; [|discriminate].
    intros H. specialize (H "B"%char). simpl in H.
    assert (F : false = true) by (apply H; auto). discriminate. }
  assert (Hr : JS.Number (JS.toString (amount bus)) = amount bus)
    by (vm_compute; reflexivity).
  assert (Hp : (0 <? JS.Number (JS.toString (amount bus)))%float = true)
    by (vm_compute; reflexivity).
  split; [exact Hin|]. split; [exact Hu|]. split; [exact He|].
  split; [exact Hr|].
  exact (proj1 (proj2 (edit_then_save env0 st bus Hin Hu Hid He Hp)) Hr).
Defined.

(* ================================================================== *)
(** * The totals and the total spend *)
(* ================================================================== *)

Section ExactSums.

Lemma digits2_pos_above (m : positive) : Zpos m < 2 ^ Zpos (digits2_pos m).
Proof.
  induction m as [m IH|m IH|]; simpl digits2_pos.
  - rewrite Pos2Z.inj_succ, Z.pow_succ_r by lia. lia.
  - rewrite Pos2Z.inj_succ, Z.pow_succ_r by lia. lia.
  - simpl. lia.
Qed.

(** A mantissa shifted left by [k] bits has [k] more digits. *)
Lemma digits2_pos_shifted (m m' : positive) (k : Z) :
  0 <= k -> Zpos m' = Zpos m * 2 ^ k ->
  Zpos (digits2_pos m') = Zpos (digits2_pos m) + k.
Proof.
  intros Hk E.
  pose proof (digits2_pos_bound m) as L. pose proof (digits2_pos_above m) as U.
  pose proof (digits2_pos_bound m') as L'. pose proof (digits2_pos_above m') as U'.
  set (d := Zpos (digits2_pos m)) in *. set (d' := Zpos (digits2_pos m')) in *.
  assert (Hd : 0 < d) by (subst d; lia). assert (Hd' : 0 < d') by (subst d'; lia).
  assert (Hpow : 0 < 2 ^ k) by (apply Z.pow_pos_nonneg; lia).
  assert (L2 : 2 ^ (d - 1 + k) <= Zpos m').
  { rewrite Z.pow_add_r by lia. rewrite E. nia. }
  assert (U2 : Zpos m' < 2 ^ (d + k)).
  { rewrite Z.pow_add_r by lia. rewrite E. nia. }
  destruct (Z.lt_trichotomy d' (d + k)) as [H|[H|H]]; [exfalso|exact H|exfalso].
  - assert (2 ^ d' <= 2 ^ (d - 1 + k)) by (apply Z.pow_le_mono_r; lia). lia.
  - assert (2 ^ (d + k) <= 2 ^ (d' - 1)) by (apply Z.pow_le_mono_r; lia). lia.
Qed.

(** A finite Number is written in one way only. *)
Lemma canonical_unique (m1 m2 : positive) (e1 e2 : Z) :
  valid_binary (S754_finite false m1 e1) = true ->
  valid_binary (S754_finite false m2 e2) = true ->
  Zpos m1 * 2 ^ (e1 + 1074) = Zpos m2 * 2 ^ (e2 + 1074) ->
  m1 = m2 /\ e1 = e2.
Proof.
  assert (Hle : forall m1 m2 e1 e2,
             valid_binary (S754_finite false m1 e1) = true ->
             valid_binary (S754_finite false m2 e2) = true ->
             Zpos m1 * 2 ^ (e1 + 1074) = Zpos m2 * 2 ^ (e2 + 1074) ->
             e1 <= e2 -> m1 = m2 /\ e1 = e2).
  { clear. intros m1 m2 e1 e2 V1 V2 E Hle.
    pose proof (valid_exponent _ _ _ V1) as B1.
    pose proof (valid_exponent _ _ _ V2) as B2.
    change emin with (-1074) in B1, B2.
    assert (Em : Zpos m1 = Zpos m2 * 2 ^ (e2 - e1)).
    { replace (e2 + 1074) with ((e2 - e1) + (e1 + 1074)) in E by lia.
      rewrite (Z.pow_add_r 2 (e2 - e1) (e1 + 1074)) in E by lia.
      assert (Hpow : 0 < 2 ^ (e1 + 1074)) by (apply Z.pow_pos_nonneg; lia).
      rewrite Z.mul_assoc in E. apply Z.mul_reg_r in E; [exact E | lia]. }
    pose proof (digits2_pos_shifted m2 m1 (e2 - e1) ltac:(lia) Em) as Hd.
    simpl in V1, V2. unfold bounded, canonical_mantissa, fexp in V1, V2.
    apply andb_true_iff in V1 as [V1 _]. apply andb_true_iff in V2 as [V2 _].
    apply Z.eqb_eq in V1. apply Z.eqb_eq in V2.
    assert (Ee : e1 = e2) by lia.
    subst e2. split; [|reflexivity].
    rewrite Z.sub_diag, Z.pow_0_r, Z.mul_1_r in Em. congruence. }
  intros V1 V2 E.
  destruct (Z.le_ge_cases e1 e2) as [H|H].
  - now apply Hle.
  - destruct (Hle m2 m1 e2 e1 V2 V1 (eq_sym E) H) as [-> ->]. auto.
Qed.

Lemma positive_plain (x : float) : (0 <? x)%float = true -> plain x.
Proof.
  intros H. split; [now apply positive_nonNegative|].
  rewrite ltb_spec, Prim2SF_zero in H. intros E. rewrite E in H. discriminate.
Qed.

Lemma add_plain (x y : float) : plain x -> nonNegative y -> plain (x + y)%float.
Proof.
  intros [Hx Hx0] Hy.
  destruct (0 <? x)%float eqn:Px.
  { apply positive_plain, add_positive; auto. }
  destruct (0 <? y)%float eqn:Py.
  { apply positive_plain, add_positive; auto. }
  split; [now apply add_nonNegative|].
  pose proof (zero_or_positive x Hx Px) as Zx.
  pose proof (zero_or_positive y Hy Py) as Zy.
  rewrite eqb_spec, Prim2SF_zero in Zx, Zy. rewrite add_spec.
  unfold SFeqb in Zx, Zy.
  destruct (Prim2SF x) as [[]|[]| |[] mx ex], (Prim2SF y) as [[]|[]| |[] my ey];
    simpl in *; congruence.
Qed.

Lemma fold_add_plain {A : Type} (value : A -> float) (l : list A) :
  (forall a, In a l -> nonNegative (value a)) ->
  plain (fold_left (fun sum a => (sum + value a)%float) l 0%float).
Proof.
  assert (H0 : plain 0%float).
  { split; [reflexivity | rewrite Prim2SF_zero; discriminate]. }
  revert H0. generalize 0%float as start.
  induction l as [|a l IH]; intros start Hs Hl; simpl; [exact Hs|].
  apply IH.
  - apply add_plain; [exact Hs | apply Hl; simpl; auto].
  - intros a' Ha'. apply Hl. simpl. auto.
Qed.

(** Two such Numbers of the same value are the same Number. *)
Lemma units_inj (x y : float) (n : Z) :
  plain x -> plain y ->
  Spec.units x = Some n -> Spec.units y = Some n -> x = y.
Proof.
  intros [Hx Hx0] [Hy Hy0] Ux Uy. apply Prim2SF_inj.
  unfold nonNegative in Hx, Hy. rewrite leb_spec, Prim2SF_zero in Hx, Hy.
  unfold Spec.units in Ux, Uy.
  pose proof (Prim2SF_valid x) as Vx. pose proof (Prim2SF_valid y) as Vy.
  destruct (Prim2SF x) as [[]|[]| |[] mx ex], (Prim2SF y) as [[]|[]| |[] my ey];
    try discriminate; try congruence;
    cbv beta iota delta [cond_Zopp] in Ux, Uy.
  - exfalso. pose proof (valid_exponent _ _ _ Vy) as B. change emin with (-1074) in B.
    assert (E : 0 = Zpos my * 2 ^ (ey + 1074)) by congruence.
    assert (0 < 2 ^ (ey + 1074)) by (apply Z.pow_pos_nonneg; lia). nia.
  - exfalso. pose proof (valid_exponent _ _ _ Vx) as B. change emin with (-1074) in B.
    assert (E : 0 = Zpos mx * 2 ^ (ex + 1074)) by congruence.
    assert (0 < 2 ^ (ex + 1074)) by (apply Z.pow_pos_nonneg; lia). nia.
  - assert (E : Zpos mx * 2 ^ (ex + 1074) = Zpos my * 2 ^ (ey + 1074)) by congruence.
    destruct (canonical_unique mx my ex ey Vx Vy E) as [-> ->]. reflexivity.
Qed.

Lemma exactSum_app (l1 l2 : list float) :
  Spec.exactSum (l1 ++ l2) =
  match Spec.exactSum l1, Spec.exactSum l2 with
  | Some a, Some b => Some (a + b)
  | _, _ => None
  end.
Proof.
  induction l1 as [|x l1 IH]; simpl.
  - destruct (Spec.exactSum l2); reflexivity.
  - rewrite IH.
    destruct (Spec.units x), (Spec.exactSum l1), (Spec.exactSum l2);
      try reflexivity. f_equal. lia.
Qed.

(** The mathematical sum does not depend on the order. *)
Lemma exactSum_perm (l l' : list float) :
  Permutation l l' -> Spec.exactSum l = Spec.exactSum l'.
Proof.
  induction 1 as [|x l l' _ IH|x y l|l l' l'' _ IH1 _ IH2]; simpl.
  - reflexivity.
  - now rewrite IH.
  - destruct (Spec.units x), (Spec.units y), (Spec.exactSum l);
      try reflexivity. f_equal. lia.
  - congruence.
Qed.

(** Totals that are exact add up, as mathematical values, to the sum of all
    the amounts they were made of. *)
Lemma exactSum_of_totals (expenses : list Expense) (cats : list Category) :
  (forall c, In c cats ->
             Spec.Exact (sumAmounts (Spec.ofCategory c expenses))
                        (map amount (Spec.ofCategory c expenses))) ->
  Spec.exactSum (map (fun c => sumAmounts (Spec.ofCategory c expenses)) cats) =
  Spec.exactSum
    (map amount (List.concat (map (fun c => Spec.ofCategory c expenses) cats))).
Proof.
  induction cats as [|c cats IH]; intros H; simpl; [reflexivity|].
  rewrite map_app, exactSum_app, IH by (intros c' Hc'; apply H; simpl; auto).
  destruct (H c) as (n & Hn & Hu); [simpl; auto|].
  now rewrite Hn, Hu.
Qed.

Lemma sumTotals_plain (expenses : list Expense) :
  (forall r, In r expenses -> nonNegative (amount r)) ->
  plain (Spec.sumTotals (totalsByCategory expenses)).
Proof.
  intros Hnn. unfold Spec.sumTotals. apply fold_add_plain.
  now apply totals_nonNegative.
Qed.

Lemma totals_add_up_when_exact (expenses : list Expense) :
  (forall r, In r expenses -> nonNegative (amount r)) ->
  Spec.Exact (totalSpent expenses) (map amount expenses) ->
  (forall t, In t (totalsByCategory expenses) ->
             Spec.Exact (Total.total t)
                        (map amount (Spec.ofCategory (Total.category t) expenses))) ->
  Spec.Exact (Spec.sumTotals (totalsByCategory expenses))
             (map Total.total (totalsByCategory expenses)) ->
  Spec.sumTotals (totalsByCategory expenses) = totalSpent expenses.
Proof.
  intros Hnn (n & Hn & Un) Hentries (k & Hk & Uk).
  assert (Hsame : Spec.exactSum (map Total.total (totalsByCategory expenses))
                  = Spec.exactSum (map amount expenses)).
  { change (map Total.total (totalsByCategory expenses))
      with (map (fun c => sumAmounts (Spec.ofCategory c expenses)) CATEGORIES).
    rewrite exactSum_of_totals.
    - apply exactSum_perm, Permutation_map.
      apply (totalsByCategory_entries expenses).
    - intros c _.
      apply (Hentries {| Total.category := c;
                         Total.total := sumAmounts (Spec.ofCategory c expenses) |}).
      apply total_of_category. }
  assert (E : k = n) by congruence. subst k.
  apply (units_inj _ _ n); auto.
  - now apply sumTotals_plain.
  - unfold totalSpent, sumAmounts. now apply fold_add_plain.
Qed.

End ExactSums.

(* ================================================================== *)
(** * Additions that round nothing *)
(* ================================================================== *)

Section ExactAddition.

(** A mantissa followed by [p] zero bits. *)
Lemma iter_xO_value (m p : positive) :
  Zpos (Pos.iter xO m p) = Zpos m * 2 ^ Zpos p.
Proof.
  induction p as [|p IH] using Pos.peano_ind.
  - simpl. lia.
  - rewrite Pos.iter_succ, Pos2Z.inj_succ, Z.pow_succ_r by lia.
    rewrite Pos2Z.inj_xO, IH. lia.
Qed.

(** Shifting out zero bits loses nothing. *)
Lemma iter_shr_1_zeros (p m : positive) :
  iter_pos shr_1 p {| shr_m := Zpos (Pos.iter xO m p); shr_r := false; shr_s := false |}
  = {| shr_m := Zpos m; shr_r := false; shr_s := false |}.
Proof.
  revert m. induction p as [p IH|p IH|]; intros m; simpl.
  - rewrite IH, IH. reflexivity.
  - rewrite IH, IH. reflexivity.
  - reflexivity.
Qed.

Lemma canonical_round_aux (m : positive) (e : Z) :
  bounded prec emax m e = true ->
  binary_round_aux prec emax false (Zpos m) e loc_Exact = S754_finite false m e.
Proof.
  intros B. unfold bounded, canonical_mantissa in B.
  apply andb_true_iff in B as [C L]. apply Z.eqb_eq in C.
  unfold binary_round_aux, shr_fexp. cbn [Zdigits2 shr_record_of_loc].
  rewrite C, Z.sub_diag. cbn [shr shr_m loc_of_shr_record round_nearest_even].
  cbn [Zdigits2 shr_record_of_loc]. rewrite C, Z.sub_diag. cbn [shr shr_m].
  now rewrite L.
Qed.


Lemma same_value_same_top (m m0 : positive) (e e0 : Z) :
  -1074 <= e -> -1074 <= e0 ->
  Zpos m * 2 ^ (e + 1074) = Zpos m0 * 2 ^ (e0 + 1074) ->
  Zpos (digits2_pos m) + e = Zpos (digits2_pos m0) + e0 /\
  (e <= e0 -> Zpos m = Zpos m0 * 2 ^ (e0 - e)) /\
  (e0 <= e -> Zpos m0 = Zpos m * 2 ^ (e - e0)).
Proof.
  intros He He0 E.
  assert (Hshift : forall a b ea eb,
             -1074 <= ea -> ea <= eb ->
             Zpos a * 2 ^ (ea + 1074) = Zpos b * 2 ^ (eb + 1074) ->
             Zpos a = Zpos b * 2 ^ (eb - ea)).
  { clear. intros a b ea eb Ha Hab E.
    replace (eb + 1074) with ((eb - ea) + (ea + 1074)) in E by lia.
    rewrite (Z.pow_add_r 2 (eb - ea) (ea + 1074)) in E by lia.
    assert (Hpow : 0 < 2 ^ (ea + 1074)) by (apply Z.pow_pos_nonneg; lia).
    rewrite Z.mul_assoc in E. apply Z.mul_reg_r in E; [exact E | lia]. }
  destruct (Z.le_ge_cases e e0) as [H|H].
  - pose proof (Hshift m m0 e e0 He H E) as Em.
    pose proof (digits2_pos_shifted m0 m (e0 - e) ltac:(lia) Em) as Hd.
    split; [lia|]. split; [auto|].
    intros H'. assert (e = e0) by lia. subst e0.
    rewrite Z.sub_diag, Z.pow_0_r, Z.mul_1_r in *. lia.
  - pose proof (Hshift m0 m e0 e He0 H (eq_sym E)) as Em.
    pose proof (digits2_pos_shifted m m0 (e - e0) ltac:(lia) Em) as Hd.
    split; [lia|]. split; [|auto].
    intros H'. assert (e = e0) by lia. subst e0.
    rewrite Z.sub_diag, Z.pow_0_r, Z.mul_1_r in *. lia.
Qed.

(** Rounding a value that is a Number gives that Number. *)
Lemma binary_round_exact (m m0 : positive) (e e0 : Z) :
  bounded prec emax m0 e0 = true -> -1074 <= e ->
  Zpos m * 2 ^ (e + 1074) = Zpos m0 * 2 ^ (e0 + 1074) ->
  binary_round prec emax false m e = S754_finite false m0 e0.
Proof.
  intros B He E.
  pose proof (valid_exponent false m0 e0 B) as He0. change emin with (-1074) in He0.
  destruct (same_value_same_top m m0 e e0 He He0 E) as (Htop & Hle & Hge).
  assert (C : fexp prec emax (Zpos (digits2_pos m) + e) = e0).
  { rewrite Htop. unfold bounded, canonical_mantissa in B.
    apply andb_true_iff in B as [C _]. now apply Z.eqb_eq in C. }
  unfold binary_round. rewrite C. unfold shl_align.
  destruct (e0 - e) as [|p|p] eqn:Ep.
  - assert (Hm : m = m0).
    { specialize (Hle ltac:(lia)).
      rewrite Z.pow_0_r, Z.mul_1_r in Hle. congruence. }
    subst m. replace e with e0 by lia. now apply canonical_round_aux.
  - (* e < e0: the value carries Zpos p zero bits more than the Number *)
    specialize (Hle ltac:(lia)). rewrite <- iter_xO_value in Hle.
    injection Hle as ->.
    unfold binary_round_aux at 1. unfold shr_fexp at 1.
    cbn [Zdigits2 shr_record_of_loc].
    replace (fexp prec emax (Zpos (digits2_pos (Pos.iter xO m0 p)) + e) - e)
      with (Zpos p) by lia.
    cbn [shr]. rewrite iter_shr_1_zeros.
    cbn [shr_m loc_of_shr_record round_nearest_even].
    replace (e + Zpos p) with e0 by lia.
    change (binary_round_aux prec emax false (Zpos m0) e0 loc_Exact
            = S754_finite false m0 e0) || idtac.
    unfold bounded, canonical_mantissa in B.
    apply andb_true_iff in B as [C0 L]. apply Z.eqb_eq in C0.
    unfold shr_fexp. cbn [Zdigits2 shr_record_of_loc].
    rewrite C0, Z.sub_diag. cbn [shr shr_m]. now rewrite L.
  - (* e0 < e: the mantissa is shifted left onto the Number's *)
    specialize (Hge ltac:(lia)).
    replace (e - e0) with (Zpos p) in Hge by lia.
    rewrite <- iter_xO_value in Hge. injection Hge as <-.
    now apply canonical_round_aux.
Qed.

Lemma shl_align_value (m : positive) (e ez : Z) :
  -1074 <= ez -> ez <= e ->
  Zpos (fst (shl_align m e ez)) * 2 ^ (ez + 1074) = Zpos m * 2 ^ (e + 1074).
Proof.
  intros Hz Hle. unfold shl_align.
  destruct (ez - e) as [|p|p] eqn:Ep; cbn [fst].
  - f_equal. f_equal. lia.
  - lia.
  - rewrite iter_xO_value.
    replace (e + 1074) with (Zpos p + (ez + 1074)) by lia.
    rewrite (Z.pow_add_r 2 (Zpos p) (ez + 1074)) by lia. lia.
Qed.

(** The sum of two positive Numbers whose mathematical sum is a Number is
    that Number. *)
Lemma SFadd_exact (mx my m0 : positive) (ex ey e0 : Z) :
  valid_binary (S754_finite false mx ex) = true ->
  valid_binary (S754_finite false my ey) = true ->
  bounded prec emax m0 e0 = true ->
  Zpos mx * 2 ^ (ex + 1074) + Zpos my * 2 ^ (ey + 1074) = Zpos m0 * 2 ^ (e0 + 1074) ->
  SFadd prec emax (S754_finite false mx ex) (S754_finite false my ey)
  = S754_finite false m0 e0.
Proof.
  intros Vx Vy B E.
  pose proof (valid_exponent _ _ _ Vx) as Hx. pose proof (valid_exponent _ _ _ Vy) as Hy.
  change emin with (-1074) in Hx, Hy.
  unfold SFadd. cbv zeta. cbn [cond_Zopp]. cbn [Z.add binary_normalize].
  apply binary_round_exact; [exact B | lia|].
  rewrite Pos2Z.inj_add, Z.mul_add_distr_r.
  rewrite !shl_align_value by lia. exact E.
Qed.

Lemma Some_inj {A : Type} (a b : A) : Some a = Some b -> a = b.
Proof. congruence. Qed.

(** Two Numbers that are not negative, whose mathematical sum is the Number
    [z]: their sum is [z]. *)
Lemma add_exact (x y z : float) (a b : Z) :
  plain x -> nonNegative y -> plain z ->
  Spec.units x = Some a -> Spec.units y = Some b -> Spec.units z = Some (a + b) ->
  (x + y)%float = z.
Proof.
  intros [Hx Hx0] Hy [Hz Hz0] Ux Uy Uz. apply Prim2SF_inj. rewrite add_spec.
  unfold nonNegative in Hx, Hy, Hz. rewrite leb_spec, Prim2SF_zero in Hx, Hy, Hz.
  unfold Spec.units in Ux, Uy, Uz.
  pose proof (Prim2SF_valid x) as Vx. pose proof (Prim2SF_valid y) as Vy.
  pose proof (Prim2SF_valid z) as Vz.
  destruct (Prim2SF x) as [[]|[]| |[] mx ex]; try discriminate; try congruence;
    destruct (Prim2SF y) as [[]|[]| |[] my ey]; try discriminate;
    destruct (Prim2SF z) as [[]|[]| |[] mz ez]; try discriminate; try congruence;
    cbv beta iota delta [cond_Zopp] in Ux, Uy, Uz;
    apply Some_inj in Ux, Uy, Uz; subst a b;
    try reflexivity;
    try (pose proof (valid_exponent _ _ _ Vx) as Bx; change emin with (-1074) in Bx;
         assert (0 < 2 ^ (ex + 1074)) by (apply Z.pow_pos_nonneg; lia));
    try (pose proof (valid_exponent _ _ _ Vy) as By; change emin with (-1074) in By;
         assert (0 < 2 ^ (ey + 1074)) by (apply Z.pow_pos_nonneg; lia));
    try (pose proof (valid_exponent _ _ _ Vz) as Bz; change emin with (-1074) in Bz;
         assert (0 < 2 ^ (ez + 1074)) by (apply Z.pow_pos_nonneg; lia));
    try (exfalso; nia).
  - (* +0 and a positive Number *)
    destruct (canonical_unique my mz ey ez Vy Vz) as [-> ->]; [lia | reflexivity].
  - (* a positive Number and a zero *)
    destruct (canonical_unique mx mz ex ez Vx Vz) as [-> ->]; [lia | reflexivity].
  - destruct (canonical_unique mx mz ex ez Vx Vz) as [-> ->]; [lia | reflexivity].
  - apply SFadd_exact; auto.
Qed.

Lemma digits2_pos_at_most (p : positive) (w : Z) :
  0 <= w -> Zpos p < 2 ^ w -> Zpos (digits2_pos p) <= w.
Proof.
  intros Hw Hp. pose proof (digits2_pos_bound p) as L.
  destruct (Z.le_gt_cases (Zpos (digits2_pos p)) w) as [H|H]; [exact H|].
  assert (2 ^ w <= 2 ^ (Zpos (digits2_pos p) - 1)) by (apply Z.pow_le_mono_r; lia).
  lia.
Qed.

(** A whole number below 2^53 of parts of 2^-k is a Number. *)
Lemma whole_representable (k n : Z) :
  0 <= k <= 1022 -> 0 <= n < 2 ^ 53 ->
  exists z, plain z /\ Spec.units z = Some (n * 2 ^ (1074 - k)).
Proof.
  intros Hk Hn. destruct n as [|p|p]; [| |lia].
  - exists 0%float. split; [|reflexivity].
    split; [reflexivity | rewrite Prim2SF_zero; discriminate].
  - pose proof (digits2_pos_at_most p 53 ltac:(lia) ltac:(lia)) as Hd.
    set (d := Zpos (digits2_pos p)) in *.
    assert (Hd1 : 1 <= d) by (subst d; lia).
    assert (Hpow : 0 < 2 ^ (53 - d)) by (apply Z.pow_pos_nonneg; lia).
    set (m0 := Z.to_pos (Zpos p * 2 ^ (53 - d))).
    assert (Hm0 : Zpos m0 = Zpos p * 2 ^ (53 - d)) by (subst m0; rewrite Z2Pos.id; nia).
    assert (Hdigits : Zpos (digits2_pos m0) = 53).
    { rewrite (digits2_pos_shifted p m0 (53 - d)) by (lia || exact Hm0).
      fold d. lia. }
    assert (B : bounded prec emax m0 (d - 53 - k) = true).
    { unfold bounded, canonical_mantissa, fexp. rewrite Hdigits.
      apply andb_true_iff. split.
      - apply Z.eqb_eq. change (SpecFloat.emin prec emax) with (-1074).
        change prec with 53. lia.
      - apply Z.leb_le. change prec with 53. change emax with 1024. lia. }
    exists (SF2Prim (S754_finite false m0 (d - 53 - k))).
    assert (P : Prim2SF (SF2Prim (S754_finite false m0 (d - 53 - k)))
                = S754_finite false m0 (d - 53 - k))
      by (apply Prim2SF_SF2Prim; exact B).
    split; [split|].
    + unfold nonNegative. rewrite leb_spec, P. reflexivity.
    + rewrite P. discriminate.
    + unfold Spec.units. rewrite P. cbv beta iota delta [cond_Zopp]. f_equal.
      rewrite Hm0, <- Z.mul_assoc. f_equal.
      rewrite <- Z.pow_add_r by lia. f_equal. lia.
Qed.

Lemma Whole_nonNegative (k : Z) (x : float) :
  0 <= k <= 1022 -> Spec.Whole k x -> nonNegative x.
Proof.
  intros Hk (n & Hn & U). unfold nonNegative. rewrite leb_spec, Prim2SF_zero.
  unfold Spec.units in U. pose proof (Prim2SF_valid x) as V.
  destruct (Prim2SF x) as [[]|[]| |[] m e]; try discriminate; try reflexivity.
  exfalso. cbv beta iota delta [cond_Zopp] in U. apply Some_inj in U.
  pose proof (valid_exponent _ _ _ V) as B. change emin with (-1074) in B.
  assert (0 < 2 ^ (e + 1074)) by (apply Z.pow_pos_nonneg; lia).
  assert (0 < 2 ^ (1074 - k)) by (apply Z.pow_pos_nonneg; lia).
  nia.
Qed.

(** The mathematical sum of whole numbers of parts is one. *)
Lemma exactSum_whole {A : Type} (value : A -> float) (k : Z) (l : list A) :
  (forall a, In a l -> Spec.Whole k (value a)) ->
  exists n, 0 <= n /\ Spec.exactSum (map value l) = Some (n * 2 ^ (1074 - k)).
Proof.
  induction l as [|a l IH]; intros H.
  - exists 0. split; [lia | reflexivity].
  - destruct IH as (n & Hn & E); [intros a' Ha'; apply H; simpl; auto|].
    destruct (H a (or_introl eq_refl)) as (n0 & Hn0 & U).
    exists (n0 + n). split; [lia|].
    cbn [map Spec.exactSum]. rewrite U, E. f_equal. lia.
Qed.

Lemma exactSum_filter_le {A : Type} (value : A -> float) (k : Z)
      (p : A -> bool) (l : list A) :
  0 <= k <= 1022 ->
  (forall a, In a l -> Spec.Whole k (value a)) ->
  forall T, Spec.exactSum (map value l) = Some T ->
  exists T', Spec.exactSum (map value (filter p l)) = Some T' /\ T' <= T.
Proof.
  intros Hk. assert (0 < 2 ^ (1074 - k)) by (apply Z.pow_pos_nonneg; lia).
  induction l as [|a l IH]; intros H' T E.
  - exists 0. simpl in *. split; [reflexivity | apply Some_inj in E; lia].
  - destruct (H' a (or_introl eq_refl)) as (n0 & Hn0 & U).
    cbn [map Spec.exactSum] in E. rewrite U in E.
    destruct (Spec.exactSum (map value l)) as [T0|] eqn:E0; [|discriminate].
    apply Some_inj in E.
    destruct (IH (fun a' Ha' => H' a' (or_intror Ha')) T0 eq_refl) as (T' & E' & Hle).
    cbn [filter]. destruct (p a).
    + exists (n0 * 2 ^ (1074 - k) + T'). cbn [map Spec.exactSum].
      rewrite U, E'. split; [reflexivity | lia].
    + exists T'. split; [exact E' | nia].
Qed.

(** Adding up whole numbers of parts whose total is below 2^53 parts rounds
    nothing: the Number obtained is the mathematical sum. *)
Lemma fold_add_exact {A : Type} (value : A -> float) (k : Z) (l : list A) :
  0 <= k <= 1022 ->
  (forall a, In a l -> Spec.Whole k (value a)) ->
  forall start n T,
    plain start -> 0 <= n -> Spec.units start = Some (n * 2 ^ (1074 - k)) ->
    Spec.exactSum (map value l) = Some T ->
    n * 2 ^ (1074 - k) + T < 2 ^ 53 * 2 ^ (1074 - k) ->
    plain (fold_left (fun sum a => (sum + value a)%float) l start) /\
    Spec.Whole k (fold_left (fun sum a => (sum + value a)%float) l start) /\
    Spec.units (fold_left (fun sum a => (sum + value a)%float) l start)
    = Some (n * 2 ^ (1074 - k) + T).
Proof.
  intros Hk. assert (HU : 0 < 2 ^ (1074 - k)) by (apply Z.pow_pos_nonneg; lia).
  induction l as [|a l IH]; intros Hl start n T Hs Hn Us E Hbound.
  - simpl in *. apply Some_inj in E. subst T. rewrite Z.add_0_r.
    split; [exact Hs|]. split; [exists n; auto | exact Us].
  - destruct (Hl a (or_introl eq_refl)) as (n0 & Hn0 & U).
    cbn [map Spec.exactSum] in E. rewrite U in E.
    destruct (Spec.exactSum (map value l)) as [T0|] eqn:E0; [|discriminate].
    apply Some_inj in E. subst T.
    destruct (exactSum_whole value k l (fun a' Ha' => Hl a' (or_intror Ha')))
      as (nl & Hnl & El).
    assert (T0 = nl * 2 ^ (1074 - k)) by congruence. subst T0.
    destruct (whole_representable k (n + n0) Hk) as (z & Hz & Uz); [nia|].
    assert (Hsum : (start + value a)%float = z).
    { apply (add_exact _ _ _ (n * 2 ^ (1074 - k)) (n0 * 2 ^ (1074 - k))); auto.
      - apply (Whole_nonNegative k); [exact Hk | exists n0; auto].
      - rewrite Uz. f_equal. lia. }
    cbn [fold_left]. rewrite Hsum.
    destruct (IH (fun a' Ha' => Hl a' (or_intror Ha')) z (n + n0)
                (nl * 2 ^ (1074 - k)) Hz ltac:(lia) Uz eq_refl ltac:(nia))
      as (P & W & Ufold).
    split; [exact P|]. split; [exact W|]. rewrite Ufold. f_equal. lia.
Qed.

Lemma sum_of_whole_is_exact {A : Type} (value : A -> float) (k : Z) (l : list A) :
  0 <= k <= 1022 ->
  (forall a, In a l -> Spec.Whole k (value a)) ->
  forall T, Spec.exactSum (map value l) = Some T ->
            T < 2 ^ 53 * 2 ^ (1074 - k) ->
  Spec.Exact (fold_left (fun sum a => (sum + value a)%float) l 0%float)
             (map value l) /\
  Spec.Whole k (fold_left (fun sum a => (sum + value a)%float) l 0%float).
Proof.
  intros Hk Hl T E Hb.
  assert (P0 : plain 0%float)
    by (split; [reflexivity | rewrite Prim2SF_zero; discriminate]).
  destruct (fold_add_exact value k l Hk Hl 0%float 0 T P0 (Z.le_refl 0) eq_refl E Hb)
    as (_ & W & U).
  split; [|exact W]. exists T. split; [exact E | exact U].
Qed.

Lemma exactSum_totals_same (expenses : list Expense) :
  (forall c, Spec.Exact (sumAmounts (Spec.ofCategory c expenses))
                        (map amount (Spec.ofCategory c expenses))) ->
  Spec.exactSum (map Total.total (totalsByCategory expenses))
  = Spec.exactSum (map amount expenses).
Proof.
  intros H.
  change (map Total.total (totalsByCategory expenses))
    with (map (fun c => sumAmounts (Spec.ofCategory c expenses)) CATEGORIES).
  rewrite exactSum_of_totals by (intros c _; apply H).
  apply exactSum_perm, Permutation_map.
  apply (totalsByCategory_entries expenses).
Qed.

(** Amounts that are whole numbers of parts of 2^-k, with a total below
    2^53 parts: no sum is rounded and the totals add up to the total
    spend. *)
Lemma totals_add_up_for_whole_parts (k : Z) (expenses : list Expense) :
  0 <= k <= 1022 ->
  (forall r, In r expenses -> Spec.Whole k (amount r)) ->
  forall T, Spec.exactSum (map amount expenses) = Some T ->
            T < 2 ^ 53 * 2 ^ (1074 - k) ->
  Spec.sumTotals (totalsByCategory expenses) = totalSpent expenses.
Proof.
  intros Hk Hw T E Hb.
  assert (Hentry : forall c,
             Spec.Exact (sumAmounts (Spec.ofCategory c expenses))
                        (map amount (Spec.ofCategory c expenses)) /\
             Spec.Whole k (sumAmounts (Spec.ofCategory c expenses))).
  { intros c.
    destruct (exactSum_filter_le amount k (fun r => Category_eqb (category r) c)
                expenses Hk Hw T E) as (T' & E' & Hle).
    apply (sum_of_whole_is_exact amount k (Spec.ofCategory c expenses) Hk) with (T := T').
    - intros r Hr. apply filter_In in Hr as [Hr _]. auto.
    - exact E'.
    - lia. }
  apply totals_add_up_when_exact.
  - intros r Hr. apply (Whole_nonNegative k); auto.
  - apply (sum_of_whole_is_exact amount k expenses Hk Hw T E Hb).
  - intros t Ht. rewrite (in_totals _ _ Ht). apply Hentry.
  - apply (sum_of_whole_is_exact Total.total k (totalsByCategory expenses) Hk)
      with (T := T).
    + intros t Ht. rewrite (in_totals _ _ Ht). apply Hentry.
    + rewrite exactSum_totals_same; [exact E | intros c; apply Hentry].
    + exact Hb.
Qed.

End ExactAddition.

Lemma sumTotals_positive_iff (expenses : list Expense) :
  (forall r, In r expenses -> nonNegative (amount r)) ->
  ((0 <? Spec.sumTotals (totalsByCategory expenses))%float = true <->
   (0 <? totalSpent expenses)%float = true).
Proof.
  intros Hnn.
  assert (Hgen : forall (totals : list Total) start,
             nonNegative start ->
             (forall t, In t totals -> nonNegative (Total.total t)) ->
             ((0 <? fold_left (fun sum t => (sum + Total.total t)%float) totals start)%float = true <->
              (0 <? start)%float = true \/
              exists t, In t totals /\ (0 <? Total.total t)%float = true)).
  { induction totals as [|t totals IH]; intros start Hs Ht; simpl.
    - split; [auto | intros [H|(t & [] & _)]; exact H].
    - assert (Hrest : forall t', In t' totals -> nonNegative (Total.total t'))
        by (intros t' Ht'; apply Ht; simpl; auto).
      pose proof (Ht t (or_introl eq_refl)) as Hhead.
      rewrite (IH _ (add_nonNegative _ _ Hs Hhead) Hrest). split.
      + intros [H|(t' & Ht' & Hp)]; [|right; exists t'; simpl; auto].
        destruct (0 <? start)%float eqn:Es; [auto|].
        destruct (0 <? Total.total t)%float eqn:Et; [right; exists t; simpl; auto|].
        exfalso.
        assert (Hz : (start + Total.total t =? 0)%float = true)
          by (apply add_zero_zero; apply zero_or_positive; auto).
        rewrite eqb_spec in Hz. rewrite ltb_spec in H.
        rewrite Prim2SF_zero in *. unfold SFeqb, SFltb in *.
        destruct (Prim2SF (start + Total.total t)) as [[]|[]| |[] m e];
          simpl in *; discriminate.
      + intros [H|(t' & [<-|Ht'] & Hp)].
        * left. apply add_positive; auto.
        * left. apply add_positive; auto.
        * right. eauto. }
  unfold Spec.sumTotals, totalSpent.
  rewrite (Hgen _ 0%float eq_refl (totals_nonNegative expenses Hnn)).
  rewrite (sumAmounts_positive_iff expenses Hnn). split.
  - intros [H|(t & Ht & Hp)]; [discriminate|].
    rewrite (in_totals expenses t Ht) in Hp.
    apply sumAmounts_positive_iff in Hp as (r & Hr & Hp).
    + apply filter_In in Hr as [Hr _]. eauto.
    + intros r Hr. apply filter_In in Hr as [Hr _]. auto.
  - intros (r & Hr & Hp). right.
    exists {| Total.category := category r;
              Total.total := sumAmounts (Spec.ofCategory (category r) expenses) |}.
    split; [apply total_of_category|]. simpl.
    apply sumAmounts_positive_iff.
    + intros r' Hr'. apply filter_In in Hr' as [Hr' _]. auto.
    + exists r. split; [|exact Hp]. apply filter_In.
      split; [exact Hr | now apply Category_eqb_eq].
Qed.

(** C8, amended: [totalsByCategory] has one entry per category, in the order
    of the enumeration; the total of an entry is the sum, from 0, of the
    amounts of the records of its category, in the order of the collection,
    and 0 when there are none; every record is counted in exactly one entry
    (the records of the six categories are, together, a rearrangement of
    the collection), so the totals and [totalSpent] add up the same amounts.
    With amounts that are not negative, the sum of the totals is positive
    exactly when [totalSpent] is, and it equals [totalSpent] whenever none
    of the sums has been rounded: [totalSpent], each total and the sum of
    the totals each being the exact sum of what it adds up.  None is
    rounded, and the two are equal, when the amounts are whole numbers of
    parts of 2^-k (whole numbers, halves, quarters and so on) and their
    total is below 2^53 parts. *)
Theorem totals_and_total_spend (expenses : list Expense) :
  map Total.category (totalsByCategory expenses) = CATEGORIES /\
  (forall t, In t (totalsByCategory expenses) ->
             Total.total t = sumAmounts (Spec.ofCategory (Total.category t) expenses)) /\
  (forall t, In t (totalsByCategory expenses) ->
             (forall r, In r expenses -> category r <> Total.category t) ->
             Total.total t = 0%float) /\
  Permutation (List.concat (map (fun c => Spec.ofCategory c expenses) CATEGORIES))
              expenses /\
  ((forall r, In r expenses -> nonNegative (amount r)) ->
   ((0 <? Spec.sumTotals (totalsByCategory expenses))%float = true <->
    (0 <? totalSpent expenses)%float = true) /\
   (Spec.Exact (totalSpent expenses) (map amount expenses) ->
    (forall t, In t (totalsByCategory expenses) ->
               Spec.Exact (Total.total t)
                          (map amount (Spec.ofCategory (Total.category t) expenses))) ->
    Spec.Exact (Spec.sumTotals (totalsByCategory expenses))
               (map Total.total (totalsByCategory expenses)) ->
    Spec.sumTotals (totalsByCategory expenses) = totalSpent expenses)) /\
  (forall k, Spec.WholeParts k (map amount expenses) ->
             Spec.sumTotals (totalsByCategory expenses) = totalSpent expenses).
Proof.
  destruct (totalsByCategory_entries expenses) as (H1 & H2 & H3 & H4).
  split; [exact H1|]. split; [exact H2|]. split; [exact H3|]. split; [exact H4|].
  split.
  - intros Hnn. split.
    + now apply sumTotals_positive_iff.
    + now apply totals_add_up_when_exact.
  - intros k (Hk & Hw & T & E & Hb).
    apply (totals_add_up_for_whole_parts k expenses Hk) with (T := T); auto.
    intros r Hr. apply Hw. now apply in_map.
Qed.

Lemma totals_and_total_spend_witness :
  (forall r, In r [coffee; bus; lunch] -> nonNegative (amount r)) /\
  Spec.Exact (totalSpent [coffee; bus; lunch]) (map amount [coffee; bus; lunch]) /\
  Spec.sumTotals (totalsByCategory [coffee; bus; lunch]) = 19.75%float /\
  Spec.sumTotals (totalsByCategory [coffee; bus; lunch])
  = totalSpent [coffee; bus; lunch] /\
  Spec.WholeParts 2 (map amount [bus; dinner; coffee]) /\
  Spec.sumTotals (totalsByCategory [bus; dinner; coffee])
  = totalSpent [bus; dinner; coffee].
Proof.
  assert (Hnn : forall r, In r [coffee; bus; lunch] -> nonNegative (amount r))
    by (intros r [<-|[<-|[<-|[]]]]; reflexivity).
  assert (byValue : forall x l,
             Spec.exactSum l = Spec.units x -> Spec.units x <> None -> Spec.Exact x l).
  { intros x l E Hx. unfold Spec.Exact.
    destruct (Spec.units x) as [n|]; [eauto | congruence]. }
  assert (Hspent : Spec.Exact (totalSpent [coffee; bus; lunch])
                              (map amount [coffee; bus; lunch]))
    by (apply byValue; vm_compute; [reflexivity | discriminate]).
  assert (Hquarters : Spec.WholeParts 2 (map amount [bus; dinner; coffee])).
  { split; [lia|]. split.
    - intros x [<-|[<-|[<-|[]]]].
      + exists 11. split; [lia | vm_compute; reflexivity].
      + exists 120. split; [lia | vm_compute; reflexivity].
      + exists 18. split; [lia | vm_compute; reflexivity].
    - exists (149 * 2 ^ 1072). split; [vm_compute; reflexivity | vm_compute; reflexivity]. }
  pose proof (totals_and_total_spend [coffee; bus; lunch])
    as (_ & _ & _ & _ & Hexact & _).
  assert (Hsame : Spec.sumTotals (totalsByCategory [coffee; bus; lunch])
                  = totalSpent [coffee; bus; lunch]).
  { apply (proj2 (Hexact Hnn)).
    - exact Hspent.
    - intros t [<-|[<-|[<-|[<-|[<-|[<-|[]]]]]]];
        apply byValue; vm_compute; (reflexivity || discriminate).
    - apply byValue; vm_compute; [reflexivity | discriminate]. }
  split; [exact Hnn|]. split; [exact Hspent|]. split; [reflexivity|].
  split; [exact Hsame|]. split; [exact Hquarters|].
  exact (proj2 (proj2 (proj2 (proj2 (proj2
           (totals_and_total_spend [bus; dinner; coffee]))))) 2 Hquarters).
Defined.

(* ================================================================== *)
(** * The filter on wide text *)
(* ================================================================== *)

Section WideText.






Lemma wide_truthy_iff (s : Wide.text) : Wide.truthy s = true <-> s <> [].
Proof. destruct s; simpl; split; congruence. Qed.





Lemma Latin1_iff (s : Wide.text) :
  Wide.Latin1 s <-> forallb Wide.isLatin1 s = true.
Proof.
  unfold Wide.Latin1. rewrite forallb_forall, Forall_forall.
  unfold Wide.isLatin1. split; intros H u Hu.
  - apply N.ltb_lt. auto.
  - apply N.ltb_lt. auto.
Qed.

(** On text in Latin-1 [toLowerCase] maps every code unit on its own. *)
Lemma toLowerCase_Latin1 (s : Wide.text) :
  Wide.Latin1 s -> Wide.toLowerCase s = Some (map Wide.lowerLatin1 s).
Proof.
  intros H. apply Latin1_iff in H. unfold Wide.toLowerCase. now rewrite H.
Qed.





End WideText.




(* ================================================================== *)
(** * Strings of code units below 256 are wide text in Latin-1 *)
(* ================================================================== *)

(** The model of strings used for the component, one [ascii] for a code
    unit, is the wide one on text in Latin-1: the built-ins agree, and so
    does the filter. *)

Section NarrowText.

Lemma ofString_cons (c : ascii) (s : string) :
  Wide.ofString (String c s) = N_of_ascii c :: Wide.ofString s.
Proof. reflexivity. Qed.

Lemma ofString_Latin1 (s : string) : Wide.Latin1 (Wide.ofString s).
Proof.
  induction s as [|c s IH]; [constructor|].
  rewrite ofString_cons. constructor; [apply N_ascii_bounded | exact IH].
Qed.

Lemma code_inj (c d : ascii) : N_of_ascii c = N_of_ascii d -> c = d.
Proof.
  intros H. rewrite <- (ascii_N_embedding c), <- (ascii_N_embedding d).
  now rewrite H.
Qed.

Lemma isWhiteSpace_code (c : ascii) :
  Wide.isWhiteSpace (N_of_ascii c) = JS.isWhiteSpace c.
Proof.
  unfold Wide.isWhiteSpace, JS.isWhiteSpace. cbv zeta.
  pose proof (N_ascii_bounded c) as H.
  replace (N_of_ascii c =? 0x1680)%N with false by (symmetry; apply N.eqb_neq; lia).
  replace (0x2000 <=? N_of_ascii c)%N with false by (symmetry; apply N.leb_gt; lia).
  replace (N_of_ascii c =? 0x2028)%N with false by (symmetry; apply N.eqb_neq; lia).
  replace (N_of_ascii c =? 0x2029)%N with false by (symmetry; apply N.eqb_neq; lia).
  replace (N_of_ascii c =? 0x202F)%N with false by (symmetry; apply N.eqb_neq; lia).
  replace (N_of_ascii c =? 0x205F)%N with false by (symmetry; apply N.eqb_neq; lia).
  replace (N_of_ascii c =? 0x3000)%N with false by (symmetry; apply N.eqb_neq; lia).
  replace (N_of_ascii c =? 0xFEFF)%N with false by (symmetry; apply N.eqb_neq; lia).
  cbn [andb]. now rewrite !orb_false_r.
Qed.

Lemma ofString_trimStart (s : string) :
  Wide.ofString (JS.trimStart s) = Wide.trimStart (Wide.ofString s).
Proof.
  induction s as [|c s IH]; [reflexivity|].
  rewrite ofString_cons. cbn [JS.trimStart Wide.trimStart].
  rewrite isWhiteSpace_code. destruct (JS.isWhiteSpace c); [exact IH | reflexivity].
Qed.

Lemma ofString_trimEnd (s : string) :
  Wide.ofString (JS.trimEnd s) = Wide.trimEnd (Wide.ofString s).
Proof.
  induction s as [|c s IH]; [reflexivity|].
  rewrite ofString_cons. cbn [JS.trimEnd Wide.trimEnd].
  rewrite <- IH, isWhiteSpace_code.
  destruct (JS.trimEnd s) as [|d t].
  - destruct (JS.isWhiteSpace c); reflexivity.
  - reflexivity.
Qed.

Lemma ofString_trim (s : string) :
  Wide.ofString (JS.trim s) = Wide.trim (Wide.ofString s).
Proof. unfold JS.trim, Wide.trim. now rewrite ofString_trimEnd, ofString_trimStart. Qed.

(** [JS.toLowerCase] is [toLowerCase] on text in Latin-1. *)
Lemma ofString_toLowerCase (s : string) :
  Wide.toLowerCase (Wide.ofString s) = Some (Wide.ofString (JS.toLowerCase s)).
Proof.
  rewrite toLowerCase_Latin1 by apply ofString_Latin1.
  assert (E : map Wide.lowerLatin1 (Wide.ofString s)
              = Wide.ofString (JS.toLowerCase s)); [|now rewrite E].
  induction s as [|c s IH]; [reflexivity|].
  cbn [JS.toLowerCase]. rewrite !ofString_cons. cbn [map].
  now rewrite lowerChar_code, IH.
Qed.

Lemma ofString_startsWith (s t : string) :
  Wide.startsWith (Wide.ofString s) (Wide.ofString t) = String.prefix t s.
Proof.
  revert s. induction t as [|d t IH]; intros [|c s]; try reflexivity.
  rewrite !ofString_cons. cbn [Wide.startsWith String.prefix].
  destruct (ascii_dec d c) as [->|Hne].
  - rewrite N.eqb_refl. apply IH.
  - replace (N_of_ascii c =? N_of_ascii d)%N with false; [reflexivity|].
    symmetry. apply N.eqb_neq. intros E. apply Hne. symmetry. now apply code_inj.
Qed.

Lemma ofString_includes (s t : string) :
  Wide.includes (Wide.ofString s) (Wide.ofString t) = JS.includes s t.
Proof.
  induction s as [|c s IH].
  - cbn [JS.includes]. rewrite <- ofString_startsWith. reflexivity.
  - cbn [JS.includes]. rewrite <- ofString_startsWith, <- IH. reflexivity.
Qed.

Lemma ofString_compare (a b : string) :
  Wide.compare (Wide.ofString a) (Wide.ofString b) = String.compare a b.
Proof.
  revert b. induction a as [|c a IH]; intros [|d b]; try reflexivity.
  rewrite !ofString_cons. cbn [Wide.compare String.compare].
  unfold Ascii.compare. rewrite IH. reflexivity.
Qed.

Lemma ofString_lt (a b : string) :
  Wide.lt (Wide.ofString a) (Wide.ofString b) = JS.lt a b.
Proof. unfold Wide.lt, JS.lt, String.ltb. now rewrite ofString_compare. Qed.

Lemma ofString_truthy (s : string) : Wide.truthy (Wide.ofString s) = JS.truthy s.
Proof. destruct s; reflexivity. Qed.

(** The filter of the component is the wide filter on records and filters
    of Latin-1 text. *)
Lemma matchesFilters_is_wide (filters : Filters) (r : Expense) :
  Wide.matchesFilters (wideFilters filters) (wideExpense r)
  = Some (matchesFilters filters r).
Proof.
  unfold Wide.matchesFilters, matchesFilters, wideFilters, wideExpense.
  cbn [Wide.description Wide.category Wide.date
       Wide.Filters.search Wide.Filters.category Wide.Filters.from Wide.Filters.to].
  rewrite <- ofString_trim, !ofString_toLowerCase, ofString_includes,
    !ofString_truthy.
  unfold Wide.ge, Wide.le, JS.ge, JS.le. now rewrite !ofString_lt.
Qed.

Lemma kept_is_wide (filters : Filters) (expenses : list Expense) :
  Wide.kept (wideFilters filters) (map wideExpense expenses)
  = Some (map wideExpense (filter (matchesFilters filters) expenses)).
Proof.
  induction expenses as [|r expenses IH]; [reflexivity|].
  cbn [map Wide.kept filter]. rewrite matchesFilters_is_wide, IH.
  destruct (matchesFilters filters r); reflexivity.
Qed.

End NarrowText.
